(** * Shiprocket fulfillment plugin: a shallow embedding and its properties

    The development follows the TypeScript sources:
    - [src/modules/shiprocket-tracking/service.ts]   (tracking upsert),
    - [src/api/hooks/fulfillment/shiprocket/route.ts] (webhook, push path),
    - [src/api/admin/shiprocket/tracking/[awb]/sync/route.ts] (pull path),
    - [src/api/store/shiprocket/tracking/[awb]/route.ts] (public tracking),
    - [src/providers/shiprocket/client/manager.ts]   (token, estimate cache),
    - [src/providers/shiprocket/client/index.ts]     (create, cancel),
    - [src/providers/shiprocket/client/handle-error.ts] and
      [src/providers/shiprocket/utils/validation.ts],
    - [src/api/store/shiprocket/delivery-estimate/rate-limiter.ts]
      (rate limiter of the estimate route). *)

From Stdlib Require Import Floats ZArith QArith Qminmax Qround Lqa String Ascii List Lia.
From stdpp Require Import base option list gmap strings pretty.

Local Open Scope Z_scope.
Local Open Scope string_scope.

(** ** JavaScript values

    The fragment of JavaScript values that the handlers inspect.  Numbers
    that occur in tracking payloads are integers (status codes, ids); [VNaN]
    is the result of a failed numeric conversion.  [VDate v] stands for
    [new Date(v)]: the handlers only construct and store dates. *)

#[local] Unset Elimination Schemes.
Inductive val : Type :=
  | VUndef
  | VNull
  | VBool (b : bool)
  | VNum (n : Z)
  | VNaN
  | VStr (s : string)
  | VDate (src : val)
  | VList (l : list val)
  | VObj (fields : gmap string val).
#[local] Set Elimination Schemes.

Abbreviation obj := (gmap string val).

(** Objects whose properties are read with [o.k]: an absent property reads as
    [undefined]. *)
Definition get (o : obj) (k : string) : val :=
  default VUndef (o !! k).

(** [ToBoolean]. *)
Definition truthy (v : val) : bool :=
  match v with
  | VUndef | VNull | VNaN => false
  | VBool b => b
  | VNum n => negb (n =? 0)%Z
  | VStr s => negb (String.eqb s "")
  | VDate _ | VList _ | VObj _ => true
  end.

(** [a || b]. *)
Definition js_or (a b : val) : val := if truthy a then a else b.

(** [ToPropertyKey] on primitives, as used by [statusMap[status]]. *)
Definition toPropertyKey (v : val) : string :=
  match v with
  | VUndef => "undefined"
  | VNull => "null"
  | VBool true => "true"
  | VBool false => "false"
  | VNum n => pretty n
  | VNaN => "NaN"
  | VStr s => s
  | VDate _ | VList _ | VObj _ => "[object]"
  end.

(** [String(v)] on a number. *)
Definition String_ (v : val) : val := VStr (toPropertyKey v).

Definition is_number (v : val) : bool :=
  match v with VNum _ | VNaN => true | _ => false end.

(** [v?.k]: property access that tolerates [undefined] and [null]. *)
Definition opt_get (v : val) (k : string) : val :=
  match v with
  | VObj o => get o k
  | _ => VUndef
  end.

(** [v?.[0]] on an array. *)
Definition opt_first (v : val) : val :=
  match v with
  | VList (x :: _) => x
  | _ => VUndef
  end.

(** [Number(v)] on the values a payload carries for ids and codes.  Strings
    are converted when they are plain decimal integers. *)
Definition is_digit (c : ascii) : bool :=
  let n := nat_of_ascii c in (48 <=? n)%nat && (n <=? 57)%nat.

Fixpoint all_digits (s : string) : bool :=
  match s with
  | EmptyString => true
  | String c s' => is_digit c && all_digits s'
  end.

Definition digit_val (c : ascii) : Z := (Z.of_nat (nat_of_ascii c) - 48)%Z.

Fixpoint digits_value (acc : Z) (s : string) : Z :=
  match s with
  | EmptyString => acc
  | String c s' => digits_value (10 * acc + digit_val c)%Z s'
  end.

Definition Number_ (v : val) : val :=
  match v with
  | VUndef => VNaN
  | VNull => VNum 0
  | VBool b => VNum (if b then 1 else 0)
  | VNum n => VNum n
  | VNaN => VNaN
  | VStr s => if all_digits s then VNum (digits_value 0 s) else VNaN
  | VDate _ | VList _ | VObj _ => VNaN
  end.

(** ** String helpers: [split], [join], [includes], [toLowerCase] *)

Fixpoint split_go (sep : ascii) (cur : string) (s : string) : list string :=
  match s with
  | EmptyString => [String.rev cur]
  | String c s' =>
      if Ascii.eqb c sep then String.rev cur :: split_go sep EmptyString s'
      else split_go sep (String c cur) s'
  end.

(** [s.split(sep)] for a one-character separator. *)
Definition split (sep : ascii) (s : string) : list string :=
  split_go sep EmptyString s.

(** [parts.join(sep)]. *)
Fixpoint join (sep : string) (parts : list string) : string :=
  match parts with
  | [] => ""
  | [p] => p
  | p :: rest => p ++ sep ++ join sep rest
  end.

Fixpoint is_prefix (p s : string) : bool :=
  match p, s with
  | EmptyString, _ => true
  | String a p', String b s' => Ascii.eqb a b && is_prefix p' s'
  | String _ _, EmptyString => false
  end.

(** [s.includes(p)]. *)
Fixpoint includes (s p : string) : bool :=
  is_prefix p s ||
  match s with
  | EmptyString => false
  | String _ s' => includes s' p
  end.

Definition lower_ascii (c : ascii) : ascii :=
  let n := nat_of_ascii c in
  if (65 <=? n)%nat && (n <=? 90)%nat then ascii_of_nat (n + 32) else c.

(** [s.toLowerCase()] on ASCII text. *)
Fixpoint toLowerCase (s : string) : string :=
  match s with
  | EmptyString => EmptyString
  | String c s' => String (lower_ascii c) (toLowerCase s')
  end.

Example split_example : split " " "05 01 2026 10:30:00" = ["05"; "01"; "2026"; "10:30:00"].
Proof. reflexivity. Qed.
Example join_example : join "-" ["order_01"; "ab"] = "order_01-ab".
Proof. reflexivity. Qed.
Example includes_example : includes "order already cancelled" "already cancelled" = true.
Proof. reflexivity. Qed.

(** ** Numbers

    Weights, dimensions, quantities and prices are JavaScript numbers, that
    is IEEE 754 binary64 values: the primitive type [float], whose [+], [*]
    and [/] round to nearest, ties to even, as JavaScript's do.  The rates
    that the carrier quotes are only compared and rounded up, never added
    or multiplied; they are kept as the rationals they denote. *)

(** [ToBoolean] on a number: [0], [-0] and [NaN] are falsy. *)
Definition number_truthy (x : float) : bool :=
  negb (PrimFloat.is_zero x || PrimFloat.is_nan x).

(** [a || b || d] on optional numbers, [None] being [null] or
    [undefined]. *)
Definition nonzero (x : option float) : option float :=
  match x with
  | Some q => if number_truthy q then Some q else None
  | None => None
  end.

(** [Math.max(a, b)]: [NaN] when either is, [+0] above [-0]. *)
Definition Math_max (a b : float) : float :=
  if PrimFloat.is_nan a || PrimFloat.is_nan b then PrimFloat.nan
  else if (PrimFloat.is_zero b && negb (PrimFloat.get_sign b)) &&
          (PrimFloat.is_zero a && PrimFloat.get_sign a) then b
  else if (a <? b)%float then b else a.

(** [Math.round(x)]: the integer nearest to [x], the greater one on a tie;
    [-0] for a result of zero from a negative [x].  A finite number is
    [(-1)^s * m * 2^e]; with [e >= 0] it is an integer already. *)
Definition Math_round (x : float) : float :=
  match Prim2SF x with
  | S754_finite s m e =>
      if (0 <=? e)%Z then x
      else
        let n := if s then Z.neg m else Z.pos m in
        let r := ((2 * n + 2 ^ (- e)) / 2 ^ (1 - e))%Z in
        if (r =? 0)%Z then (if s then PrimFloat.neg_zero else PrimFloat.zero)
        else if (r <? 0)%Z then (- PrimFloat.of_uint63 (Uint63Axioms.of_Z (- r)))%float
        else PrimFloat.of_uint63 (Uint63Axioms.of_Z r)
  | _ => x
  end.

Example addition_rounds : (100 / 1000 * 3 =? 3 / 10)%float = false.
Proof. reflexivity. Qed.
Example Math_round_examples :
  map Math_round [499; 5 / 2; - (5 / 2); 1 / 4; - (1 / 4); PrimFloat.infinity]%float
  = [499; 3; -2; 0; PrimFloat.neg_zero; PrimFloat.infinity]%float.
Proof. reflexivity. Qed.
Example Math_max_examples :
  map (Math_max 0) [12; -5; PrimFloat.neg_zero]%float = [12; 0; 0]%float.
Proof. reflexivity. Qed.

(** ** Tracking records and [upsertByAwb]
    ([src/modules/shiprocket-tracking/service.ts])

    The table [shiprocket_tracking] maps the primary key [id] to a row; a row
    is an object.  [listShiprocketTrackings({awb}, {take: 1})] yields the
    first row the store enumerates whose [awb] column equals the argument. *)

Module Tracking.

Abbreviation table := (gmap string obj).

Definition awb_is (a : val) (row : obj) : bool :=
  match a, row !! "awb" with
  | VStr x, Some (VStr y) => String.eqb x y
  | _, _ => false
  end.

Definition findByAwb (a : val) (t : table) : option (string * obj) :=
  List.find (fun p => awb_is a (snd p)) (map_to_list t).

Definition is_undef (v : val) : bool :=
  match v with VUndef => true | _ => false end.

(** [Object.keys(o).forEach(key => o[key] === undefined && delete o[key])]. *)
Definition drop_undefined (o : obj) : obj :=
  filter (fun kv => is_undef (snd kv) = false) o.

(** The columns [upsertByAwb] writes when the row exists ("only mutable
    fields"). *)
Definition mutable_fields : list string :=
  [ "current_status"; "current_status_id"; "shipment_status";
    "shipment_status_id"; "current_timestamp"; "etd"; "awb_assigned_date";
    "pickup_scheduled_date"; "scans"; "pod_status"; "pod"; "raw_payload" ].

(** The object literal [updateData] (without its [id], which is the key of
    the row), after the undefined entries are deleted. *)
Definition updateData (data : obj) : obj :=
  drop_undefined (list_to_map (map (fun k => (k, get data k)) mutable_fields)).

(** [updateShiprocketTrackings([{id, ...fields}])]: the fields given replace
    those of row [id]; the others stay. *)
Definition updateShiprocketTrackings (id : string) (fields : obj) (t : table)
  : table :=
  match t !! id with
  | Some row => <[id := fields ∪ row]> t
  | None => t
  end.

(** [createShiprocketTrackings(data)]: a new row under the key the store
    generates. *)
Definition createShiprocketTrackings (new_id : string) (data : obj) (t : table)
  : table :=
  <[new_id := drop_undefined data]> t.

(** [upsertByAwb(data)]; [new_id] is the key the store would give a new row.
    Returns the resulting row and the table. *)
Definition upsertByAwb (new_id : string) (data : obj) (t : table)
  : option (string * obj) * table :=
  match findByAwb (get data "awb") t with
  | Some (id, _) =>
      let t' := updateShiprocketTrackings id (updateData data) t in
      (option_map (fun r => (id, r)) (t' !! id), t')
  | None =>
      let t' := createShiprocketTrackings new_id data t in
      (option_map (fun r => (new_id, r)) (t' !! new_id), t')
  end.

(** *** Status normalisation of the pull path
    ([src/api/admin/shiprocket/tracking/[awb]/sync/route.ts]) *)

Definition statusMap : gmap string string :=
  list_to_map
    [ ("1", "AWB Assigned"); ("6", "Shipped"); ("7", "Delivered");
      ("8", "Cancelled"); ("9", "RTO Initiated"); ("13", "Pickup Error");
      ("17", "In Transit"); ("18", "In Transit"); ("19", "RTO In Transit");
      ("20", "RTO In Transit"); ("21", "Reached Destination") ].

(** [statusMap[v]]: [undefined] when [v] is no key of the table. *)
Definition statusMap_at (v : val) : val :=
  match statusMap !! toPropertyKey v with
  | Some label => VStr label
  | None => VUndef
  end.

(** Lines 58 and 78-82. *)
Definition sync_current_status (trackingData : obj) : val :=
  let status :=
    js_or (get trackingData "current_status")
      (js_or (get trackingData "track_status") (VStr "Unknown")) in
  if truthy (statusMap_at status) then statusMap_at status
  else if is_number status then String_ status
  else status.

(** Lines 75 and 84-88. *)
Definition sync_shipment_status (trackingData : obj) : val :=
  let shipmentStatus := js_or (get trackingData "shipment_status") VNull in
  if truthy shipmentStatus && truthy (statusMap_at shipmentStatus)
  then statusMap_at shipmentStatus
  else if is_number shipmentStatus then String_ shipmentStatus
  else shipmentStatus.

(** [x ? new Date(x) : otherwise]. *)
Definition date_or (x otherwise : val) : val :=
  if truthy x then VDate x else otherwise.

(** The argument of [trackingService.upsertByAwb] in the pull path;
    [now] is the reading of the clock behind [new Date()]. *)
Definition sync_data (awb : string) (trackingResponse : obj) (now : Z) : obj :=
  let trackingData :=
    match get trackingResponse "tracking_data" with VObj o => o | _ => ∅ end in
  let trackInfo := opt_first (get trackingData "shipment_track") in
  let scans :=
    js_or (get trackingData "shipment_track_activities")
      (js_or (get trackingData "scans") (VList [])) in
  list_to_map
    [ ("awb", VStr awb);
      ("courier_name",
        js_or (opt_get trackInfo "courier_name")
          (js_or (get trackingData "courier_name") VNull));
      ("current_status", sync_current_status trackingData);
      ("current_status_id", js_or (get trackingData "current_status_id") (VNum 0));
      ("shipment_status", sync_shipment_status trackingData);
      ("shipment_status_id", js_or (get trackingData "shipment_status_id") (VNum 0));
      ("current_timestamp",
        date_or (get trackingData "current_timestamp") (VDate (VNum now)));
      ("etd",
        date_or (get trackingData "etd") (date_or (opt_get trackInfo "edd") VNull));
      ("awb_assigned_date", date_or (get trackingData "awb_assigned_date") VNull);
      ("pickup_scheduled_date",
        date_or (get trackingData "pickup_scheduled_date") VNull);
      ("scans", scans);
      ("pod_status",
        js_or (get trackingData "pod_status")
          (js_or (opt_get trackInfo "pod_status") VNull));
      ("pod", js_or (get trackingData "pod") (js_or (opt_get trackInfo "pod") VNull));
      ("is_return", js_or (get trackingData "is_return") (VBool false));
      ("origin", js_or (opt_get trackInfo "origin") VNull);
      ("destination", js_or (opt_get trackInfo "destination") VNull);
      ("weight", js_or (opt_get trackInfo "weight") VNull);
      ("raw_payload", VObj trackingResponse) ].

(** The pull path from the carrier's answer to the store: no tracking data
    answers 404 and writes nothing. *)
Definition sync_upsert (new_id awb : string) (trackingResponse : obj) (now : Z)
    (t : table) : option (option (string * obj) * table) :=
  if truthy (get trackingResponse "tracking_data")
  then Some (upsertByAwb new_id (sync_data awb trackingResponse now) t)
  else None.

End Tracking.

(** ** The webhook (push path)
    ([src/api/hooks/fulfillment/shiprocket/route.ts]) *)

Module Webhook.
Import Tracking.

Inductive response : Type := Response (status : Z) (body : obj).

Definition status_of (r : response) : Z := let 'Response s _ := r in s.

(** A header or token is given by the bytes of its UTF-8 encoding, which
    is what [Buffer.from(s, 'utf8')] holds.  [s.length] counts UTF-16 code
    units: one for a character of one, two or three bytes, two for a
    character of four bytes, none for a continuation byte. *)
Definition utf16_units (c : ascii) : nat :=
  let n := nat_of_ascii c in
  if (n <? 128)%nat then 1%nat
  else if (n <? 192)%nat then 0%nat
  else if (n <? 240)%nat then 1%nat
  else 2%nat.

Fixpoint js_length (s : string) : nat :=
  match s with
  | EmptyString => 0%nat
  | String c s' => (utf16_units c + js_length s')%nat
  end.

(** [constantTimeCompare]: [false] for different lengths; otherwise
    [crypto.timingSafeEqual] on the two buffers, which compares the bytes
    and throws a [RangeError] ([None]) when the byte lengths differ. *)
Definition constantTimeCompare (a b : string) : option bool :=
  if negb (js_length a =? js_length b)%nat then Some false
  else if negb (String.length a =? String.length b)%nat then None
  else Some (String.eqb a b).

(** [/^\d{2} \d{2} \d{4}/]. *)
Definition matches_dd_mm_yyyy (s : string) : bool :=
  match s with
  | String d1 (String d2 (String s1 (String m1 (String m2 (String s2
      (String y1 (String y2 (String y3 (String y4 _))))))))) =>
      is_digit d1 && is_digit d2 && Ascii.eqb s1 " " &&
      is_digit m1 && is_digit m2 && Ascii.eqb s2 " " &&
      is_digit y1 && is_digit y2 && is_digit y3 && is_digit y4
  | _ => false
  end.

(** [parseDate]; [None] is the [TypeError] of calling [match] on a value
    that is not a string. *)
Definition parseDate (dateStr : val) : option val :=
  if negb (truthy dateStr) then Some VUndef
  else
    match dateStr with
    | VStr s =>
        if matches_dd_mm_yyyy s then
          let parts := split " " s in
          let d := nth 0 parts "" in
          let m := nth 1 parts "" in
          let y := nth 2 parts "" in
          let time := nth 3 parts "" in
          let time := if String.eqb time "" then "00:00:00" else time in
          Some (VDate (VStr (y ++ "-" ++ m ++ "-" ++ d ++ "T" ++ time)))
        else Some (VDate dateStr)
    | _ => None
    end.

(** [/^\d+$/.test(s)]. *)
Definition is_numeric_suffix (s : string) : bool :=
  negb (String.eqb s "") && all_digits s.

(** Lines 115-124: the host order id is the carrier's order id without a
    trailing [-<digits>].  [None] is a [TypeError]: a truthy value that is
    neither a string nor an array has no [includes], and an array that
    has ["-"] among its elements has no [split]. *)
Definition medusaOrderId (order_id : val) : option val :=
  match order_id with
  | VStr s =>
      if includes s "-" then
        let parts := split "-" s in
        if is_numeric_suffix (List.last parts "")
        then Some (VStr (join "-" (removelast parts)))
        else Some order_id
      else Some order_id
  | VList l =>
      if existsb (fun x => match x with VStr "-" => true | _ => false end) l
      then None else Some order_id
  | _ => if truthy order_id then None else Some order_id
  end.

(** [x ? Number(x) : undefined]. *)
Definition number_or_undefined (x : val) : val :=
  if truthy x then Number_ x else VUndef.

(** The object literal of lines 127-147, given the host order id and the
    four dates. *)
Definition webhook_fields (payload : obj)
    (moid ts etd assigned pickup : val) : obj :=
  list_to_map
    [ ("awb", get payload "awb");
      ("order_id", get payload "order_id");
      ("medusa_order_id", moid);
      ("sr_order_id", number_or_undefined (get payload "sr_order_id"));
      ("courier_name", get payload "courier_name");
      ("current_status", get payload "current_status");
      ("current_status_id", number_or_undefined (get payload "current_status_id"));
      ("shipment_status", get payload "shipment_status");
      ("shipment_status_id", number_or_undefined (get payload "shipment_status_id"));
      ("current_timestamp", ts);
      ("etd", etd);
      ("awb_assigned_date", assigned);
      ("pickup_scheduled_date", pickup);
      ("scans", js_or (get payload "scans") (VList []));
      ("pod_status", get payload "pod_status");
      ("pod", get payload "pod");
      ("is_return",
        VBool match get payload "is_return" with VNum 1 => true | _ => false end);
      ("channel_id", number_or_undefined (get payload "channel_id"));
      ("raw_payload", VObj payload) ].

(** The argument of [trackingService.upsertByAwb]; [None] when building it
    throws. *)
Definition webhook_data (payload : obj) : option obj :=
  moid ← medusaOrderId (get payload "order_id");
  ts ← parseDate (get payload "current_timestamp");
  etd ← parseDate (get payload "etd");
  assigned ← parseDate (get payload "awb_assigned_date");
  pickup ← parseDate (get payload "pickup_scheduled_date");
  Some (webhook_fields payload moid ts etd assigned pickup).

Definition failure (status : Z) (msg : string) : response :=
  Response status (list_to_map [("success", VBool false); ("error", VStr msg)]).

(** [POST]: [expectedToken] is [SHIPROCKET_WEBHOOK_TOKEN], [token] the
    [x-api-key] header, [body] the request body.  Whatever the handler
    throws is answered 500 by its [catch].  The event emitted after the
    upsert changes neither the table nor the response and is left out. *)
Definition POST (expectedToken token : option string) (body : val)
    (new_id : string) (t : table) : response * table :=
  match expectedToken with
  | None | Some "" => (failure 500 "Webhook not configured", t)
  | Some expected =>
      match token with
      | None | Some "" => (failure 401 "Unauthorized", t)
      | Some tok =>
          match constantTimeCompare tok expected with
          | None => (failure 500 "Internal server error", t)
          | Some false => (failure 401 "Unauthorized", t)
          | Some true =>
              if negb (truthy (opt_get body "awb"))
              then (failure 400 "Invalid payload - missing AWB", t)
              else
                match body with
                | VObj payload =>
                    match webhook_data payload with
                    | Some data =>
                        let '(_, t') := upsertByAwb new_id data t in
                        (Response 200
                           (list_to_map
                              [ ("success", VBool true);
                                ("message", VStr "Webhook processed");
                                ("awb", get payload "awb") ]), t')
                    | None => (failure 500 "Internal server error", t)
                    end
                | _ => (failure 500 "Internal server error", t)
                end
          end
      end
  end.

End Webhook.

(** ** Carrier responses and the error translator
    ([src/providers/shiprocket/client/handle-error.ts]) *)

Module Http.

(** The body of a carrier response. *)
#[local] Unset Elimination Schemes.
Inductive json : Type :=
  | JNull
  | JBool (b : bool)
  | JNum (n : Z)
  | JStr (s : string)
  | JArr (items : list json)
  | JObj (fields : list (string * json)).
#[local] Set Elimination Schemes.

Definition json_truthy (j : json) : bool :=
  match j with
  | JNull => false
  | JBool b => b
  | JNum n => negb (n =? 0)%Z
  | JStr s => negb (String.eqb s "")
  | JArr _ | JObj _ => true
  end.

(** [j?.k]; [None] is [undefined]. *)
Definition field (k : string) (j : json) : option json :=
  match j with
  | JObj fields => snd <$> List.find (fun p => String.eqb (fst p) k) (rev fields)
  | _ => None
  end.

Definition quote : string := String (ascii_of_nat 34) EmptyString.
Definition backslash : string := String (ascii_of_nat 92) EmptyString.

Definition hex_digit (n : nat) : string :=
  String (ascii_of_nat (if (n <? 10)%nat then 48 + n else 87 + n)) EmptyString.

(** The escape [JSON.stringify] writes for one character: the quote, the
    backslash and the control characters are escaped. *)
Definition escape_char (c : ascii) : string :=
  let n := nat_of_ascii c in
  if (n =? 34)%nat then backslash ++ quote
  else if (n =? 92)%nat then backslash ++ backslash
  else if (n =? 8)%nat then backslash ++ "b"
  else if (n =? 9)%nat then backslash ++ "t"
  else if (n =? 10)%nat then backslash ++ "n"
  else if (n =? 12)%nat then backslash ++ "f"
  else if (n =? 13)%nat then backslash ++ "r"
  else if (n <? 32)%nat
  then backslash ++ "u00" ++ hex_digit (n / 16) ++ hex_digit (n mod 16)
  else String c EmptyString.

Fixpoint escape (s : string) : string :=
  match s with
  | EmptyString => EmptyString
  | String c s' => escape_char c ++ escape s'
  end.

Example escape_example :
  escape (String (ascii_of_nat 10) (String (ascii_of_nat 31) "a"))
  = backslash ++ "n" ++ backslash ++ "u001fa".
Proof. reflexivity. Qed.

Definition quoted (s : string) : string := quote ++ escape s ++ quote.

(** [JSON.stringify(j)]. *)
Fixpoint stringify (j : json) : string :=
  match j with
  | JNull => "null"
  | JBool true => "true"
  | JBool false => "false"
  | JNum n => pretty n
  | JStr s => quoted s
  | JArr items =>
      "[" ++ join "," ((fix go (l : list json) : list string :=
                          match l with
                          | [] => []
                          | x :: l' => stringify x :: go l'
                          end) items) ++ "]"
  | JObj fields =>
      "{" ++ join "," ((fix go (l : list (string * json)) : list string :=
                          match l with
                          | [] => []
                          | (k, x) :: l' => (quoted k ++ ":" ++ stringify x) :: go l'
                          end) fields) ++ "}"
  end.

(** [String(j)] and [`${j}`]. *)
Fixpoint display (j : json) : string :=
  match j with
  | JNull => "null"
  | JBool true => "true"
  | JBool false => "false"
  | JNum n => pretty n
  | JStr s => s
  | JArr items =>
      join "," ((fix go (l : list json) : list string :=
                   match l with
                   | [] => []
                   | JNull :: l' => "" :: go l'
                   | x :: l' => display x :: go l'
                   end) items)
  | JObj _ => "[object Object]"
  end.

Inductive ErrorType : Type :=
  | UNAUTHORIZED | NOT_FOUND | NOT_ALLOWED | INVALID_DATA | UNEXPECTED_STATE.

(** What a [catch] clause can receive: a [MedusaError], the error axios
    rejects with (its [response] when the carrier answered, its [code], its
    [message]), or a [TypeError] of the runtime. *)
Inductive exn : Type :=
  | MedusaError (ty : ErrorType) (message : string)
  | AxiosError (response : option (Z * json)) (code : option string)
      (message : string)
  | TypeError (message : string).

Definition is_MedusaError (e : exn) : bool :=
  match e with MedusaError _ _ => true | _ => false end.

(** [error?.response?.status], [error?.response?.data], [error?.code],
    [error?.message]. *)
Definition response_status (e : exn) : option Z :=
  match e with AxiosError (Some (s, _)) _ _ => Some s | _ => None end.
Definition response_data (e : exn) : option json :=
  match e with AxiosError (Some (_, d)) _ _ => Some d | _ => None end.
Definition error_code (e : exn) : option string :=
  match e with AxiosError _ c _ => c | _ => None end.
Definition error_message (e : exn) : string :=
  match e with
  | MedusaError _ m | AxiosError _ _ m | TypeError m => m
  end.

(** [error?.response?.status === n] and [error?.code === c]. *)
Definition status_is (e : exn) (n : Z) : bool :=
  match response_status e with
  | Some s => (s =? n)%Z
  | None => false
  end.
Definition code_is (e : exn) (c : string) : bool :=
  match error_code e with
  | Some x => String.eqb x c
  | None => false
  end.

(** [a || b] on an optional body field and a string. *)
Definition field_or (j : option json) (otherwise : string) : string :=
  match j with
  | Some x => if json_truthy x then display x else otherwise
  | None => otherwise
  end.

End Http.

Module HandleError.
Import Http.

(** An element of [msgs.join(", ")]. *)
Definition join_item (j : json) : string :=
  match j with JNull => "" | _ => display j end.

(** [Object.entries(errors)] with each entry rendered as [field: msgs]. *)
Definition validationErrors (errors : json) : option string :=
  let render (p : string * json) : string :=
    fst p ++ ": " ++
    match snd p with
    | JArr msgs => join ", " (map join_item msgs)
    | other => display other
    end in
  match errors with
  | JObj fields => Some (join "; " (map render fields))
  | JArr items =>
      Some (join "; " (map render (imap (fun i x => (pretty (Z.of_nat i), x)) items)))
  | _ => None
  end.

(** [handleError(error, {operation})]: the [MedusaError] it throws. *)
Definition handleError (error : exn) (operation : string) : exn :=
  let statusCode := default 0%Z (response_status error) in
  let responseData := response_data error in
  let message :=
    field_or (responseData ≫= field "message")
      (if String.eqb (error_message error) "" then "Unknown Shiprocket error"
       else error_message error) in
  let contextStr :=
    if String.eqb operation "" then "" else "[" ++ operation ++ "]" in
  let message :=
    match responseData ≫= field "errors" with
    | Some errors =>
        match validationErrors errors with
        | Some listed => "Validation failed: " ++ listed
        | None => message
        end
    | None => message
    end in
  if (statusCode =? 401)%Z then
    MedusaError UNAUTHORIZED
      (contextStr ++
       " Shiprocket authentication failed. Please verify your API credentials.")
  else if (statusCode =? 404)%Z then
    MedusaError NOT_FOUND (contextStr ++ " " ++ message)
  else if (statusCode =? 429)%Z then
    MedusaError NOT_ALLOWED
      (contextStr ++
       " Shiprocket rate limit exceeded. Please retry after a few seconds.")
  else if (statusCode =? 400)%Z || (statusCode =? 422)%Z then
    MedusaError INVALID_DATA (contextStr ++ " " ++ message)
  else if (statusCode =? 405)%Z then
    MedusaError INVALID_DATA
      (contextStr ++ " Invalid API method. This may indicate a plugin bug.")
  else if (statusCode =? 500)%Z || (statusCode =? 502)%Z ||
          (statusCode =? 503)%Z || (statusCode =? 504)%Z then
    MedusaError UNEXPECTED_STATE
      (contextStr ++ " Shiprocket server error (" ++ pretty statusCode ++
       "). Please try again later.")
    else if code_is error "ECONNABORTED" then
    MedusaError UNEXPECTED_STATE
      (contextStr ++ " Shiprocket request timed out. Please try again.")
  else if code_is error "ENOTFOUND" || code_is error "ECONNREFUSED" then
    MedusaError UNEXPECTED_STATE
      (contextStr ++
       " Unable to connect to Shiprocket. Please check your network connection.")
  else MedusaError UNEXPECTED_STATE (contextStr ++ " " ++ message).

End HandleError.

(** ** Courier selection
    ([src/providers/shiprocket/client/manager.ts], lines 386-395) *)

Module Selection.

(** An entry of [available_courier_companies]. *)
Record Courier : Type := {
  courier_name : string;
  courier_company_id : Z;
  etd : string;
  estimated_delivery_days : string;
  rate : Q;
  is_surface : bool
}.

(** *** [parseInt] *)

Definition is_space (c : ascii) : bool :=
  let n := nat_of_ascii c in
  ((9 <=? n)%nat && (n <=? 13)%nat) || (n =? 32)%nat.

Fixpoint skip_spaces (s : string) : string :=
  match s with
  | String c s' => if is_space c then skip_spaces s' else s
  | EmptyString => EmptyString
  end.

Definition hex_digit_val (c : ascii) : option Z :=
  let n := nat_of_ascii c in
  if (48 <=? n)%nat && (n <=? 57)%nat then Some (Z.of_nat n - 48)%Z
  else if (65 <=? n)%nat && (n <=? 70)%nat then Some (Z.of_nat n - 55)%Z
  else if (97 <=? n)%nat && (n <=? 102)%nat then Some (Z.of_nat n - 87)%Z
  else None.

(** The value of the longest prefix of digits in the radix; [None] when
    there is no digit. *)
Fixpoint digits_prefix (radix : Z) (acc : option Z) (s : string) : option Z :=
  match s with
  | EmptyString => acc
  | String c s' =>
      match hex_digit_val c with
      | Some d =>
          if (d <? radix)%Z
          then digits_prefix radix (Some (radix * default 0 acc + d)%Z) s'
          else acc
      | None => acc
      end
  end.

Definition unsigned_int (s : string) : option Z :=
  match s with
  | String "0" (String "x" s') | String "0" (String "X" s') =>
      digits_prefix 16 None s'
  | _ => digits_prefix 10 None s
  end.

(** [parseInt(s)]; [None] is [NaN]. *)
Definition parseInt (s : string) : option Z :=
  match skip_spaces s with
  | String "-" s' => Z.opp <$> unsigned_int s'
  | String "+" s' => unsigned_int s'
  | s' => unsigned_int s'
  end.

(** [parseInt(c.estimated_delivery_days) || 99]. *)
Definition days_or_99 (c : Courier) : Z :=
  match parseInt (estimated_delivery_days c) with
  | Some n => if (n =? 0)%Z then 99 else n
  | None => 99
  end.

(** *** [Array.prototype.sort]

    The sort is stable; with a comparator that orders by a key its result
    is the one insertion gives: an element goes before the first element
    it does not compare greater than. *)

Section Sort.
Context {A : Type} (cmp : A -> A -> Q).

Fixpoint insert (x : A) (l : list A) : list A :=
  match l with
  | [] => [x]
  | y :: l' => if Qle_bool (cmp x y) 0 then x :: l else y :: insert x l'
  end.

Fixpoint sort (l : list A) : list A :=
  match l with
  | [] => []
  | x :: l' => insert x (sort l')
  end.
End Sort.

Definition by_rate (a b : Courier) : Q := rate a - rate b.

Definition by_days (a b : Courier) : Q :=
  inject_Z (days_or_99 a - days_or_99 b).

(** [selectedCourier]: element [0] of the sorted copy. *)
Definition selectCourier (deliveryPreference : string) (couriers : list Courier)
  : option Courier :=
  if String.eqb deliveryPreference "CHEAP"
  then head (sort by_rate couriers)
  else head (sort by_days couriers).

Example parseInt_plain : parseInt "3" = Some 3%Z.
Proof. reflexivity. Qed.
Example parseInt_suffix : parseInt " 12 days" = Some 12%Z.
Proof. reflexivity. Qed.
Example parseInt_nan : parseInt "N/A" = None.
Proof. reflexivity. Qed.
Example parseInt_hex : parseInt "0x1f" = Some 31%Z.
Proof. reflexivity. Qed.

End Selection.

(** ** Orders and the carrier's order payload
    ([src/providers/shiprocket/client/index.ts], the data [create] reads
    and the object [orderData] it builds) *)

Module Order.

(** Weight and dimensions as the host stores them: [None] is [null] or
    [undefined]. *)
Record Product : Type := {
  p_weight : option float;
  p_length : option float;
  p_width : option float;
  p_height : option float
}.

Record Variant : Type := {
  v_weight : option float;
  v_length : option float;
  v_width : option float;
  v_height : option float;
  v_sku : option string;
  hs_code : option string;
  product : option Product
}.

Record OrderItem : Type := {
  oi_id : string;
  variant : option Variant;
  unit_price : option float;
  detail_unit_price : option float;
  variant_sku : option string
}.

Record FulfillmentItem : Type := {
  fi_id : string;
  line_item_id : string;
  title : string;
  fi_sku : option string;
  quantity : option float;
  raw_quantity_value : option float
}.

(** An address or a customer: the fields [create] reads from either. *)
Record Party : Type := {
  first_name : option string;
  last_name : option string;
  address_1 : option string;
  address_2 : option string;
  city : option string;
  postal_code : option string;
  zip : option string;
  province : option string;
  country_code : option string;
  phone : option string;
  email : option string
}.

(** The local-time fields of [new Date(order.created_at)]. *)
Record LocalDate : Type := {
  date : Z;
  month : Z;
  fullYear : Z;
  hours : Z;
  minutes : Z
}.

Record HostOrder : Type := {
  id : string;
  created_at : LocalDate;
  items : option (list OrderItem);
  shipping_address : option Party;
  billing_address : option Party;
  customer : option Party;
  order_email : option string;
  payment_status : option string
}.

Record Fulfillment : Type := {
  delivery_address : option Party
}.

Record OrderLine : Type := {
  name : string;
  sku : string;
  units : float;
  selling_price : float;
  discount : string;
  tax : string;
  hsn : val
}.

Record OrderData : Type := {
  order_id : string;
  order_date : string;
  pickup_location : string;
  billing_customer_name : string;
  billing_last_name : string;
  billing_address_ : string;
  billing_address_2 : string;
  billing_city : string;
  billing_pincode : Z;
  billing_state : string;
  billing_country : string;
  billing_email : string;
  billing_phone : Z;
  shipping_is_billing : bool;
  shipping_customer_name : string;
  shipping_last_name : string;
  shipping_address_ : string;
  shipping_address_2 : string;
  shipping_city : string;
  shipping_pincode : Z;
  shipping_country : string;
  shipping_state : string;
  shipping_email : string;
  shipping_phone : Z;
  order_items : list OrderLine;
  payment_method : string;
  sub_total : float;
  length : float;
  breadth : float;
  height : float;
  weight : float
}.

End Order.

(** ** The client manager
    ([src/providers/shiprocket/client/manager.ts])

    A task that runs alone is a function of the manager's state; the state
    carries the clock ([Date.now()]) and the requests sent so far. *)

Module Manager.
Import Http Selection.

Record CachedToken : Type := {
  token : string;
  token_expiresAt : Z
}.

(** The value [getDeliveryEstimate] resolves to. *)
Record Estimate : Type := {
  serviceable : bool;
  preference : string;
  est_courier_name : option string;
  est_courier_company_id : option Z;
  est_etd : option string;
  est_estimated_delivery_days : option Z;
  est_rate : option Q;
  est_is_surface : option bool;
  courier_count : nat
}.

Record CachedDeliveryEstimate : Type := {
  response : Estimate;
  expiresAt : Z
}.

(** *** [Map<string, V>]: entries in insertion order, one per key *)

Definition map_get {V : Type} (k : string) (m : list (string * V)) : option V :=
  snd <$> List.find (fun p => String.eqb (fst p) k) m.

Fixpoint map_set {V : Type} (k : string) (v : V) (m : list (string * V))
  : list (string * V) :=
  match m with
  | [] => [(k, v)]
  | (k', v') :: m' =>
      if String.eqb k' k then (k, v) :: m' else (k', v') :: map_set k v m'
  end.

Definition map_delete {V : Type} (k : string) (m : list (string * V))
  : list (string * V) :=
  List.filter (fun p => negb (String.eqb (fst p) k)) m.

(** *** Requests and replies *)

Inductive Request : Type :=
  | Login (email password : string)
  | GetServiceability (pickup_postcode delivery_postcode : string)
      (weight cod : float)
  | CreateAdhocOrder (orderData : Order.OrderData)
  | AssignAwb (shipment_id : Z) (courier_id : option Z)
  | CancelOrders (ids : list string).

Definition is_login (r : Request) : bool :=
  match r with Login _ _ => true | _ => false end.

(** The bodies of the carrier's successful answers, read at the fields the
    client uses. *)
Inductive Body : Type :=
  | TokenBody (token : option string)
  | CouriersBody (available_courier_companies : list Courier)
  | OrderBody (shipment_id : option Z) (order_id : string)
      (courier_name : option string)
  | AwbBody (awb_assign_status : Z) (message : option string)
      (awb_code : string) (courier_company_id : Z) (courier_name : option string)
  | OtherBody (data : json).

(** A reply and the time it took, in milliseconds. *)
Inductive Reply : Type :=
  | Replied (body : Body) (latency : N)
  | Failed (response : option (Z * json)) (code : option string)
      (message : string) (latency : N).

(** The carrier: its reply to a request, given the requests it received
    before and the time of sending. *)
Definition Carrier : Type := list Request -> Z -> Request -> Reply.

Record State : Type := {
  clock : Z;
  cachedToken : option CachedToken;
  deliveryEstimateCache : list (string * CachedDeliveryEstimate);
  sent : list Request
}.

Inductive Result (A : Type) : Type :=
  | Ok (a : A)
  | Throw (e : exn).
Arguments Ok {A} a.
Arguments Throw {A} e.

Definition M (A : Type) : Type := State -> Result A * State.

Definition ret {A : Type} (a : A) : M A := fun st => (Ok a, st).
Definition throw {A : Type} (e : exn) : M A := fun st => (Throw e, st).
Definition bind {A B : Type} (m : M A) (k : A -> M B) : M B :=
  fun st =>
    match m st with
    | (Ok a, st') => k a st'
    | (Throw e, st') => (Throw e, st')
    end.

(** [try { m } catch (e) { handler(e) }]. *)
Definition try_catch {A : Type} (m : M A) (handler : exn -> M A) : M A :=
  fun st =>
    match m st with
    | (Ok a, st') => (Ok a, st')
    | (Throw e, st') => handler e st'
    end.

Definition read : M State := fun st => (Ok st, st).

Declare Scope manager_scope.
Delimit Scope manager_scope with manager.
Notation "'do' x <- m ; k" := (bind m (fun x => k))
  (at level 10, x name, m at level 100, k at level 200) : manager_scope.
Notation "m ;; k" := (bind m (fun _ => k))
  (at level 100, k at level 200, right associativity) : manager_scope.

Definition DEFAULT_TIMEOUT : Z := 15000.
Definition TOKEN_REFRESH_BUFFER_DAYS : Z := 8.
Definition DELIVERY_ESTIMATE_CACHE_HOURS : Z := 4.
Definition maxCacheSize : nat := 1000.

Record EstimateRequest : Type := {
  pickup_postcode : string;
  delivery_postcode : string;
  weight : option float;
  cod : option float
}.

(** [x || d] on an optional number. *)
Definition number_or (x : option float) (d : float) : float :=
  match x with
  | Some q => if number_truthy q then q else d
  | None => d
  end.

Definition with_clock (t : Z) (st : State) : State :=
  {| clock := t; cachedToken := cachedToken st;
     deliveryEstimateCache := deliveryEstimateCache st; sent := sent st |}.
Definition with_token (tok : option CachedToken) (st : State) : State :=
  {| clock := clock st; cachedToken := tok;
     deliveryEstimateCache := deliveryEstimateCache st; sent := sent st |}.
Definition with_cache (c : list (string * CachedDeliveryEstimate)) (st : State)
  : State :=
  {| clock := clock st; cachedToken := cachedToken st;
     deliveryEstimateCache := c; sent := sent st |}.
Definition with_sent (l : list Request) (st : State) : State :=
  {| clock := clock st; cachedToken := cachedToken st;
     deliveryEstimateCache := deliveryEstimateCache st; sent := l |}.

(** Lines 341-346: when the cache is full, its first key is deleted. *)
Definition evict_oldest (cache : list (string * CachedDeliveryEstimate))
  : list (string * CachedDeliveryEstimate) :=
  if (maxCacheSize <=? List.length cache)%nat then
    match cache with
    | (firstKey, _) :: _ =>
        if String.eqb firstKey "" then cache else map_delete firstKey cache
    | [] => cache
    end
  else cache.

Section Operations.
(** [numToString] is the conversion of a number inside a template
    literal; the environment of the process gives the credentials and
    the preference. *)
Context (numToString : float -> string) (carrier : Carrier)
        (email password deliveryPreference : string).
Local Open Scope manager_scope.

(** One exchange with the carrier: the request is recorded, the clock
    advances by the latency, a failure rejects. *)
Definition send (r : Request) : M Body :=
  fun st =>
    let after (latency : N) :=
      with_sent (sent st ++ [r]) (with_clock (clock st + Z.of_N latency) st) in
    match carrier (sent st) (clock st) r with
    | Replied body latency => (Ok body, after latency)
    | Failed resp code msg latency =>
        (Throw (AxiosError resp code msg), after latency)
    end.

Definition isTokenValid (st : State) : bool :=
  match cachedToken st with
  | None => false
  | Some t => (clock st <? token_expiresAt t - 60000)%Z
  end.

Definition store_token (tok : string) : M unit :=
  fun st =>
    (Ok tt,
     with_token
       (Some {| token := tok;
                token_expiresAt :=
                  (clock st + TOKEN_REFRESH_BUFFER_DAYS * 24 * 60 * 60 * 1000)%Z |})
       st).

Definition doRefreshToken : M unit :=
  try_catch
    (do body <- send (Login email password);
     match body with
     | TokenBody (Some tok) =>
         if String.eqb tok ""
         then throw (MedusaError INVALID_DATA
                       "Shiprocket authentication failed: no token received")
         else store_token tok
     | _ => throw (MedusaError INVALID_DATA
                     "Shiprocket authentication failed: no token received")
     end)
    (fun error =>
       if is_MedusaError error then throw error
       else throw (MedusaError INVALID_DATA
                     (field_or (response_data error ≫= field "message")
                        "Shiprocket authentication failed"))).

(** A task that runs alone finds no refresh in progress. *)
Definition refreshToken : M unit := doRefreshToken.

Definition ensureToken : M unit :=
  fun st => if isTokenValid st then (Ok tt, st) else refreshToken st.

Definition getAxios : M unit := ensureToken.

(** A request through the shared instance, with its response
    interceptor: a 401 to a request other than the login is answered by
    one refresh and one repetition of the request. *)
Definition request (r : Request) : M Body :=
  try_catch (send r)
    (fun error =>
       if status_is error 401 && negb (is_login r)
       then refreshToken ;; send r
       else throw error).

Definition cacheKey (data : EstimateRequest) : string :=
  pickup_postcode data ++ "-" ++ delivery_postcode data ++ "-" ++
  numToString (number_or (weight data) 0.5%float) ++ "-" ++
  numToString (number_or (cod data) 0%float).

Definition cache_put (key : string) (result : Estimate) : M unit :=
  fun st =>
    (Ok tt,
     with_cache
       (map_set key
          {| response := result;
             expiresAt :=
               (clock st + DELIVERY_ESTIMATE_CACHE_HOURS * 60 * 60 * 1000)%Z |}
          (deliveryEstimateCache st))
       st).

Definition not_serviceable : Estimate :=
  {| serviceable := false; preference := deliveryPreference;
     est_courier_name := None; est_courier_company_id := None;
     est_etd := None; est_estimated_delivery_days := None;
     est_rate := None; est_is_surface := None; courier_count := 0 |}.

Definition estimate_of (sel : Courier) (couriers : list Courier) : Estimate :=
  {| serviceable := true; preference := deliveryPreference;
     est_courier_name := Some (courier_name sel);
     est_courier_company_id := Some (courier_company_id sel);
     est_etd := Some (etd sel);
     est_estimated_delivery_days :=
       match parseInt (estimated_delivery_days sel) with
       | Some n => if (n =? 0)%Z then None else Some n
       | None => None
       end;
     est_rate := Some (rate sel);
     est_is_surface := Some (is_surface sel);
     courier_count := List.length couriers |}.

(** Lines 354-424: the [try] block that asks the carrier, selects a
    courier and caches the result. *)
Definition fetch_estimate (data : EstimateRequest) (key : string)
    (weight cod : float) : M Estimate :=
  try_catch
    (do body <- request (GetServiceability (pickup_postcode data)
                           (delivery_postcode data) weight cod);
     let couriers :=
       match body with CouriersBody l => l | _ => [] end in
     match couriers with
     | [] => cache_put key not_serviceable ;; ret not_serviceable
     | _ :: _ =>
         match selectCourier deliveryPreference couriers with
         | Some sel =>
             let result := estimate_of sel couriers in
             cache_put key result ;; ret result
         | None => throw (TypeError "Cannot read properties of undefined")
         end
     end)
    (fun error =>
       if is_MedusaError error then throw error
       else throw (MedusaError INVALID_DATA
                     (field_or (response_data error ≫= field "message")
                        "Failed to get delivery estimate"))).

Definition getDeliveryEstimate (data : EstimateRequest) : M Estimate :=
  ensureToken ;;
  let weight := number_or (weight data) 0.5%float in
  let cod := number_or (cod data) 0%float in
  let key := cacheKey data in
  (fun st => (Ok tt, with_cache (evict_oldest (deliveryEstimateCache st)) st)) ;;
  do st <- read;
  match map_get key (deliveryEstimateCache st) with
  | Some cached =>
      if (clock st <? expiresAt cached)%Z then ret (response cached)
      else fetch_estimate data key weight cod
  | None => fetch_estimate data key weight cod
  end.

Definition getPreferredCourier (data : EstimateRequest) : M (option Z) :=
  do estimate <- getDeliveryEstimate data;
  ret (est_courier_company_id estimate).

End Operations.

End Manager.

(** ** Validation utilities
    ([src/providers/shiprocket/utils/validation.ts]) *)

Module Validation.
Import Http Manager.

(** [s.replace(/[^0-9]/g, "")]. *)
Fixpoint digits_only (s : string) : string :=
  match s with
  | EmptyString => EmptyString
  | String c s' => if is_digit c then String c (digits_only s') else digits_only s'
  end.

Definition invalid {A : Type} (msg : string) : Result A :=
  Throw (MedusaError INVALID_DATA msg).

Definition requireField (value : option string) (fieldName : string)
  : Result string :=
  match value with
  | Some v =>
      if String.eqb v "" then invalid ("Missing required field: " ++ fieldName)
      else Ok v
  | None => invalid ("Missing required field: " ++ fieldName)
  end.

Definition validateAndSanitizePhone (phone fieldName : string) : Result Z :=
  if String.eqb phone "" then invalid (fieldName ++ " is required")
  else
    let cleaned := digits_only phone in
    if negb (String.length cleaned =? 10)%nat
    then invalid (fieldName ++ " must be 10 digits, got " ++
                  pretty (Z.of_nat (String.length cleaned)) ++ ": " ++ phone)
    else Ok (digits_value 0 cleaned).

Definition validateAndSanitizePincode (pincode fieldName : string) : Result Z :=
  if String.eqb pincode "" then invalid (fieldName ++ " is required")
  else
    let cleaned := digits_only pincode in
    if negb (String.length cleaned =? 6)%nat
    then invalid (fieldName ++ " must be 6 digits, got " ++
                  pretty (Z.of_nat (String.length cleaned)) ++ ": " ++ pincode)
    else Ok (digits_value 0 cleaned).

End Validation.

(** ** The client: [create] and [cancel]
    ([src/providers/shiprocket/client/index.ts]) *)

Module Client.
Import Http Manager Validation.

Definition rbind {A B : Type} (m : Result A) (k : A -> Result B) : Result B :=
  match m with
  | Ok a => k a
  | Throw e => Throw e
  end.

Declare Scope result_scope.
Delimit Scope result_scope with result.
Notation "'do' x <- m ; k" := (rbind m (fun x => k))
  (at level 10, x name, m at level 100, k at level 200) : result_scope.

(** [Number(a || b || d)]. *)
Definition first_truthy (a b : option float) (d : float) : float :=
  match nonzero a with
  | Some q => q
  | None => match nonzero b with Some q => q | None => d end
  end.

(** A string that is present and not empty. *)
Definition nonempty (x : option string) : option string :=
  match x with
  | Some s => if String.eqb s "" then None else Some s
  | None => None
  end.

(** [a || b] on optional strings. *)
Definition sor (a b : option string) : option string :=
  match nonempty a with Some s => Some s | None => b end.

(** Lines 173-178, for an order that is an object. *)
Definition orderItemMap (order : Order.HostOrder) : gmap string Order.OrderItem :=
  match Order.items order with
  | Some l => foldl (fun m orderItem => <[Order.oi_id orderItem := orderItem]> m) ∅ l
  | None => ∅
  end.

(** Lines 213-218: weight in grams, and length, breadth and height of the
    variant, with the product as fallback. *)
Definition weightGrams (v : Order.Variant) : float :=
  first_truthy (Order.v_weight v) (Order.product v ≫= Order.p_weight) 0%float.
Definition length_of (v : Order.Variant) : float :=
  first_truthy (Order.v_length v) (Order.product v ≫= Order.p_length) 0%float.
Definition breadth_of (v : Order.Variant) : float :=
  first_truthy (Order.v_width v) (Order.product v ≫= Order.p_width) 0%float.
Definition height_of (v : Order.Variant) : float :=
  first_truthy (Order.v_height v) (Order.product v ≫= Order.p_height) 0%float.

(** Line 228. *)
Definition quantity_of (item : Order.FulfillmentItem) : float :=
  first_truthy (Order.quantity item) (Order.raw_quantity_value item) 1%float.

(** Lines 193-226: the variant of a fulfillment item, or the error thrown
    for it. *)
Definition checked_variant (m : gmap string Order.OrderItem)
    (item : Order.FulfillmentItem) : Result Order.Variant :=
  match m !! Order.line_item_id item with
  | None =>
      invalid ("Order item not found for fulfillment item: " ++ Order.title item)
  | Some orderItem =>
      match Order.variant orderItem with
      | None => invalid ("Variant data missing for item: " ++ Order.title item)
      | Some variant =>
          let weight := (weightGrams variant / 1000)%float in
          if negb (number_truthy weight) || negb (number_truthy (length_of variant)) ||
             negb (number_truthy (breadth_of variant)) ||
             negb (number_truthy (height_of variant))
          then invalid ("Missing dimensions/weight for " ++ quote ++
                        Order.title item ++ quote ++
                        ". Please set them on the Variant.")
          else Ok variant
      end
  end.

Record Totals : Type := {
  totalWeight : float;
  totalLength : float;
  totalBreadth : float;
  totalHeight : float
}.

(** Lines 192-233: the loop over the fulfillment items. *)
Fixpoint add_items (m : gmap string Order.OrderItem)
    (items : list Order.FulfillmentItem) (acc : Totals) : Result Totals :=
  match items with
  | [] => Ok acc
  | item :: rest =>
      (do variant <- checked_variant m item;
       let quantity := quantity_of item in
       add_items m rest
         {| totalWeight :=
              (totalWeight acc + (weightGrams variant / 1000) * quantity)%float;
            totalLength := Math_max (totalLength acc) (length_of variant);
            totalBreadth := Math_max (totalBreadth acc) (breadth_of variant);
            totalHeight := (totalHeight acc + height_of variant * quantity)%float |})%result
  end.

Definition zero_totals : Totals :=
  {| totalWeight := 0%float; totalLength := 0%float; totalBreadth := 0%float;
     totalHeight := 0%float |}.

(** Lines 267-281. *)
Definition order_line (m : gmap string Order.OrderItem)
    (item : Order.FulfillmentItem) : Result Order.OrderLine :=
  match m !! Order.line_item_id item with
  | Some orderItem =>
      match Order.variant orderItem with
      | Some variant =>
          Ok {| Order.name := Order.title item;
                Order.sku :=
                  default (Order.fi_id item)
                    (sor (Order.v_sku variant)
                       (sor (Order.variant_sku orderItem)
                          (nonempty (Order.fi_sku item))));
                Order.units := quantity_of item;
                Order.selling_price :=
                  Math_round (first_truthy (Order.unit_price orderItem)
                                (Order.detail_unit_price orderItem) 0%float);
                Order.discount := "";
                Order.tax := "";
                Order.hsn :=
                  match nonempty (Order.hs_code variant) with
                  | Some code => Number_ (VStr code)
                  | None => VNum 0
                  end |}
      | None => Throw (TypeError "Cannot read properties of undefined")
      end
  | None => Throw (TypeError "Cannot read properties of undefined")
  end.

Fixpoint order_lines (m : gmap string Order.OrderItem)
    (items : list Order.FulfillmentItem) : Result (list Order.OrderLine) :=
  match items with
  | [] => Ok []
  | item :: rest =>
      (do line <- order_line m item;
       do lines <- order_lines m rest;
       Ok (line :: lines))%result
  end.

(** Lines 284-289. *)
Definition sub_total_of (m : gmap string Order.OrderItem)
    (items : list Order.FulfillmentItem) : float :=
  foldl (fun sum item =>
           match m !! Order.line_item_id item with
           | Some orderItem =>
               (sum + first_truthy (Order.unit_price orderItem)
                        (Order.detail_unit_price orderItem) 0 * quantity_of item)%float
           | None => sum
           end) 0%float items.

Definition empty_party : Order.Party :=
  {| Order.first_name := None; Order.last_name := None;
     Order.address_1 := None; Order.address_2 := None; Order.city := None;
     Order.postal_code := None; Order.zip := None; Order.province := None;
     Order.country_code := None; Order.phone := None; Order.email := None |}.

(** [n.toString().padStart(2, "0")]. *)
Definition pad (n : Z) : string :=
  if (0 <=? n)%Z && (n <? 10)%Z then "0" ++ pretty n else pretty n.

Definition orderDate (d : Order.LocalDate) : string :=
  pad (Order.date d) ++ "-" ++ pad (Order.month d + 1)%Z ++ "-" ++
  pretty (Order.fullYear d) ++ " " ++ pad (Order.hours d) ++ ":" ++
  pad (Order.minutes d).

(** Line 235. *)
Definition shipping_of (fulfillment : option Order.Fulfillment)
    (order : Order.HostOrder) : Order.Party :=
  match Order.shipping_address order with
  | Some a => a
  | None => default empty_party (fulfillment ≫= Order.delivery_address)
  end.

(** Line 236. *)
Definition billing_of (order : Order.HostOrder) : Order.Party :=
  match Order.billing_address order with
  | Some a => a
  | None => default empty_party (Order.customer order)
  end.

(** Lines 192-294: the loop and the object [orderData]; [now] is
    [Date.now()], [pickup_location] the client's option. *)
Definition build_orderData (now : Z) (pickup_location : option string)
    (fulfillment : option Order.Fulfillment)
    (items : list Order.FulfillmentItem) (order : Order.HostOrder)
  : Result Order.OrderData :=
  let m := orderItemMap order in
  (do totals <- add_items m items zero_totals;
   let shipping := shipping_of fulfillment order in
   let billing := billing_of order in
   let mail := sor (Order.email billing) (Order.order_email order) in
   do b_name <- requireField (Order.first_name billing) "Billing First Name";
   do b_address <- requireField (sor (Order.address_1 shipping) (Order.address_1 billing))
                     "Billing Address";
   do b_city <- requireField (sor (Order.city shipping) (Order.city billing))
                  "Billing City";
   do b_pin_raw <- requireField (sor (Order.postal_code shipping) (Order.postal_code billing))
                     "Billing Pincode";
   do b_pin <- validateAndSanitizePincode b_pin_raw "Billing Pincode";
   do b_state <- requireField (sor (Order.province shipping) (Order.province billing))
                   "Billing State";
   do b_country <- requireField
                     (sor (Order.country_code shipping)
                        (sor (Order.country_code billing) (Some "IN")))
                     "Billing Country";
   do b_email <- requireField mail "Billing Email";
   do b_phone_raw <- requireField (sor (Order.phone shipping) (Order.phone billing))
                       "Billing Phone";
   do b_phone <- validateAndSanitizePhone b_phone_raw "Billing Phone";
   do s_name <- requireField (Order.first_name shipping) "Shipping First Name";
   do s_address <- requireField (Order.address_1 shipping) "Shipping Address";
   do s_city <- requireField (Order.city shipping) "Shipping City";
   do s_pin_raw <- requireField (Order.postal_code shipping) "Shipping Pincode";
   do s_pin <- validateAndSanitizePincode s_pin_raw "Shipping Pincode";
   do s_country <- requireField (sor (Order.country_code shipping) (Some "IN"))
                     "Shipping Country";
   do s_state <- requireField (Order.province shipping) "Shipping State";
   do s_email <- requireField mail "Shipping Email";
   do s_phone_raw <- requireField (Order.phone shipping) "Shipping Phone";
   do s_phone <- validateAndSanitizePhone s_phone_raw "Shipping Phone";
   do lines <- order_lines m items;
   Ok {| Order.order_id := Order.id order ++ "-" ++ pretty (now / 1000)%Z;
         Order.order_date := orderDate (Order.created_at order);
         Order.pickup_location := default "Primary" (nonempty pickup_location);
         Order.billing_customer_name := b_name;
         Order.billing_last_name := default "" (Order.last_name billing);
         Order.billing_address_ := b_address;
         Order.billing_address_2 :=
           default "" (sor (Order.address_2 shipping) (Order.address_2 billing));
         Order.billing_city := b_city;
         Order.billing_pincode := b_pin;
         Order.billing_state := b_state;
         Order.billing_country := b_country;
         Order.billing_email := b_email;
         Order.billing_phone := b_phone;
         Order.shipping_is_billing := true;
         Order.shipping_customer_name := s_name;
         Order.shipping_last_name := default "" (Order.last_name shipping);
         Order.shipping_address_ := s_address;
         Order.shipping_address_2 := default "" (Order.address_2 shipping);
         Order.shipping_city := s_city;
         Order.shipping_pincode := s_pin;
         Order.shipping_country := s_country;
         Order.shipping_state := s_state;
         Order.shipping_email := s_email;
         Order.shipping_phone := s_phone;
         Order.order_items := lines;
         Order.payment_method := "Prepaid";
         Order.sub_total := sub_total_of m items;
         Order.length := totalLength totals;
         Order.breadth := totalBreadth totals;
         Order.height := totalHeight totals;
         Order.weight := totalWeight totals |})%result.

(** What [create] resolves to. *)
Record CreateResult : Type := {
  shipment_id : Z;
  remote_order_id : string;
  awb : string;
  created_courier_company_id : Z;
  created_courier_name : option string;
  tracking_number : string;
  tracking_url : string
}.

(** Lines 300-303: the first entry of the carrier's field errors. *)
Definition first_error (apiError : json) : string :=
  let firstError :=
    match apiError with
    | JObj ((_, v) :: _) | JArr (v :: _) => Some v
    | JStr (String c _) => Some (JStr (String c EmptyString))
    | _ => None
    end in
  match firstError with
  | Some (JArr (x :: _)) => display x
  | Some (JArr []) | None => "undefined"
  | Some other => display other
  end.

Definition lift {A : Type} (r : Result A) : M A := fun st => (r, st).

Section Operations.
Context (numToString : float -> string) (carrier : Carrier)
        (email password deliveryPreference : string)
        (pickup_location : option string) (isDisposed : bool).
Local Open Scope manager_scope.

Definition getSharedAxios : M unit :=
  if isDisposed
  then throw (MedusaError NOT_ALLOWED "ShiprocketClient is disposed")
  else getAxios carrier email password.

Definition post (r : Request) : M Body :=
  getSharedAxios ;; request carrier email password r.

(** Lines 371-386. *)
Definition cancel (orderId : string) : M unit :=
  try_catch (post (CancelOrders [orderId]) ;; ret tt)
    (fun error =>
       match response_data error with
       | None =>
           throw (TypeError
                    "Cannot read properties of undefined (reading 'toLowerCase')")
       | Some apiError =>
           let messageStr := toLowerCase (stringify apiError) in
           if includes messageStr "already cancelled" ||
              includes messageStr "already canceled" ||
              (status_is error 400 && includes messageStr "cannot cancel")
           then ret tt
           else throw (HandleError.handleError error "cancel")
       end).

Definition no_courier (message : option string) : exn :=
  MedusaError NOT_ALLOWED
    (default "AWB assignment failed - no courier available" (nonempty message)).

(** Lines 316-332: the preferred courier, or [null] when it cannot be
    had. *)
Definition courier_preference (shipping billing : Order.Party)
    (order : Order.HostOrder) (totalWeight : float) : M (option Z) :=
  try_catch
    (match sor (Order.postal_code shipping) (Order.zip shipping),
           sor (Order.postal_code billing) (Order.zip billing) with
     | Some pickupPincode, Some deliveryPincode =>
         getPreferredCourier numToString carrier email password
           deliveryPreference
           {| pickup_postcode := pickupPincode;
              delivery_postcode := deliveryPincode;
              weight := Some totalWeight;
              cod := Some (match Order.payment_status order with
                         | Some status =>
                             if String.eqb status "awaiting" then 1%float
                             else 0%float
                         | None => 0%float
                         end) |}
     | _, _ => ret None
     end)
    (fun _ => ret None).

(** Lines 167-366.  [order] is [None] when the caller passes [undefined]
    or [null]: line 174 reads [order.items] before the [try] of line 185
    is entered, so the [TypeError] of that read is what [create] rejects
    with. *)
Definition create (fulfillment : option Order.Fulfillment)
    (items : list Order.FulfillmentItem) (order : option Order.HostOrder)
  : M CreateResult :=
  match order with
  | None =>
      throw (TypeError "Cannot read properties of undefined (reading 'items')")
  | Some order =>
      try_catch
        (do st <- read;
         do orderData <- lift (build_orderData (clock st) pickup_location
                                 fulfillment items order);
         getSharedAxios ;;
         do orderCreated <-
           try_catch (request carrier email password (CreateAdhocOrder orderData))
             (fun err =>
                match response_data err ≫= field "errors" with
                | Some apiError =>
                    if json_truthy apiError
                    then throw (MedusaError INVALID_DATA
                                  ("Shiprocket: " ++ first_error apiError))
                    else throw err
                | None => throw err
                end);
         match orderCreated with
         | OrderBody (Some shipment) remote_id courier =>
             if (shipment =? 0)%Z
             then throw (MedusaError INVALID_DATA
                           "Shiprocket order created but no shipment ID returned")
             else
               do courierId <- courier_preference (shipping_of fulfillment order)
                                 (billing_of order) order (Order.weight orderData);
               let courier_id :=
                 match courierId with
                 | Some c => if (c =? 0)%Z then None else Some c
                 | None => None
                 end in
               do awbCreated <- post (AssignAwb shipment courier_id);
               match awbCreated with
               | AwbBody status message awb_code company name =>
                   if (status =? 1)%Z then
                     ret {| shipment_id := shipment;
                            remote_order_id := remote_id;
                            awb := awb_code;
                            created_courier_company_id := company;
                            created_courier_name := sor name courier;
                            tracking_number := awb_code;
                            tracking_url :=
                              "https://shiprocket.co/tracking/" ++ awb_code |}
                   else
                     try_catch (cancel remote_id) (fun _ => ret tt) ;;
                     throw (no_courier message)
               | _ =>
                   try_catch (cancel remote_id) (fun _ => ret tt) ;;
                   throw (no_courier None)
               end
         | _ => throw (MedusaError INVALID_DATA
                         "Shiprocket order created but no shipment ID returned")
         end)
        (fun error =>
           if is_MedusaError error then throw error
           else throw (HandleError.handleError error "create"))
  end.

End Operations.

End Client.

(** ** The public tracking query
    ([src/api/store/shiprocket/tracking/[awb]/route.ts]) *)

Module StoreTracking.
Import Tracking Webhook.

(** What [orderModule.retrieveOrder] does: it resolves to an order, or it
    throws a value whose [message] is given ([None] when the thrown value
    has none). *)
Inductive retrieval : Type :=
  | Resolved (order : val)
  | Threw (message : option string).

(** [a !== b] on the values an id can be. *)
Definition strict_ne (a b : val) : bool :=
  match a, b with
  | VUndef, VUndef | VNull, VNull => false
  | VBool x, VBool y => negb (Bool.eqb x y)
  | VNum x, VNum y => negb (x =? y)%Z
  | VStr x, VStr y => negb (String.eqb x y)
  | _, _ => true
  end.

(** Lines 14-22: the waybill of the request. *)
Definition awb_of (param : option string) (url : option string) : string :=
  match param with
  | Some a => if String.eqb a "" then
                match url with
                | Some u => nth 0 (split "?" (List.last (split "/" u) "")) ""
                | None => a
                end
              else a
  | None =>
      match url with
      | Some u =>
          if String.eqb u "" then ""
          else nth 0 (split "?" (List.last (split "/" u) "")) ""
      | None => ""
      end
  end.

(** Lines 79-95. *)
Definition tracking_body (tracking : obj) : obj :=
  list_to_map
    [ ("success", VBool true);
      ("tracking",
        VObj (list_to_map
          [ ("awb", get tracking "awb");
            ("courier_name", get tracking "courier_name");
            ("current_status", get tracking "current_status");
            ("current_status_id", get tracking "current_status_id");
            ("shipment_status", get tracking "shipment_status");
            ("shipment_status_id", get tracking "shipment_status_id");
            ("current_timestamp", get tracking "current_timestamp");
            ("etd", get tracking "etd");
            ("is_return", get tracking "is_return");
            ("pod_status", get tracking "pod_status");
            ("scans", js_or (get tracking "scans") (VList []));
            ("updated_at", get tracking "updated_at") ])) ].

Inductive verdict : Type := Allow | Deny (msg : string) | Crash.

(** Lines 44-76: the ownership check of a record linked to an order. *)
Definition check_ownership (retrieveOrder : val -> retrieval) (actor_id : val)
    (medusa_order_id : val) : verdict :=
  match retrieveOrder medusa_order_id with
  | Resolved (VObj order) =>
      let customer_id := get order "customer_id" in
      if truthy customer_id && strict_ne customer_id actor_id
      then Deny "Access denied. You do not own this order."
      else Allow
  | Resolved VUndef | Resolved VNull =>
      Deny "Access denied. Unable to verify order ownership."
  | Resolved _ => Allow
  | Threw (Some message) =>
      if negb (includes (toLowerCase message) "not found")
      then Deny "Access denied. Unable to verify order ownership."
      else Allow
  | Threw None => Crash
  end.

(** [GET]: [param] is [req.params.awb], [url] is [req.url], [actor_id] is
    [req.auth_context?.actor_id]. *)
Definition GET (param url : option string) (t : table)
    (retrieveOrder : val -> retrieval) (actor_id : val) : response :=
  let awb := awb_of param url in
  if String.eqb awb "" then failure 400 "AWB parameter is required"
  else
    match findByAwb (VStr awb) t with
    | None => failure 404 "Tracking not found"
    | Some (_, tracking) =>
        let verdict :=
          if truthy (get tracking "medusa_order_id")
          then check_ownership retrieveOrder actor_id (get tracking "medusa_order_id")
          else Allow in
        match verdict with
        | Allow => Response 200 (tracking_body tracking)
        | Deny msg => failure 403 msg
        | Crash => failure 500 "Internal server error"
        end
    end.

End StoreTracking.

(** ** Token refresh under interleaving
    ([src/providers/shiprocket/client/manager.ts], lines 183-273)

    Callers of [getAxios], [forceRefreshToken] and the 401 interceptor run
    as tasks of one event loop.  A task runs without interruption from one
    [await] to the next; between two such runs any other task may run, the
    clock may advance and a login may complete.  The order in which the
    event loop resumes the tasks is left open. *)

Module Concurrent.
Import Manager.

(** Where a task is suspended. *)
Inductive pc : Type :=
  | AtGetAxios                (* called [getAxios()]: before line 202 *)
  | AtRefreshToken            (* called [refreshToken()]: before line 221 *)
  | AwaitShared (p : nat)     (* lines 208 and 222: awaits the promise it found *)
  | AwaitOwn (p : nat)        (* line 229: awaits the promise it created *)
  | Finished (ok : bool).

Inductive settlement : Type := Pending | Fulfilled | Rejected.

Record World : Type := {
  now : Z;
  cachedToken : option CachedToken;
  tokenRefreshPromise : option nat;
  promises : list settlement;   (* the promises [doRefreshToken] returned *)
  logins : list nat;            (* logins in flight, by the promise they settle *)
  tasks : list pc
}.

Inductive event : Type :=
  | Arrive (viaGetAxios : bool)
  | Advance (dt : N)
  | Resume (i : nat)
  | LoginCompletes (p : nat) (token : option string).

Definition isTokenValid (w : World) : bool :=
  match cachedToken w with
  | None => false
  | Some t => (now w <? token_expiresAt t - 60000)%Z
  end.

Definition set_task (i : nat) (c : pc) (w : World) : World :=
  {| now := now w; cachedToken := cachedToken w;
     tokenRefreshPromise := tokenRefreshPromise w; promises := promises w;
     logins := logins w; tasks := <[i := c]> (tasks w) |}.

(** [refreshToken] up to its first [await] (lines 221-229): it waits for
    the promise in the slot, or calls [doRefreshToken], which posts the
    login, and stores the promise. *)
Definition enter_refreshToken (i : nat) (w : World) : World :=
  match tokenRefreshPromise w with
  | Some p => set_task i (AwaitShared p) w
  | None =>
      let p := List.length (promises w) in
      {| now := now w; cachedToken := cachedToken w;
         tokenRefreshPromise := Some p;
         promises := promises w ++ [Pending];
         logins := p :: logins w;
         tasks := <[i := AwaitOwn p]> (tasks w) |}
  end.

(** [ensureToken] up to its first [await] (lines 202-212). *)
Definition enter_ensureToken (i : nat) (w : World) : World :=
  if isTokenValid w then set_task i (Finished true) w
  else
    match tokenRefreshPromise w with
    | Some p => set_task i (AwaitShared p) w
    | None => enter_refreshToken i w
    end.

Definition settled (w : World) (p : nat) : option bool :=
  match promises w !! p with
  | Some Fulfilled => Some true
  | Some Rejected => Some false
  | _ => None
  end.

(** The task that created the promise resumes after line 229: the
    [finally] block empties the slot. *)
Definition leave_refreshToken (i : nat) (ok : bool) (w : World) : World :=
  {| now := now w; cachedToken := cachedToken w;
     tokenRefreshPromise := None; promises := promises w;
     logins := logins w; tasks := <[i := Finished ok]> (tasks w) |}.

Definition resume (i : nat) (w : World) : option World :=
  match tasks w !! i with
  | Some AtGetAxios => Some (enter_ensureToken i w)
  | Some AtRefreshToken => Some (enter_refreshToken i w)
  | Some (AwaitShared p) =>
      ok ← settled w p; Some (set_task i (Finished ok) w)
  | Some (AwaitOwn p) =>
      ok ← settled w p; Some (leave_refreshToken i ok w)
  | Some (Finished _) | None => None
  end.

(** The login behind promise [p] completes (lines 239-272): with a token
    the cache is replaced and the promise fulfilled, otherwise the promise
    is rejected and the cache stays. *)
Definition login_completes (p : nat) (tok : option string) (w : World)
  : option World :=
  if bool_decide (p ∈ logins w) then
    let ok := match tok with
              | Some s => negb (String.eqb s "")
              | None => false
              end in
    Some {| now := now w;
            cachedToken :=
              match tok with
              | Some s =>
                  if ok then
                    Some {| token := s;
                            token_expiresAt :=
                              (now w + TOKEN_REFRESH_BUFFER_DAYS * 24 * 60 * 60 * 1000)%Z |}
                  else cachedToken w
              | None => cachedToken w
              end;
            tokenRefreshPromise := tokenRefreshPromise w;
            promises := <[p := if ok then Fulfilled else Rejected]> (promises w);
            logins := List.filter (fun q => negb (q =? p)%nat) (logins w);
            tasks := tasks w |}
  else None.

Definition step (e : event) (w : World) : option World :=
  match e with
  | Arrive viaGetAxios =>
      Some {| now := now w; cachedToken := cachedToken w;
              tokenRefreshPromise := tokenRefreshPromise w;
              promises := promises w; logins := logins w;
              tasks := tasks w ++ [if viaGetAxios then AtGetAxios else AtRefreshToken] |}
  | Advance dt =>
      Some {| now := (now w + Z.of_N dt)%Z; cachedToken := cachedToken w;
              tokenRefreshPromise := tokenRefreshPromise w;
              promises := promises w; logins := logins w; tasks := tasks w |}
  | Resume i => resume i w
  | LoginCompletes p tok => login_completes p tok w
  end.

Fixpoint run (events : list event) (w : World) : option World :=
  match events with
  | [] => Some w
  | e :: rest => w' ← step e w; run rest w'
  end.

(** The manager as [getInstance] leaves it, at time [t] with the token
    [tok] in its cache. *)
Definition initial (t : Z) (tok : option CachedToken) : World :=
  {| now := t; cachedToken := tok; tokenRefreshPromise := None;
     promises := []; logins := []; tasks := [] |}.

Definition reachable (w : World) : Prop :=
  ∃ t tok events, run events (initial t tok) = Some w.

End Concurrent.

(** ** The rate limiter of the delivery-estimate route
    ([src/api/store/shiprocket/delivery-estimate/rate-limiter.ts]) *)

Module RateLimiter.

Record RateLimitEntry : Type := {
  count : Z;
  windowStart : Z
}.

Record Limiter : Type := {
  maxRequests : Z;
  windowMs : Z;
  requests : gmap string RateLimitEntry
}.

Definition maxCacheSize : Z := 10000.

(** [new RateLimiter(30, 60 * 1000)]. *)
Definition rateLimiter : Limiter :=
  {| maxRequests := 30; windowMs := 60 * 1000; requests := ∅ |}.

Definition with_requests (m : gmap string RateLimitEntry) (l : Limiter) : Limiter :=
  {| maxRequests := maxRequests l; windowMs := windowMs l; requests := m |}.

(** [now - entry.windowStart > this.windowMs]. *)
Definition expired (l : Limiter) (now : Z) (entry : RateLimitEntry) : bool :=
  (windowMs l <? now - windowStart entry)%Z.

(** [cleanup()], with [now] its reading of the clock. *)
Definition cleanup (now : Z) (l : Limiter) : Limiter :=
  with_requests
    (filter (fun kv => expired l now (snd kv) = false) (requests l)) l.

(** [isAllowed(identifier)]: [swept] is the reading of the clock in the
    forced [cleanup], [now] the reading that follows it. *)
Definition isAllowed (identifier : string) (swept now : Z) (l : Limiter)
  : bool * Limiter :=
  let l := if (maxCacheSize <=? Z.of_nat (size (requests l)))%Z then cleanup swept l else l in
  match requests l !! identifier with
  | None =>
      (true, with_requests
               (<[identifier := {| count := 1; windowStart := now |}]> (requests l)) l)
  | Some entry =>
      if expired l now entry then
        (true, with_requests
                 (<[identifier := {| count := 1; windowStart := now |}]> (requests l)) l)
      else if (maxRequests l <=? count entry)%Z then (false, l)
      else
        (true, with_requests
                 (<[identifier := {| count := count entry + 1;
                                     windowStart := windowStart entry |}]>
                    (requests l)) l)
  end.

(** [getRemaining(identifier)]. *)
Definition getRemaining (identifier : string) (now : Z) (l : Limiter) : Z :=
  match requests l !! identifier with
  | None => maxRequests l
  | Some entry =>
      if expired l now entry then maxRequests l
      else Z.max 0 (maxRequests l - count entry)
  end.

(** [Math.ceil(x / 1000)] on an integer [x]. *)
Definition ceil_div_1000 (x : Z) : Z := - ((- x) / 1000).

(** [getResetTime(identifier)], in seconds. *)
Definition getResetTime (identifier : string) (now : Z) (l : Limiter) : Z :=
  match requests l !! identifier with
  | None => 0
  | Some entry =>
      Z.max 0 (ceil_div_1000 (windowStart entry + windowMs l - now))
  end.

(** One call of [isAllowed]: who asks, and the two readings of the clock. *)
Record call : Type := {
  identifier : string;
  swept_at : Z;
  asked_at : Z
}.

(** What happens to the limiter: a request asks [isAllowed], or the
    timer that the constructor sets runs [cleanup]. *)
Inductive event : Type :=
  | Asks (c : call)
  | Sweeps (now : Z).

(** The events of a trace in order, with the answer to each call. *)
Fixpoint serve (events : list event) (l : Limiter) : list (string * bool) * Limiter :=
  match events with
  | [] => ([], l)
  | Asks c :: rest =>
      let '(answer, l1) := isAllowed (identifier c) (swept_at c) (asked_at c) l in
      let '(answers, l2) := serve rest l1 in
      ((identifier c, answer) :: answers, l2)
  | Sweeps now :: rest => serve rest (cleanup now l)
  end.

End RateLimiter.

(** ** The shipping rate
    ([src/providers/shiprocket/client/index.ts], [calculate], lines 102-127:
    what it does with the couriers of the carrier's answer) *)

Module Rates.
Import Http Manager.
Local Open Scope Q_scope.
Local Open Scope string_scope.

(** An entry of [available_courier_companies] as [calculate] reads it: its
    [id], and [Number(rate)], which is [None] when that is [NaN]. *)
Record Quote : Type := {
  id : Z;
  rate : option Q
}.

(** [a < b] on two results of [Number]: false when either is [NaN]. *)
Definition less (a b : option Q) : bool :=
  match a, b with
  | Some x, Some y => negb (Qle_bool y x)
  | _, _ => false
  end.

(** The callback of [reduce]. *)
Definition cheaper (min curr : Quote) : Quote :=
  if less (rate curr) (rate min) then curr else min.

(** [Math.ceil(r || 0)]. *)
Definition ceil_or_0 (r : option Q) : Z :=
  match r with
  | Some q => Qceiling q
  | None => 0%Z
  end.

(** The couriers left by [allowed_courier_ids]. *)
Definition filtered (allowed_courier_ids : option (list Z))
    (availableCouriers : list Quote) : list Quote :=
  match allowed_courier_ids with
  | Some (i :: ids) =>
      List.filter (fun c => existsb (Z.eqb (id c)) (i :: ids)) availableCouriers
  | _ => availableCouriers
  end.

(** [availableCouriers] is [None] when the answer carries no list. *)
Definition calculate (pickup_postcode delivery_postcode : string)
    (allowed_courier_ids : option (list Z))
    (availableCouriers : option (list Quote)) : Result Z :=
  match availableCouriers with
  | None | Some [] =>
      Throw (MedusaError NOT_FOUND
               ("No couriers available for route " ++ pickup_postcode ++ " -> " ++
                delivery_postcode))
  | Some couriers =>
      match filtered allowed_courier_ids couriers with
      | [] => Throw (MedusaError NOT_FOUND
                       "No allowed couriers available for this route")
      | first :: rest => Ok (ceil_or_0 (rate (foldl cheaper first rest)))
      end
  end.

End Rates.

(** * Properties *)

(** ** Tracking: the upsert and the two paths that feed it *)

Module TrackingFacts.
Import Tracking Webhook.

Lemma lookup_list_to_map_cons (k k' : string) (v : val) (l : list (string * val)) :
  (list_to_map ((k, v) :: l) : obj) !! k' =
  if decide (k = k') then Some v else (list_to_map l : obj) !! k'.
Proof. rewrite list_to_map_cons. apply lookup_insert. Qed.

(** Looks a literal key up in an object literal. *)
Ltac lookup_literal :=
  repeat (rewrite lookup_list_to_map_cons;
          destruct (decide _) as [E|E];
          [first [discriminate E | reflexivity]
          |first [exfalso; apply E; reflexivity | clear E]]).

Lemma lookup_fields (f : string -> val) (l : list string) (k : string) :
  (list_to_map (map (fun k => (k, f k)) l) : obj) !! k =
  if bool_decide (k ∈ l) then Some (f k) else None.
Proof.
  induction l as [|a l IH]; simpl.
  - by rewrite lookup_empty.
  - destruct (decide (a = k)) as [->|Hne].
    + rewrite lookup_insert_eq, bool_decide_eq_true_2; [done|]. by left.
    + rewrite lookup_insert_ne by done. rewrite IH.
      destruct (decide (k ∈ l)) as [Hin|Hout].
      * rewrite !bool_decide_eq_true_2; [done|by right|done].
      * rewrite !bool_decide_eq_false_2; [done| |done].
        intros [Heq|Hin]%elem_of_cons; congruence.
Qed.

Lemma lookup_drop_undefined (o : obj) (k : string) :
  drop_undefined o !! k =
  match o !! k with
  | Some v => if is_undef v then None else Some v
  | None => None
  end.
Proof.
  unfold drop_undefined. rewrite map_lookup_filter.
  destruct (o !! k) as [v|]; simpl; [|done].
  destruct (is_undef v) eqn:E.
  - rewrite option_guard_False; [done|]. simpl. congruence.
  - rewrite option_guard_True; [done|]. done.
Qed.

Lemma lookup_updateData (data : obj) (k : string) :
  updateData data !! k =
  if bool_decide (k ∈ mutable_fields) && negb (is_undef (get data k))
  then Some (get data k) else None.
Proof.
  unfold updateData. rewrite lookup_drop_undefined, lookup_fields.
  destruct (bool_decide (k ∈ mutable_fields)); simpl; [|done].
  by destruct (is_undef (get data k)).
Qed.

Lemma findByAwb_Some (a : val) (t : table) (id : string) (row : obj) :
  findByAwb a t = Some (id, row) → t !! id = Some row ∧ awb_is a row = true.
Proof.
  unfold findByAwb. intros H. apply find_some in H as [Hin Hawb].
  split; [|done]. apply elem_of_map_to_list. by apply list_elem_of_In.
Qed.

Lemma findByAwb_None (a : val) (t : table) (id : string) (row : obj) :
  findByAwb a t = None → t !! id = Some row → awb_is a row = false.
Proof.
  unfold findByAwb. intros H Hrow.
  apply (find_none _ _ H (id, row)).
  apply list_elem_of_In. by apply elem_of_map_to_list.
Qed.

(** C2 (as amended).  [upsertByAwb] creates the row from the fields
    supplied when no row has the waybill.  When a row has it, the returned
    row holds, at every mutable column that the update supplies (is not
    [undefined]), the supplied value, and at every other column (one the
    update leaves out or leaves [undefined], or one outside
    [mutable_fields]) the value the row had. *)
Theorem upsertByAwb_merge (new_id : string) (data : obj) (t : table) :
  match findByAwb (get data "awb") t with
  | None =>
      (∀ id row, t !! id = Some row → awb_is (get data "awb") row = false) ∧
      upsertByAwb new_id data t =
        (Some (new_id, drop_undefined data), <[new_id := drop_undefined data]> t) ∧
      (∀ k v, data !! k = Some v → v ≠ VUndef → drop_undefined data !! k = Some v)
  | Some (id, row) =>
      t !! id = Some row ∧ awb_is (get data "awb") row = true ∧
      ∃ row',
        upsertByAwb new_id data t = (Some (id, row'), <[id := row']> t) ∧
        ∀ k, row' !! k =
             if bool_decide (k ∈ mutable_fields) && negb (is_undef (get data k))
             then Some (get data k)
             else row !! k
  end.
Proof.
  destruct (findByAwb (get data "awb") t) as [[id row]|] eqn:Hfind.
  - destruct (findByAwb_Some _ _ _ _ Hfind) as [Hrow Hawb].
    split; [done|]. split; [done|].
    exists (updateData data ∪ row). split.
    + unfold upsertByAwb, updateShiprocketTrackings.
      rewrite Hfind, Hrow. simpl. by rewrite lookup_insert_eq.
    + intros k. rewrite lookup_union, lookup_updateData.
      destruct (bool_decide (k ∈ mutable_fields) && negb (is_undef (get data k)));
        by destruct (row !! k).
  - split; [|split].
    + intros id row Hrow. by eapply findByAwb_None.
    + unfold upsertByAwb, createShiprocketTrackings. rewrite Hfind. simpl.
      by rewrite lookup_insert_eq.
    + intros k v Hk Hv. rewrite lookup_drop_undefined, Hk.
      destruct v; simpl; congruence.
Qed.

(** The claim as the specification words it: every field the update
    supplies is the value of the returned row at that field. *)
Definition overwrites_every_supplied_field (new_id : string) (data : obj)
    (t : table) : Prop :=
  ∀ id row', fst (upsertByAwb new_id data t) = Some (id, row') →
    ∀ k v, data !! k = Some v → v ≠ VUndef → row' !! k = Some v.

Definition scan_A : val :=
  VObj (list_to_map
    [ ("date", VStr "2026-01-05 10:00:00"); ("status", VStr "PICKED UP");
      ("activity", VStr "Shipment picked up"); ("location", VStr "Delhi") ]).

Definition stored_row : obj :=
  list_to_map
    [ ("awb", VStr "AWB1"); ("courier_name", VStr "Delhivery");
      ("current_status", VStr "Shipped"); ("scans", VList [scan_A]) ].

Definition stored_table : table := {[ "trk_1" := stored_row ]}.

Definition status_only : obj :=
  list_to_map [("awb", VStr "AWB1"); ("current_status", VStr "Delivered")].

Definition with_courier : obj :=
  list_to_map
    [ ("awb", VStr "AWB1"); ("current_status", VStr "Delivered");
      ("courier_name", VStr "BlueDart") ].

Definition returned_field (k : string) (r : option (string * obj) * table)
  : option val :=
  p ← fst r; snd p !! k.

(** The specification's example: scans=[A], then an update with only the
    status. *)
Example upsert_status_only :
  returned_field "scans" (upsertByAwb "trk_2" status_only stored_table)
    = Some (VList [scan_A]) ∧
  returned_field "current_status" (upsertByAwb "trk_2" status_only stored_table)
    = Some (VStr "Delivered").
Proof. split; vm_compute; reflexivity. Qed.

Definition kept_row : obj :=
  list_to_map
    [ ("awb", VStr "AWB1"); ("courier_name", VStr "Delhivery");
      ("current_status", VStr "Delivered"); ("scans", VList [scan_A]) ].

Lemma upsert_with_courier_returns :
  fst (upsertByAwb "trk_2" with_courier stored_table) = Some ("trk_1", kept_row).
Proof. vm_compute. reflexivity. Qed.

(** C2, counterexample: the update supplies [courier_name], and the row
    keeps the courier it had. *)
Lemma upsert_keeps_courier_name :
  ¬ overwrites_every_supplied_field "trk_2" with_courier stored_table.
Proof.
  intros H.
  assert (Hsupplied : with_courier !! "courier_name" = Some (VStr "BlueDart"))
    by (unfold with_courier; lookup_literal).
  assert (Hkept : kept_row !! "courier_name" = Some (VStr "Delhivery"))
    by (unfold kept_row; lookup_literal).
  specialize (H _ _ upsert_with_courier_returns _ _ Hsupplied ltac:(discriminate)).
  rewrite Hkept in H. discriminate H.
Qed.

(** *** Status codes on the two paths *)

Lemma statusMap_label (k label : string) :
  statusMap !! k = Some label → k ≠ "" ∧ k ≠ "0" ∧ label ≠ "".
Proof.
  intros H. apply elem_of_list_to_map_2 in H.
  repeat (apply elem_of_cons in H as [H|H]; [by inversion H|]).
  by apply elem_of_nil in H.
Qed.

Lemma statusMap_at_label (v : val) (label : string) :
  statusMap !! toPropertyKey v = Some label →
  statusMap_at v = VStr label ∧ truthy v = true ∧ truthy (VStr label) = true.
Proof.
  intros H. destruct (statusMap_label _ _ H) as (Hk & Hk0 & Hl).
  unfold statusMap_at. rewrite H. split; [done|]. split.
  - destruct v as [| |[]|n| |s| | |]; simpl in *; try done.
    + destruct (Z.eqb_spec n 0) as [->|]; [|done]. by destruct Hk0.
    + by destruct (String.eqb_spec s "").
  - simpl. by destruct (String.eqb_spec label "").
Qed.

(** The pull path maps every key of the table, whether it arrives as a
    number or as a string. *)
Lemma sync_current_status_label (trackingData : obj) (label : string) :
  statusMap !! toPropertyKey (get trackingData "current_status") = Some label →
  sync_current_status trackingData = VStr label.
Proof.
  intros H. destruct (statusMap_at_label _ _ H) as (Hat & Htr & Hl).
  unfold sync_current_status, js_or. rewrite Htr, Hat. simpl in Hl. simpl.
  by rewrite Hl.
Qed.

Lemma sync_shipment_status_label (trackingData : obj) (label : string) :
  statusMap !! toPropertyKey (get trackingData "shipment_status") = Some label →
  sync_shipment_status trackingData = VStr label.
Proof.
  intros H. destruct (statusMap_at_label _ _ H) as (Hat & Htr & Hl).
  unfold sync_shipment_status, js_or. rewrite Htr, Htr, Hat. simpl in Hl. simpl.
  by rewrite Hl.
Qed.

(** The push path hands both status fields to the upsert as they came. *)
Lemma webhook_data_passes_status (payload data : obj) :
  webhook_data payload = Some data →
  data !! "current_status" = Some (get payload "current_status") ∧
  data !! "shipment_status" = Some (get payload "shipment_status").
Proof.
  unfold webhook_data. intros H.
  repeat (apply bind_Some in H as (? & _ & H)).
  injection H as <-. unfold webhook_fields.
  split; lookup_literal.
Qed.

(** The value a table holds at column [k] of the row of waybill [awb]. *)
Definition stored_field (k awb : string) (t : table) : option val :=
  p ← findByAwb (VStr awb) t; snd p !! k.

(** A pull answer and a push payload that carry the status [code]. *)
Definition pull_answer (code : val) : obj :=
  list_to_map
    [ ("tracking_data",
        VObj (list_to_map
          [ ("track_status", VNum 1); ("current_status", code);
            ("shipment_status", code); ("shipment_status_id", VNum 7) ])) ].

Definition push_payload (code : val) : val :=
  VObj (list_to_map
    [ ("awb", VStr "AWB7"); ("courier_name", VStr "Delhivery");
      ("current_status", code); ("current_status_id", VNum 7);
      ("shipment_status", code); ("shipment_status_id", VNum 7);
      ("current_timestamp", VStr "05 01 2026 10:30:00");
      ("order_id", VStr "order_01-1767608000"); ("sr_order_id", VNum 501);
      ("scans", VList []); ("is_return", VNum 0) ]).

Definition pull_stores (k : string) (code : val) : option val :=
  r ← sync_upsert "trk_1" "AWB7" (pull_answer code) 0 ∅;
  stored_field k "AWB7" (snd r).

Definition push_stores (k : string) (code : val) : option val :=
  let r := POST (Some "secret") (Some "secret") (push_payload code) "trk_1" ∅ in
  if (status_of (fst r) =? 200)%Z then stored_field k "AWB7" (snd r) else None.

(** C1, the code at the failing input: status code 7, as the number or as
    the string, is stored as "Delivered" by the pull path and is stored
    unchanged by the webhook, which answers 200. *)
Theorem status_code_7_pull_and_push :
  pull_stores "current_status" (VNum 7) = Some (VStr "Delivered") ∧
  pull_stores "current_status" (VStr "7") = Some (VStr "Delivered") ∧
  pull_stores "shipment_status" (VNum 7) = Some (VStr "Delivered") ∧
  pull_stores "shipment_status" (VStr "7") = Some (VStr "Delivered") ∧
  push_stores "current_status" (VNum 7) = Some (VNum 7) ∧
  push_stores "current_status" (VStr "7") = Some (VStr "7") ∧
  push_stores "shipment_status" (VNum 7) = Some (VNum 7) ∧
  push_stores "shipment_status" (VStr "7") = Some (VStr "7").
Proof. repeat split; vm_compute; reflexivity. Qed.

End TrackingFacts.

(** ** Courier selection *)
Module SelectionFacts.
Import Selection.

Section FirstMinimum.
Context {A : Type} (cmp : A -> A -> Q) (key : A -> Q).
Hypothesis cmp_key : ∀ x y, Qle_bool (cmp x y) 0 = true ↔ (key x <= key y)%Q.

(** [m] is the first element of [l] with the least key. *)
Definition first_min (m : A) (l : list A) : Prop :=
  ∃ before after, l = (before ++ m :: after)%list ∧
    (∀ c, c ∈ before → (key m < key c)%Q) ∧
    (∀ c, c ∈ after → (key m <= key c)%Q).

Lemma insert_head (x : A) (l : list A) :
  head (insert cmp x l) =
  match l with
  | [] => Some x
  | y :: _ => if Qle_bool (cmp x y) 0 then Some x else Some y
  end.
Proof. destruct l as [|y l]; simpl; [done|]. by destruct (Qle_bool (cmp x y) 0). Qed.

Lemma sort_head (l : list A) :
  l ≠ [] → ∃ m, head (sort cmp l) = Some m ∧ first_min m l.
Proof.
  induction l as [|x l IH]; [done|]. intros _. simpl. rewrite insert_head.
  destruct l as [|y l'].
  - simpl. exists x. split; [done|]. exists [], [].
    split; [done|]. split; intros c Hc; by apply elem_of_nil in Hc.
  - destruct IH as (m & Hm & before & after & Hl & Hb & Ha); [done|].
    destruct (sort cmp (y :: l')) as [|z rest] eqn:Hs; [done|].
    simpl in Hm. injection Hm as ->.
    destruct (Qle_bool (cmp x m) 0) eqn:Hc.
    + exists x. split; [done|]. exists [], (y :: l').
      split; [done|]. split; [intros c Hin; by apply elem_of_nil in Hin|].
      apply cmp_key in Hc. intros c Hin. rewrite Hl in Hin.
      apply elem_of_app in Hin as [Hin|Hin].
      * apply Hb in Hin. lra.
      * apply elem_of_cons in Hin as [->|Hin]; [done|]. apply Ha in Hin. lra.
    + exists m. split; [done|]. exists (x :: before), after.
      split; [by rewrite Hl|]. split; [|done].
      intros c [->|Hin]%elem_of_cons; [|by apply Hb].
      destruct (Qlt_le_dec (key m) (key x)) as [|Hle]; [done|].
      apply cmp_key in Hle. congruence.
Qed.
End FirstMinimum.

Lemma by_rate_key (x y : Courier) :
  Qle_bool (by_rate x y) 0 = true ↔ (rate x <= rate y)%Q.
Proof. unfold by_rate. rewrite Qle_bool_iff. split; intros; lra. Qed.

Lemma by_days_key (x y : Courier) :
  Qle_bool (by_days x y) 0 = true ↔
  (inject_Z (days_or_99 x) <= inject_Z (days_or_99 y))%Q.
Proof.
  unfold by_days. rewrite Qle_bool_iff, <- Zle_Qle.
  change 0%Q with (inject_Z 0). rewrite <- Zle_Qle. lia.
Qed.

Definition key_of (deliveryPreference : string) (c : Courier) : Q :=
  if String.eqb deliveryPreference "CHEAP" then rate c
  else inject_Z (days_or_99 c).

(** C3 (as amended).  From a list that is not empty the courier selected
    is the first one with the least key: the rate under "CHEAP", and
    otherwise the delivery days read by [parseInt], with 99 in place of a
    value that does not parse or parses to 0.  Couriers before it in the
    list have a greater key, couriers after it have no smaller one.  A
    courier whose days do not parse is therefore passed over whenever some
    courier has days between 1 and 98. *)
Theorem selectCourier_first_minimum (deliveryPreference : string)
    (couriers : list Courier) :
  couriers ≠ [] →
  ∃ before sel after,
    couriers = (before ++ sel :: after)%list ∧
    selectCourier deliveryPreference couriers = Some sel ∧
    (if String.eqb deliveryPreference "CHEAP" then
       (∀ c, c ∈ before → (rate sel < rate c)%Q) ∧
       (∀ c, c ∈ after → (rate sel <= rate c)%Q)
     else
       (∀ c, c ∈ before → (days_or_99 sel < days_or_99 c)%Z) ∧
       (∀ c, c ∈ after → (days_or_99 sel <= days_or_99 c)%Z) ∧
       (∀ c d, c ∈ couriers → parseInt (estimated_delivery_days c) = Some d →
          (0 < d < 99)%Z →
          ∃ d', parseInt (estimated_delivery_days sel) = Some d' ∧
                d' ≠ 0%Z ∧ (d' <= d)%Z)).
Proof.
  intros Hne. unfold selectCourier.
  destruct (String.eqb deliveryPreference "CHEAP").
  - destruct (sort_head by_rate rate by_rate_key couriers Hne)
      as (sel & Hsel & before & after & Hl & Hb & Ha).
    by exists before, sel, after.
  - destruct (sort_head by_days (fun c => inject_Z (days_or_99 c)) by_days_key
                couriers Hne)
      as (sel & Hsel & before & after & Hl & Hb & Ha).
    exists before, sel, after. split; [done|]. split; [done|].
    assert (Hb' : ∀ c, c ∈ before → (days_or_99 sel < days_or_99 c)%Z).
    { intros c Hc. rewrite Zlt_Qlt. by apply Hb. }
    assert (Ha' : ∀ c, c ∈ after → (days_or_99 sel <= days_or_99 c)%Z).
    { intros c Hc. rewrite Zle_Qle. by apply Ha. }
    split; [done|]. split; [done|].
    intros c d Hc Hd Hrange.
    assert (Hle : (days_or_99 sel <= days_or_99 c)%Z).
    { rewrite Hl in Hc. apply elem_of_app in Hc as [Hc|Hc].
      - apply Hb' in Hc. lia.
      - apply elem_of_cons in Hc as [->|Hc]; [lia|by apply Ha']. }
    unfold days_or_99 in Hle. rewrite Hd in Hle.
    destruct (Z.eqb_spec d 0) as [->|_]; [lia|].
    destruct (parseInt (estimated_delivery_days sel)) as [d2|] eqn:Hp; [|lia].
    destruct (Z.eqb_spec d2 0) as [->|Hd2]; [lia|].
    by exists d2.
Qed.

Definition courier (name days : string) (r : Q) : Courier :=
  {| courier_name := name; courier_company_id := 1; etd := "";
     estimated_delivery_days := days; rate := r; is_surface := false |}.

Lemma selectCourier_first_minimum_witness :
  ∃ before sel after,
    [courier "A" "3" 50; courier "B" "1" 30; courier "C" "2" 40]
      = (before ++ sel :: after)%list ∧
    selectCourier "CHEAP" [courier "A" "3" 50; courier "B" "1" 30; courier "C" "2" 40]
      = Some sel ∧
    (∀ c, c ∈ before → (rate sel < rate c)%Q) ∧
    (∀ c, c ∈ after → (rate sel <= rate c)%Q).
Proof.
  apply (selectCourier_first_minimum "CHEAP"
           [courier "A" "3" 50; courier "B" "1" 30; courier "C" "2" 40]).
  discriminate.
Defined.

(** As the specification words it for "fastest": when some courier has
    parsable days, the selected one has the least parsed days. *)
Definition unparsable_sort_last (couriers : list Courier) : Prop :=
  ∀ sel, selectCourier "FAST" couriers = Some sel →
    ∀ c d, c ∈ couriers → parseInt (estimated_delivery_days c) = Some d →
      ∃ d', parseInt (estimated_delivery_days sel) = Some d' ∧ (d' <= d)%Z.

(** C3, counterexample: days that do not parse count as 99 and so come
    before a courier of 120 days. *)
Lemma unparsable_before_long_delivery :
  ¬ unparsable_sort_last [courier "A" "N/A" 50; courier "B" "120" 30].
Proof.
  intros H.
  destruct (H (courier "A" "N/A" 50) eq_refl (courier "B" "120" 30) 120%Z)
    as (d' & Hd' & _); [set_solver|reflexivity|discriminate Hd'].
Qed.

(** The specification's examples. *)
Example fastest_example :
  selectCourier "FAST" [courier "A" "3" 50; courier "B" "1" 30; courier "C" "2" 40]
    = Some (courier "B" "1" 30).
Proof. reflexivity. Qed.

Example cheapest_example :
  selectCourier "CHEAP" [courier "A" "3" 50; courier "B" "1" 30; courier "C" "2" 40]
    = Some (courier "B" "1" 30).
Proof. reflexivity. Qed.

End SelectionFacts.

(** ** The estimate cache *)
Module ManagerFacts.
Import Http Selection Manager.

Section Estimates.
Context (numToString : float -> string) (carrier : Carrier)
        (email password deliveryPreference : string).

Local Abbreviation getDeliveryEstimate :=
  (getDeliveryEstimate numToString carrier email password deliveryPreference).
Local Abbreviation cacheKey := (Manager.cacheKey numToString).
Local Abbreviation send := (Manager.send carrier).
Local Abbreviation request := (Manager.request carrier email password).
Local Abbreviation doRefreshToken := (Manager.doRefreshToken carrier email password).
Local Abbreviation fetch_estimate := (Manager.fetch_estimate carrier email password deliveryPreference).

(** An optional number that [||] replaces by the default: it is absent,
    or it is zero (of either sign) or NaN. *)
Definition falsy (x : option float) : Prop := nonzero x = None.

Lemma number_or_falsy (x : option float) (d : float) :
  falsy x → number_or x d = d.
Proof.
  unfold falsy, nonzero, number_or. destruct x as [q|]; [|done].
  by destruct (number_truthy q).
Qed.

Lemma ensureToken_valid (st : State) :
  isTokenValid st = true → ensureToken carrier email password st = (Ok tt, st).
Proof. unfold ensureToken. by intros ->. Qed.

Lemma map_get_delete {V : Type} (k : string) (m : list (string * V)) :
  map_get k (map_delete k m) = None.
Proof.
  unfold map_get, map_delete. induction m as [|[k' v] m IH]; [done|]. simpl.
  destruct (String.eqb_spec k' k) as [->|Hne]; simpl; [done|].
  by destruct (String.eqb_spec k' k).
Qed.

Lemma cacheKey_nonempty (data : EstimateRequest) : cacheKey data ≠ "".
Proof. unfold Manager.cacheKey. by destruct (pickup_postcode data). Qed.

(** *** What the operations do to the list of requests sent *)

Lemma send_sent (r : Request) (st : State) :
  sent (snd (send r st)) = (sent st ++ [r])%list.
Proof. unfold Manager.send. by destruct (carrier (sent st) (clock st) r). Qed.

Lemma doRefreshToken_sent (st : State) :
  sent (snd (doRefreshToken st)) = (sent st ++ [Login email password])%list.
Proof.
  unfold Manager.doRefreshToken, try_catch, bind.
  pose proof (send_sent (Login email password) st) as Hs.
  destruct (send (Login email password) st) as [[body|e] st1]; simpl in Hs.
  - destruct body as [[tok|]| | | |]; simpl; try done.
    destruct (String.eqb tok ""); simpl; done.
  - by destruct (is_MedusaError e).
Qed.

Lemma request_sent (r : Request) (st : State) :
  ∃ more, sent (snd (request r st)) = (sent st ++ r :: more)%list.
Proof.
  unfold Manager.request, try_catch.
  pose proof (send_sent r st) as Hs.
  destruct (send r st) as [[body|e] st1]; simpl in Hs.
  - by exists [].
  - destruct (status_is e 401 && negb (is_login r)); [|by exists []].
    unfold bind, refreshToken.
    pose proof (doRefreshToken_sent st1) as Hr.
    destruct (doRefreshToken st1) as [[[]|e'] st2]; simpl in Hr.
    + pose proof (send_sent r st2) as Hs2.
      destruct (send r st2) as [res st3]; simpl in *.
      exists [Login email password; r].
      rewrite Hs2, Hr, Hs. by rewrite <- !app_assoc.
    + simpl. exists [Login email password]. rewrite Hr, Hs.
      by rewrite <- !app_assoc.
Qed.

Lemma fetch_estimate_sent (data : EstimateRequest) (key : string) (w c : float)
    (st : State) :
  ∃ more,
    sent (snd (fetch_estimate data key w c st)) =
    (sent st ++ GetServiceability (pickup_postcode data)
                  (delivery_postcode data) w c :: more)%list.
Proof.
  unfold Manager.fetch_estimate, try_catch, bind.
  destruct (request_sent (GetServiceability (pickup_postcode data)
                            (delivery_postcode data) w c) st) as [more Hr].
  exists more.
  destruct (request _ st) as [[body|e] st1]; simpl in Hr.
  - destruct (match body with CouriersBody l => l | _ => [] end) as [|x l];
      simpl; [done|].
    destruct (selectCourier deliveryPreference (x :: l)); simpl; done.
  - by destruct (is_MedusaError e).
Qed.

Ltac only_these :=
  repeat first [apply List.Forall_nil | apply List.Forall_cons];
  first [by left | by right].

(** The requests of a call through the shared instance are the request
    itself and the login. *)
Lemma request_sent_only (r : Request) (st : State) :
  ∃ more, sent (snd (request r st)) = (sent st ++ more)%list ∧
          Forall (fun x => x = Login email password ∨ x = r) more.
Proof.
  unfold Manager.request, try_catch.
  pose proof (send_sent r st) as Hs.
  destruct (send r st) as [[body|e] st1]; simpl in Hs.
  - exists [r]. split; [done|]. only_these.
  - destruct (status_is e 401 && negb (is_login r)).
    + unfold bind, refreshToken.
      pose proof (doRefreshToken_sent st1) as Hr.
      destruct (doRefreshToken st1) as [[[]|e'] st2]; simpl in Hr.
      * exists [r; Login email password; r]. split.
        -- rewrite (send_sent r st2), Hr, Hs. by rewrite <- !app_assoc.
        -- only_these.
      * exists [r; Login email password]. split.
        -- simpl. rewrite Hr, Hs. by rewrite <- !app_assoc.
        -- only_these.
    + exists [r]. split; [done|]. only_these.
Qed.

Lemma fetch_estimate_sent_only (data : EstimateRequest) (key : string)
    (w c : float) (st : State) :
  ∃ more,
    sent (snd (fetch_estimate data key w c st)) = (sent st ++ more)%list ∧
    Forall (fun x => x = Login email password ∨
                     x = GetServiceability (pickup_postcode data)
                           (delivery_postcode data) w c) more.
Proof.
  unfold Manager.fetch_estimate, try_catch, bind.
  destruct (request_sent_only (GetServiceability (pickup_postcode data)
                                 (delivery_postcode data) w c) st)
    as (more & Hr & Hall).
  exists more. split; [|done].
  destruct (request _ st) as [[body|e] st1]; simpl in Hr.
  - destruct (match body with CouriersBody l => l | _ => [] end) as [|x l];
      simpl; [done|].
    destruct (selectCourier deliveryPreference (x :: l)); simpl; done.
  - by destruct (is_MedusaError e).
Qed.

(** Whatever [getDeliveryEstimate] sends is a login or the request for
    the route with the weight and the COD flag after their defaults. *)
Lemma getDeliveryEstimate_sent_only (data : EstimateRequest) (st : State) :
  ∃ more,
    sent (snd (getDeliveryEstimate data st)) = (sent st ++ more)%list ∧
    Forall (fun x => x = Login email password ∨
                     x = GetServiceability (pickup_postcode data)
                           (delivery_postcode data)
                           (number_or (weight data) 0.5%float)
                           (number_or (cod data) 0%float)) more.
Proof.
  unfold Manager.getDeliveryEstimate, bind, Manager.ensureToken, refreshToken, read.
  assert (Hfetch : ∀ st1 pre,
    sent st1 = (sent st ++ pre)%list →
    Forall (fun x => x = Login email password ∨
                     x = GetServiceability (pickup_postcode data)
                           (delivery_postcode data)
                           (number_or (weight data) 0.5%float)
                           (number_or (cod data) 0%float)) pre →
    ∃ more,
      sent (snd (fetch_estimate data (cacheKey data)
                   (number_or (weight data) 0.5%float)
                   (number_or (cod data) 0%float)
                   (with_cache (evict_oldest (deliveryEstimateCache st1)) st1)))
        = (sent st ++ more)%list ∧
      Forall (fun x => x = Login email password ∨
                       x = GetServiceability (pickup_postcode data)
                             (delivery_postcode data)
                             (number_or (weight data) 0.5%float)
                             (number_or (cod data) 0%float)) more).
  { intros st1 pre Hpre Hall.
    destruct (fetch_estimate_sent_only data (cacheKey data)
                (number_or (weight data) 0.5%float)
                (number_or (cod data) 0%float)
                (with_cache (evict_oldest (deliveryEstimateCache st1)) st1))
      as (more & Hm & Hmore).
    exists (pre ++ more)%list. split.
    - rewrite Hm. simpl. rewrite Hpre. by rewrite <- app_assoc.
    - by apply Forall_app. }
  assert (Hrest : ∀ st1 pre,
    sent st1 = (sent st ++ pre)%list →
    Forall (fun x => x = Login email password ∨
                     x = GetServiceability (pickup_postcode data)
                           (delivery_postcode data)
                           (number_or (weight data) 0.5%float)
                           (number_or (cod data) 0%float)) pre →
    ∃ more,
      sent (snd
        (match
           map_get (cacheKey data)
             (deliveryEstimateCache
                (with_cache (evict_oldest (deliveryEstimateCache st1)) st1))
         with
         | Some cached =>
             if (clock (with_cache (evict_oldest (deliveryEstimateCache st1)) st1)
                 <? expiresAt cached)%Z
             then ret (response cached)
             else fetch_estimate data (cacheKey data)
                    (number_or (weight data) 0.5%float)
                    (number_or (cod data) 0%float)
         | None => fetch_estimate data (cacheKey data)
                     (number_or (weight data) 0.5%float)
                     (number_or (cod data) 0%float)
         end (with_cache (evict_oldest (deliveryEstimateCache st1)) st1)))
        = (sent st ++ more)%list ∧
      Forall (fun x => x = Login email password ∨
                       x = GetServiceability (pickup_postcode data)
                             (delivery_postcode data)
                             (number_or (weight data) 0.5%float)
                             (number_or (cod data) 0%float)) more).
  { intros st1 pre Hpre Hall.
    destruct (map_get _ _) as [cached|]; [|by apply (Hfetch st1 pre)].
    destruct (_ <? _)%Z; [|by apply (Hfetch st1 pre)].
    exists pre. by split. }
  destruct (isTokenValid st).
  - apply (Hrest st []); [by rewrite app_nil_r|only_these].
  - pose proof (doRefreshToken_sent st) as Hr.
    destruct (doRefreshToken st) as [[[]|e] st1]; simpl in Hr.
    + apply (Hrest st1 [Login email password]); [done|]. only_these.
    + exists [Login email password]. split; [done|]. only_these.
Qed.

(** A weight and a COD flag that are set and truthy are what the key
    is formed with. *)
Lemma cacheKey_given (pickup delivery : string) (w c : float) :
  number_truthy w = true → number_truthy c = true →
  cacheKey {| pickup_postcode := pickup; delivery_postcode := delivery;
              weight := Some w; cod := Some c |}
  = pickup ++ "-" ++ delivery ++ "-" ++ numToString w ++ "-" ++ numToString c.
Proof. intros Hw Hc. unfold Manager.cacheKey, number_or. simpl. by rewrite Hw, Hc. Qed.

(** C10.  When the weight is absent or falsy (zero, NaN) and the COD
    flag is absent or falsy, the cache key is the one formed with 0.5 and
    0, which is the key of the request that passes 0.5 and 0;
    [getDeliveryEstimate] does the same on both, result and state after;
    and every request for rates that the call sends carries the weight 0.5
    and the COD flag 0. *)
Theorem getDeliveryEstimate_defaults (pickup delivery : string)
    (w c : option float) (st : State) :
  falsy w → falsy c →
  let omitted :=
    {| pickup_postcode := pickup; delivery_postcode := delivery;
       weight := w; cod := c |} in
  let explicit :=
    {| pickup_postcode := pickup; delivery_postcode := delivery;
       weight := Some 0.5%float; cod := Some 0%float |} in
  cacheKey omitted =
    pickup ++ "-" ++ delivery ++ "-" ++ numToString 0.5%float ++ "-" ++
    numToString 0%float ∧
  cacheKey explicit = cacheKey omitted ∧
  getDeliveryEstimate omitted st = getDeliveryEstimate explicit st ∧
  ∃ more,
    sent (snd (getDeliveryEstimate omitted st)) = (sent st ++ more)%list ∧
    Forall (fun r => r = Login email password ∨
                     r = GetServiceability pickup delivery 0.5%float 0%float) more.
Proof.
  intros Hw Hc omitted explicit.
  assert (Hw' : number_or (weight omitted) 0.5%float = 0.5%float)
    by apply (number_or_falsy _ _ Hw).
  assert (Hc' : number_or (cod omitted) 0%float = 0%float)
    by apply (number_or_falsy _ _ Hc).
  assert (Hk : cacheKey omitted =
               pickup ++ "-" ++ delivery ++ "-" ++ numToString 0.5%float ++ "-" ++
               numToString 0%float).
  { unfold Manager.cacheKey. by rewrite Hw', Hc'. }
  split; [done|]. split; [by rewrite Hk|]. split.
  - unfold Manager.getDeliveryEstimate, Manager.fetch_estimate.
    rewrite Hw', Hc', Hk. reflexivity.
  - destruct (getDeliveryEstimate_sent_only omitted st) as (more & Hm & Hall).
    exists more. split; [done|]. by rewrite Hw', Hc' in Hall.
Qed.

(** *** The cache on a hit and on a miss *)

Lemma evict_oldest_room (cache : list (string * CachedDeliveryEstimate)) :
  (List.length cache < maxCacheSize)%nat → evict_oldest cache = cache.
Proof.
  intros H. unfold evict_oldest.
  destruct (Nat.leb_spec maxCacheSize (List.length cache)); [lia|done].
Qed.

Lemma evict_oldest_full (key : string) (e : CachedDeliveryEstimate)
    (rest : list (string * CachedDeliveryEstimate)) :
  key ≠ "" → (maxCacheSize <= List.length ((key, e) :: rest))%nat →
  evict_oldest ((key, e) :: rest) = map_delete key ((key, e) :: rest).
Proof.
  intros Hk H. unfold evict_oldest.
  destruct (Nat.leb_spec maxCacheSize (List.length ((key, e) :: rest))); [|lia].
  by destruct (String.eqb_spec key "").
Qed.


Lemma getDeliveryEstimate_miss (data : EstimateRequest) (st : State) :
  isTokenValid st = true →
  map_get (cacheKey data) (evict_oldest (deliveryEstimateCache st)) = None →
  getDeliveryEstimate data st =
    fetch_estimate data (cacheKey data)
      (number_or (weight data) 0.5%float) (number_or (cod data) 0%float)
      (with_cache (evict_oldest (deliveryEstimateCache st)) st).
Proof.
  intros Hv Hget. unfold Manager.getDeliveryEstimate, bind.
  rewrite ensureToken_valid by done. unfold read. simpl. by rewrite Hget.
Qed.

(** A call whose key is the oldest of a full cache deletes that entry
    before it looks the key up, and so asks the carrier. *)
Lemma full_cache_evicts_requested_key (data : EstimateRequest) (st : State)
    (e : CachedDeliveryEstimate)
    (rest : list (string * CachedDeliveryEstimate)) :
  isTokenValid st = true →
  deliveryEstimateCache st = (cacheKey data, e) :: rest →
  (maxCacheSize <= List.length (deliveryEstimateCache st))%nat →
  ∃ more,
    sent (snd (getDeliveryEstimate data st)) =
    (sent st ++ GetServiceability (pickup_postcode data) (delivery_postcode data)
                  (number_or (weight data) 0.5%float) (number_or (cod data) 0%float)
                :: more)%list.
Proof.
  intros Hv Hc Hfull.
  rewrite getDeliveryEstimate_miss; [|done|].
  - destruct (fetch_estimate_sent data (cacheKey data)
                (number_or (weight data) 0.5%float) (number_or (cod data) 0%float)
                (with_cache (evict_oldest (deliveryEstimateCache st)) st))
      as [more Hmore].
    by exists more.
  - rewrite Hc in *. rewrite evict_oldest_full; [|apply cacheKey_nonempty|done].
    apply map_get_delete.
Qed.

End Estimates.

(** *** A cache filled to its capacity *)


Lemma string_app_length (s t : string) :
  String.length (s ++ t) = (String.length s + String.length t)%nat.
Proof. induction s as [|c s IH]; simpl; [done|]. by rewrite IH. Qed.

Lemma string_app_inv_tail (a b t : string) : a ++ t = b ++ t → a = b.
Proof.
  revert b. induction a as [|c a IH]; intros [|d b] H.
  - done.
  - apply (f_equal String.length) in H.
    rewrite !string_app_length in H. simpl in H. lia.
  - apply (f_equal String.length) in H.
    rewrite !string_app_length in H. simpl in H. lia.
  - simpl in H. injection H as -> H. f_equal. by apply IH.
Qed.

Lemma map_get_app_None {V : Type} (k : string) (m1 m2 : list (string * V)) :
  map_get k m1 = None → map_get k (m1 ++ m2)%list = map_get k m2.
Proof.
  unfold map_get. induction m1 as [|[k' v] m1 IH]; simpl; [done|].
  destruct (String.eqb k' k); simpl; [done|]. apply IH.
Qed.

Lemma map_set_absent {V : Type} (k : string) (v : V) (m : list (string * V)) :
  map_get k m = None → map_set k v m = (m ++ [(k, v)])%list.
Proof.
  unfold map_get. induction m as [|[k' v'] m IH]; simpl; [done|].
  destruct (String.eqb k' k); simpl; [done|]. intros H. by rewrite IH.
Qed.

Section FullCache.
Context (numToString : float -> string).

(** A carrier that serves no route and answers at once. *)
Definition quiet : Carrier := fun _ _ _ => Replied (CouriersBody []) 0.

Local Abbreviation getDeliveryEstimate :=
  (Manager.getDeliveryEstimate numToString quiet "merchant@example.com" "secret" "FAST").
Local Abbreviation cacheKey := (Manager.cacheKey numToString).

Definition route (i : nat) : EstimateRequest :=
  {| pickup_postcode := "110001";
     delivery_postcode := pretty (400000 + Z.of_nat i)%Z;
     weight := None; cod := None |}.

Definition logged_in : State :=
  {| clock := 0;
     cachedToken := Some {| token := "token"; token_expiresAt := 691200000 |};
     deliveryEstimateCache := []; sent := [] |}.

(** The calls of [routes], one after the other. *)
Fixpoint estimates (routes : list EstimateRequest) (st : State) : State :=
  match routes with
  | [] => st
  | r :: rest => estimates rest (snd (getDeliveryEstimate r st))
  end.

Definition cached_at (t : Z) (r : EstimateRequest)
  : string * CachedDeliveryEstimate :=
  (cacheKey r,
   {| response := not_serviceable "FAST";
      expiresAt := (t + DELIVERY_ESTIMATE_CACHE_HOURS * 60 * 60 * 1000)%Z |}).

Lemma route_key_inj (i j : nat) : cacheKey (route i) = cacheKey (route j) → i = j.
Proof.
  unfold Manager.cacheKey, route.
  cbn [pickup_postcode delivery_postcode weight cod]. intros H.
  apply (inj (String.app "110001")) in H.
  apply (inj (String.app "-")) in H.
  apply string_app_inv_tail in H.
  apply (inj pretty) in H. lia.
Qed.

Lemma quiet_miss (r : EstimateRequest) (st : State) :
  isTokenValid st = true →
  map_get (cacheKey r) (deliveryEstimateCache st) = None →
  (List.length (deliveryEstimateCache st) < maxCacheSize)%nat →
  let st' := snd (getDeliveryEstimate r st) in
  deliveryEstimateCache st' =
    (deliveryEstimateCache st ++ [cached_at (clock st) r])%list ∧
  clock st' = clock st ∧ cachedToken st' = cachedToken st.
Proof.
  intros Hv Hget Hroom st'. subst st'.
  rewrite getDeliveryEstimate_miss; [|done|by rewrite evict_oldest_room].
  rewrite evict_oldest_room by done.
  unfold fetch_estimate, try_catch, bind, request, send, quiet, cache_put.
  simpl. rewrite map_set_absent by done.
  rewrite Z.add_0_r. done.
Qed.

Lemma estimates_fill (routes : list EstimateRequest) (st : State) :
  isTokenValid st = true →
  NoDup (map cacheKey routes) →
  (∀ r, r ∈ routes → map_get (cacheKey r) (deliveryEstimateCache st) = None) →
  (List.length (deliveryEstimateCache st) + List.length routes <= maxCacheSize)%nat →
  let st' := estimates routes st in
  deliveryEstimateCache st' =
    (deliveryEstimateCache st ++ map (cached_at (clock st)) routes)%list ∧
  clock st' = clock st ∧ cachedToken st' = cachedToken st.
Proof.
  revert st. induction routes as [|r routes IH]; intros st Hv Hnd Habs Hlen;
    cbv zeta in *.
  - simpl. by rewrite app_nil_r.
  - simpl in Hlen. apply NoDup_cons in Hnd as [Hr Hnd].
    destruct (quiet_miss r st Hv) as (Hc1 & Hk1 & Ht1);
      [apply Habs; by left|lia|].
    set (st1 := snd (getDeliveryEstimate r st)) in *.
    assert (Hv1 : isTokenValid st1 = true).
    { unfold isTokenValid in *. by rewrite Ht1, Hk1. }
    destruct (IH st1 Hv1 Hnd) as (Hc & Hk & Ht).
    + intros r' Hr'. rewrite Hc1, map_get_app_None by (apply Habs; by right).
      unfold map_get. simpl.
      destruct (String.eqb_spec (cacheKey r) (cacheKey r')) as [Heq|]; [|done].
      destruct Hr. rewrite Heq. apply list_elem_of_fmap. by exists r'.
    + rewrite Hc1, length_app. simpl. lia.
    + change (estimates (r :: routes) st) with (estimates routes st1).
      rewrite Hc, Hk, Ht, Hc1, Hk1, Ht1. rewrite <- app_assoc. done.
Qed.

(** C4, the code at the failing input: a thousand estimates for a
    thousand routes fill the cache; the entry of the first route is in
    the cache and has not expired; the next call for the first route
    asks the carrier again. *)
Theorem full_cache_refetches_oldest_key :
  let st := estimates (map route (seq 0 1000)) logged_in in
  List.length (deliveryEstimateCache st) = maxCacheSize ∧
  (∃ e, map_get (cacheKey (route 0)) (deliveryEstimateCache st) = Some e ∧
        (clock st < expiresAt e)%Z) ∧
  ∃ more,
    sent (snd (getDeliveryEstimate (route 0) st)) =
    (sent st ++ GetServiceability "110001" (pretty 400000%Z) 0.5%float 0%float :: more)%list.
Proof.
  intros st.
  assert (Hfill :
    deliveryEstimateCache st =
      cached_at 0 (route 0) :: map (cached_at 0) (map route (seq 1 999)) ∧
    clock st = 0%Z ∧
    cachedToken st = Some {| token := "token"; token_expiresAt := 691200000 |}).
  { destruct (estimates_fill (map route (seq 0 1000)) logged_in)
      as (Hc & Hk & Ht).
    - reflexivity.
    - rewrite <- list_fmap_compose. apply NoDup_fmap_2; [|apply NoDup_seq].
      intros i j. apply route_key_inj.
    - done.
    - rewrite length_map, length_seq. reflexivity.
    - exact (conj Hc (conj Hk Ht)). }
  clearbody st. destruct Hfill as (Hc & Hk & Ht).
  assert (Hlen : List.length (deliveryEstimateCache st) = maxCacheSize).
  { rewrite Hc. cbn [List.length]. rewrite !length_map, length_seq. reflexivity. }
  split; [done|]. split.
  - eexists. split.
    + rewrite Hc. unfold map_get, cached_at. cbn [List.find fst snd].
      rewrite String.eqb_refl. reflexivity.
    + rewrite Hk. reflexivity.
  - apply (full_cache_evicts_requested_key numToString quiet
             "merchant@example.com" "secret" "FAST" (route 0) st
             (snd (cached_at 0 (route 0)))
             (map (cached_at 0) (map route (seq 1 999)))).
    + unfold isTokenValid. rewrite Ht, Hk. reflexivity.
    + exact Hc.
    + rewrite Hlen. reflexivity.
Qed.

End FullCache.

(** A printer of the numbers that occur in the examples. *)
Definition show_number (x : float) : string :=
  if (x =? 0.5)%float then "0.5"
  else if (x =? 1)%float then "1"
  else if (x =? 0)%float then "0"
  else "?".

Lemma getDeliveryEstimate_defaults_witness :
  let omitted :=
    {| pickup_postcode := "110001"; delivery_postcode := "400001";
       weight := Some 0%float; cod := None |} in
  let explicit :=
    {| pickup_postcode := "110001"; delivery_postcode := "400001";
       weight := Some 0.5%float; cod := Some 0%float |} in
  cacheKey show_number omitted = "110001-400001-0.5-0" ∧
  cacheKey show_number explicit = cacheKey show_number omitted ∧
  getDeliveryEstimate show_number quiet "merchant@example.com" "secret" "FAST"
    omitted logged_in
  = getDeliveryEstimate show_number quiet "merchant@example.com" "secret" "FAST"
      explicit logged_in ∧
  ∃ more,
    sent (snd (getDeliveryEstimate show_number quiet "merchant@example.com"
                 "secret" "FAST" omitted logged_in))
      = (sent logged_in ++ more)%list ∧
    Forall (fun r => r = Login "merchant@example.com" "secret" ∨
                     r = GetServiceability "110001" "400001" 0.5%float 0%float)
      more.
Proof.
  apply (getDeliveryEstimate_defaults show_number quiet "merchant@example.com"
           "secret" "FAST" "110001" "400001" (Some 0%float) None logged_in);
    reflexivity.
Defined.

(** The call that passes 0.5 and 0 is served from the entry that the
    call without weight and COD flag has left: no second request. *)
Example explicit_call_hits_entry_of_omitted_call :
  let omitted :=
    {| pickup_postcode := "110001"; delivery_postcode := "400001";
       weight := None; cod := None |} in
  let explicit :=
    {| pickup_postcode := "110001"; delivery_postcode := "400001";
       weight := Some 0.5%float; cod := Some 0%float |} in
  let first := getDeliveryEstimate show_number quiet "merchant@example.com"
                 "secret" "FAST" omitted logged_in in
  let second := getDeliveryEstimate show_number quiet "merchant@example.com"
                  "secret" "FAST" explicit (snd first) in
  fst second = fst first ∧ sent (snd second) = sent (snd first) ∧
  sent (snd first) = [GetServiceability "110001" "400001" 0.5%float 0%float].
Proof. vm_compute. repeat split; reflexivity. Qed.

Example omitted_call_asks_with_defaults :
  sent (snd (getDeliveryEstimate show_number quiet "merchant@example.com" "secret"
               "FAST"
               {| pickup_postcode := "110001"; delivery_postcode := "400001";
                  weight := None; cod := Some PrimFloat.nan |} logged_in))
  = [GetServiceability "110001" "400001" 0.5%float 0%float].
Proof. vm_compute. reflexivity. Qed.

End ManagerFacts.

(** ** Numbers: the order of doubles

    The comparisons of [float] are specified on [spec_float] by the
    library ([ltb_spec], [leb_spec]); the order is read there on the sign,
    the exponent and the mantissa. *)

Module NumberFacts.

Ltac compare_cases :=
  repeat match goal with
         | H : context [(?a ?= ?b)%Z] |- _ => destruct (Z.compare_spec a b)
         | |- context [(?a ?= ?b)%Z] => destruct (Z.compare_spec a b)
         | H : context [Pos.compare_cont Eq ?a ?b] |- _ =>
             change (Pos.compare_cont Eq a b) with (Pos.compare a b) in *;
             destruct (Pos.compare_spec a b)
         | |- context [Pos.compare_cont Eq ?a ?b] =>
             change (Pos.compare_cont Eq a b) with (Pos.compare a b) in *;
             destruct (Pos.compare_spec a b)
         end;
  simpl in *; try congruence; try lia.

Lemma SFleb_refl (a : spec_float) : a ≠ S754_nan → SFleb a a = true.
Proof.
  unfold SFleb. destruct a as [s|s| |s m e]; simpl; try done.
  - by destruct s.
  - intros _. destruct s; compare_cases.
Qed.

Lemma SFleb_trans (a b c : spec_float) :
  SFleb a b = true → SFleb b c = true → SFleb a c = true.
Proof.
  unfold SFleb.
  destruct a as [s|s| |s m e], b as [s'|s'| |s' m' e'], c as [s''|s''| |s'' m'' e''];
    simpl; try done;
    repeat match goal with s : bool |- _ => destruct s end; simpl; try done;
    intros; compare_cases.
Qed.

Lemma SFltb_leb (a b : spec_float) : SFltb a b = true → SFleb a b = true.
Proof. unfold SFltb, SFleb. by destruct (SFcompare a b) as [[]|]. Qed.

Lemma SFltb_false (a b : spec_float) :
  a ≠ S754_nan → b ≠ S754_nan → SFltb a b = false → SFleb b a = true.
Proof.
  unfold SFltb, SFleb.
  destruct a as [s|s| |s m e], b as [s'|s'| |s' m' e']; simpl; try done;
    repeat match goal with s : bool |- _ => destruct s end; simpl; try done;
    intros; compare_cases.
Qed.

Lemma Prim2SF_not_nan (x : float) :
  PrimFloat.is_nan x = false → Prim2SF x ≠ S754_nan.
Proof.
  intros H. unfold Prim2SF. rewrite H.
  destruct (PrimFloat.is_zero x); [done|].
  destruct (is_infinity x); [done|].
  destruct (Z.frexp x) as [r exp].
  destruct (shr_fexp _ _ _ _ _) as [shr e'].
  by destruct (shr_m shr).
Qed.

Lemma leb_refl (x : float) : PrimFloat.is_nan x = false → (x <=? x)%float = true.
Proof. intros H. rewrite leb_spec. by apply SFleb_refl, Prim2SF_not_nan. Qed.

Lemma leb_trans (x y z : float) :
  (x <=? y)%float = true → (y <=? z)%float = true → (x <=? z)%float = true.
Proof. rewrite !leb_spec. apply SFleb_trans. Qed.

Lemma ltb_leb (x y : float) : (x <? y)%float = true → (x <=? y)%float = true.
Proof. rewrite ltb_spec, leb_spec. apply SFltb_leb. Qed.

Lemma ltb_false (x y : float) :
  PrimFloat.is_nan x = false → PrimFloat.is_nan y = false →
  (x <? y)%float = false → (y <=? x)%float = true.
Proof.
  intros Hx Hy. rewrite ltb_spec, leb_spec.
  apply SFltb_false; by apply Prim2SF_not_nan.
Qed.

Lemma number_truthy_spec (x : float) :
  number_truthy x = true → PrimFloat.is_zero x = false ∧ PrimFloat.is_nan x = false.
Proof. unfold number_truthy. by destruct (PrimFloat.is_zero x), (PrimFloat.is_nan x). Qed.

(** [Math.max] of a number and a number that is not zero. *)
Lemma Math_max_nonzero (a b : float) :
  PrimFloat.is_nan a = false → number_truthy b = true →
  Math_max a b = if (a <? b)%float then b else a.
Proof.
  intros Ha [Hz Hn]%number_truthy_spec. unfold Math_max. by rewrite Ha, Hn, Hz.
Qed.

Lemma Math_max_spec (a b : float) :
  PrimFloat.is_nan a = false → number_truthy b = true →
  PrimFloat.is_nan (Math_max a b) = false ∧
  (a <=? Math_max a b)%float = true ∧ (b <=? Math_max a b)%float = true ∧
  (Math_max a b = a ∨ Math_max a b = b).
Proof.
  intros Ha Hb. rewrite Math_max_nonzero by done.
  destruct (number_truthy_spec b Hb) as [_ Hn].
  destruct (a <? b)%float eqn:Hlt.
  - split; [done|]. split; [by apply ltb_leb|]. split; [by apply leb_refl|by right].
  - split; [done|]. split; [by apply leb_refl|]. split; [by apply ltb_false|by left].
Qed.

End NumberFacts.

(** ** Shipment creation and cancellation *)
Module ClientFacts.
Import Http Manager Validation Client ManagerFacts NumberFacts.

Lemma string_app_cons (c : ascii) (a s : string) :
  String c a ++ s = String c (a ++ s).
Proof. reflexivity. Qed.

Lemma string_app_nil (s : string) : "" ++ s = s.
Proof. reflexivity. Qed.

Lemma string_app_nil_r (s : string) : s ++ "" = s.
Proof. induction s as [|c s IH]; [done|]. by rewrite string_app_cons, IH. Qed.

Lemma is_prefix_app (p s : string) : is_prefix p (p ++ s) = true.
Proof.
  induction p as [|c p IH]; [done|].
  rewrite string_app_cons. simpl. by rewrite Ascii.eqb_refl, IH.
Qed.

Lemma includes_prefix (s p : string) : is_prefix p s = true → includes s p = true.
Proof. intros H. destruct s; simpl in *; by rewrite H. Qed.

Lemma includes_app (a p b : string) : includes (a ++ p ++ b) p = true.
Proof.
  induction a as [|c a IH].
  - rewrite string_app_nil. apply includes_prefix, is_prefix_app.
  - rewrite string_app_cons. simpl. rewrite IH. apply orb_true_r.
Qed.

(** Both the variant's and the product's value are missing or falsy
    (zero, NaN). *)
Definition absent (a b : option float) : Prop := nonzero a = None ∧ nonzero b = None.

Lemma nonzero_Some (x : option float) (q : float) :
  nonzero x = Some q → number_truthy q = true.
Proof.
  destruct x as [q'|]; simpl; [|done].
  destruct (number_truthy q') eqn:E; [|done]. by intros [= <-].
Qed.

Lemma first_truthy_falsy (a b : option float) :
  number_truthy (first_truthy a b 0) = false ↔ absent a b.
Proof.
  unfold first_truthy, absent.
  destruct (nonzero a) as [q|] eqn:Ha.
  - apply nonzero_Some in Ha. split; [congruence|by intros [? _]].
  - destruct (nonzero b) as [q|] eqn:Hb.
    + apply nonzero_Some in Hb. split; [congruence|by intros [_ ?]].
    + done.
Qed.

(** A weight that is missing gives no weight in kilograms. *)
Lemma weight_absent (v : Order.Variant) :
  absent (Order.v_weight v) (Order.product v ≫= Order.p_weight) →
  number_truthy (weightGrams v / 1000) = false.
Proof. unfold weightGrams, first_truthy. by intros [-> ->]. Qed.

Lemma weight_present (v : Order.Variant) :
  number_truthy (weightGrams v / 1000) = true →
  ¬ absent (Order.v_weight v) (Order.product v ≫= Order.p_weight).
Proof. intros H Habs. apply weight_absent in Habs. congruence. Qed.

(** The variant [create] reads for a fulfillment item. *)
Definition variant_of (order : Order.HostOrder) (item : Order.FulfillmentItem)
  : option Order.Variant :=
  orderItemMap order !! Order.line_item_id item ≫= Order.variant.

(** The data of a fulfillment item is insufficient: no order line, no
    variant, or a weight, length, width or height that is missing or zero
    on the variant and on its product. *)
Definition insufficient (order : Order.HostOrder) (item : Order.FulfillmentItem)
  : Prop :=
  match orderItemMap order !! Order.line_item_id item with
  | None => True
  | Some orderItem =>
      match Order.variant orderItem with
      | None => True
      | Some v =>
          absent (Order.v_weight v) (Order.product v ≫= Order.p_weight) ∨
          absent (Order.v_length v) (Order.product v ≫= Order.p_length) ∨
          absent (Order.v_width v) (Order.product v ≫= Order.p_width) ∨
          absent (Order.v_height v) (Order.product v ≫= Order.p_height)
      end
  end.

(** The weight in grams is set, and a thousandth of it rounds to zero:
    the weight in kilograms is missing although the weight is not. *)
Definition weight_vanishes (order : Order.HostOrder)
    (item : Order.FulfillmentItem) : Prop :=
  ∃ v, variant_of order item = Some v ∧
       number_truthy (weightGrams v) = true ∧
       number_truthy (weightGrams v / 1000) = false.

Lemma checked_variant_spec (order : Order.HostOrder) (item : Order.FulfillmentItem) :
  match checked_variant (orderItemMap order) item with
  | Ok v =>
      ¬ insufficient order item ∧ variant_of order item = Some v ∧
      number_truthy (length_of v) = true ∧ number_truthy (breadth_of v) = true
  | Throw e =>
      (insufficient order item ∨ weight_vanishes order item) ∧
      ∃ msg, e = MedusaError INVALID_DATA msg ∧
             includes msg (Order.title item) = true
  end.
Proof.
  unfold checked_variant, insufficient, weight_vanishes, variant_of.
  destruct (orderItemMap order !! Order.line_item_id item) as [orderItem|]; simpl.
  - destruct (Order.variant orderItem) as [v|] eqn:Hv.
    + pose proof (first_truthy_falsy (Order.v_weight v) (Order.product v ≫= Order.p_weight)) as Hg.
      pose proof (first_truthy_falsy (Order.v_length v) (Order.product v ≫= Order.p_length)) as Hl.
      pose proof (first_truthy_falsy (Order.v_width v) (Order.product v ≫= Order.p_width)) as Hb.
      pose proof (first_truthy_falsy (Order.v_height v) (Order.product v ≫= Order.p_height)) as Hh.
      fold (weightGrams v) in Hg. fold (length_of v) in Hl.
      fold (breadth_of v) in Hb. fold (height_of v) in Hh.
      destruct (number_truthy (weightGrams v / 1000)) eqn:Ew; simpl.
      2:{ split; [|eexists; split; [done|];
                   apply (includes_app ("Missing dimensions/weight for " ++ quote))].
          destruct (number_truthy (weightGrams v)) eqn:Eg.
          - right. by exists v.
          - left. left. by apply Hg. }
      destruct (number_truthy (length_of v)) eqn:El; simpl.
      2:{ split; [left; right; left; by apply Hl|]. eexists. split; [done|].
          apply (includes_app ("Missing dimensions/weight for " ++ quote)). }
      destruct (number_truthy (breadth_of v)) eqn:Eb; simpl.
      2:{ split; [left; right; right; left; by apply Hb|]. eexists. split; [done|].
          apply (includes_app ("Missing dimensions/weight for " ++ quote)). }
      destruct (number_truthy (height_of v)) eqn:Eh; simpl.
      2:{ split; [left; right; right; right; by apply Hh|]. eexists. split; [done|].
          apply (includes_app ("Missing dimensions/weight for " ++ quote)). }
      split; [|done].
      intros [H|[H|[H|H]]].
      * by apply weight_present in Ew.
      * apply Hl in H. congruence.
      * apply Hb in H. congruence.
      * apply Hh in H. congruence.
    + split; [by left|]. eexists. split; [done|].
      rewrite <- (string_app_nil_r (Order.title item)) at 1.
      apply (includes_app "Variant data missing for item: " _ "").
  - split; [by left|]. eexists. split; [done|].
    rewrite <- (string_app_nil_r (Order.title item)) at 1.
    apply (includes_app "Order item not found for fulfillment item: " _ "").
Qed.

Lemma add_items_rejects (order : Order.HostOrder)
    (items : list Order.FulfillmentItem) (acc : Totals) :
  (∃ item, item ∈ items ∧ insufficient order item) →
  ∃ item msg, item ∈ items ∧
    (insufficient order item ∨ weight_vanishes order item) ∧
    add_items (orderItemMap order) items acc = Throw (MedusaError INVALID_DATA msg) ∧
    includes msg (Order.title item) = true.
Proof.
  revert acc. induction items as [|item items IH]; intros acc (bad & Hin & Hbad).
  - by apply elem_of_nil in Hin.
  - simpl. pose proof (checked_variant_spec order item) as Hspec.
    destruct (checked_variant (orderItemMap order) item) as [v|e]; simpl.
    + destruct Hspec as [Hok _].
      apply elem_of_cons in Hin as [->|Hin]; [done|].
      match goal with
      | |- context [add_items _ items ?a] =>
          destruct (IH a (ex_intro _ bad (conj Hin Hbad)))
            as (it & msg & Hit & ? & ? & ?)
      end.
      exists it, msg. split; [by right|done].
    + destruct Hspec as (Hins & msg & -> & Hmsg).
      exists item, msg. split; [by left|done].
Qed.

Section Create.
Context (numToString : float -> string) (carrier : Carrier)
        (email password deliveryPreference : string)
        (pickup_location : option string) (isDisposed : bool).

(** When [create] is given an order, and some fulfillment item has no
    order line, no variant, or a weight, length, width or height that is
    missing or zero on the variant and on its product, [create] throws an
    INVALID_DATA error whose message contains the title of an item that
    the validation rejects (an item with such data, or one whose weight in
    kilograms rounds to zero), and the state after is the state before:
    nothing was sent. *)
Theorem create_rejects_insufficient_items
    (fulfillment : option Order.Fulfillment)
    (items : list Order.FulfillmentItem) (order : Order.HostOrder)
    (st : State) :
  (∃ item, item ∈ items ∧ insufficient order item) →
  ∃ item msg, item ∈ items ∧
    (insufficient order item ∨ weight_vanishes order item) ∧
    create numToString carrier email password deliveryPreference
      pickup_location isDisposed fulfillment items (Some order) st
      = (Throw (MedusaError INVALID_DATA msg), st) ∧
    includes msg (Order.title item) = true.
Proof.
  intros Hbad.
  destruct (add_items_rejects order items zero_totals Hbad)
    as (item & msg & Hin & Hins & Hadd & Hmsg).
  exists item, msg. split; [done|]. split; [done|]. split; [|done].
  unfold create, try_catch, bind, read, lift, build_orderData, rbind.
  by rewrite Hadd.
Qed.

(** Without an order, [create] rejects with the [TypeError] of reading
    [order.items]; the state after is the state before. *)
Lemma create_without_order (fulfillment : option Order.Fulfillment)
    (items : list Order.FulfillmentItem) (st : State) :
  create numToString carrier email password deliveryPreference
    pickup_location isDisposed fulfillment items None st
  = (Throw (TypeError "Cannot read properties of undefined (reading 'items')"),
     st).
Proof. reflexivity. Qed.
End Create.

Definition per_item (f : Order.Variant -> float) (order : Order.HostOrder)
    (item : Order.FulfillmentItem) : float :=
  match variant_of order item with
  | Some v => f v
  | None => 0
  end.

(** The sum of the numbers of [l] as a loop forms it: from 0, one
    addition for each number, in the order of the list. *)
Definition running_sum (l : list float) : float := foldl PrimFloat.add 0%float l.

(** The weight in kilograms times the quantity, and the height times the
    quantity, of a fulfillment item. *)
Definition item_weight (order : Order.HostOrder) (item : Order.FulfillmentItem)
  : float :=
  (per_item weightGrams order item / 1000 * quantity_of item)%float.
Definition item_height (order : Order.HostOrder) (item : Order.FulfillmentItem)
  : float :=
  (per_item height_of order item * quantity_of item)%float.

(** [L] is the greatest of 0 and the numbers of [l]. *)
Definition floor_max (L : float) (l : list float) : Prop :=
  (0 <=? L)%float = true ∧ (∀ x, x ∈ l → (x <=? L)%float = true) ∧
  (L = 0%float ∨ L ∈ l).

(** [L] is the greatest of the numbers of [l]. *)
Definition greatest (L : float) (l : list float) : Prop :=
  (∀ x, x ∈ l → (x <=? L)%float = true) ∧ L ∈ l.

Lemma rbind_Ok {A B : Type} (m : Result A) (k : A -> Result B) (b : B) :
  rbind m k = Ok b → ∃ a, m = Ok a ∧ k a = Ok b.
Proof. destruct m as [a|e]; simpl; [|done]. intros H. by exists a. Qed.

(** What the loop leaves in a maximum: it is not NaN, it is not below
    what it was, nor below a number of [l], and it is what it was or a
    number of [l]. *)
Definition raised (before after : float) (l : list float) : Prop :=
  PrimFloat.is_nan after = false ∧ (before <=? after)%float = true ∧
  (∀ x, x ∈ l → (x <=? after)%float = true) ∧ (after = before ∨ after ∈ l).

Lemma raised_nil (a : float) : PrimFloat.is_nan a = false → raised a a [].
Proof.
  intros Ha. split; [done|]. split; [by apply leb_refl|].
  split; [|by left]. intros x Hx. by apply elem_of_nil in Hx.
Qed.

Lemma raised_cons (a b c : float) (l : list float) :
  PrimFloat.is_nan a = false → number_truthy b = true →
  raised (Math_max a b) c l → raised a c (b :: l).
Proof.
  intros Ha Hb (Hc & Hle & Hall & Hin).
  destruct (Math_max_spec a b Ha Hb) as (_ & Hma & Hmb & Hm).
  split; [done|]. split; [by apply (leb_trans _ (Math_max a b))|]. split.
  - intros x [->|Hx]%elem_of_cons; [by apply (leb_trans _ (Math_max a b))|by apply Hall].
  - destruct Hin as [->|Hin]; [|right; by right].
    destruct Hm as [->| ->]; [by left|right; by left].
Qed.

Lemma add_items_totals (order : Order.HostOrder)
    (items : list Order.FulfillmentItem) (acc t : Totals) :
  add_items (orderItemMap order) items acc = Ok t →
  PrimFloat.is_nan (totalLength acc) = false →
  PrimFloat.is_nan (totalBreadth acc) = false →
  totalWeight t = foldl PrimFloat.add (totalWeight acc) (map (item_weight order) items) ∧
  totalHeight t = foldl PrimFloat.add (totalHeight acc) (map (item_height order) items) ∧
  raised (totalLength acc) (totalLength t) (map (per_item length_of order) items) ∧
  raised (totalBreadth acc) (totalBreadth t) (map (per_item breadth_of order) items).
Proof.
  revert acc. induction items as [|item items IH]; intros acc H Hl Hb.
  - simpl in H. injection H as <-. simpl.
    split; [done|]. split; [done|]. split; by apply raised_nil.
  - simpl in H. apply rbind_Ok in H as (v & Hv & H).
    pose proof (checked_variant_spec order item) as Hspec. rewrite Hv in Hspec.
    destruct Hspec as (_ & Hvar & Hlen & Hbr).
    assert (Hper : ∀ f, per_item f order item = f v).
    { intros f. unfold per_item. by rewrite Hvar. }
    destruct (Math_max_spec _ _ Hl Hlen) as (Hl' & _).
    destruct (Math_max_spec _ _ Hb Hbr) as (Hb' & _).
    apply IH in H as (Hw & Hh & Hrl & Hrb); [|done|done].
    simpl in Hw, Hh, Hrl, Hrb. simpl. unfold item_weight, item_height.
    rewrite !Hper. split; [done|]. split; [done|].
    split; by apply raised_cons.
Qed.

(** C6 (as amended).  In the payload of an order that passes validation,
    the weight is the sum over the items of (grams / 1000) x quantity and
    the height is the sum of height x quantity, both formed in the order
    of the items, from 0, in double-precision arithmetic; the length and
    the breadth are the greatest of 0 and the items' lengths and widths;
    the quantity is the item's, else its raw quantity, else 1. *)
Theorem build_orderData_aggregates (now : Z) (pickup_location : option string)
    (fulfillment : option Order.Fulfillment)
    (items : list Order.FulfillmentItem) (order : Order.HostOrder)
    (orderData : Order.OrderData) :
  build_orderData now pickup_location fulfillment items order = Ok orderData →
  Order.weight orderData = running_sum (map (item_weight order) items) ∧
  Order.height orderData = running_sum (map (item_height order) items) ∧
  floor_max (Order.length orderData) (map (per_item length_of order) items) ∧
  floor_max (Order.breadth orderData) (map (per_item breadth_of order) items).
Proof.
  unfold build_orderData. intros H.
  apply rbind_Ok in H as (t & Ht & H).
  repeat (apply rbind_Ok in H as (? & _ & H)).
  injection H as <-. simpl.
  apply add_items_totals in Ht as (Hw & Hh & Hl & Hb); [|done|done].
  simpl in *. unfold floor_max, running_sum.
  split; [done|]. split; [done|].
  destruct Hl as (_ & ? & ? & ?), Hb as (_ & ? & ? & ?). done.
Qed.

(** *** A concrete order *)

Definition variant_with (w l b h : option float) : Order.Variant :=
  {| Order.v_weight := w; Order.v_length := l; Order.v_width := b;
     Order.v_height := h; Order.v_sku := Some "SKU"; Order.hs_code := None;
     Order.product := None |}.

Definition line (id : string) (v : Order.Variant) : Order.OrderItem :=
  {| Order.oi_id := id; Order.variant := Some v; Order.unit_price := Some 499%float;
     Order.detail_unit_price := None; Order.variant_sku := None |}.

Definition fulfil (id title : string) (q : float) : Order.FulfillmentItem :=
  {| Order.fi_id := "fi_" ++ id; Order.line_item_id := id; Order.title := title;
     Order.fi_sku := None; Order.quantity := Some q;
     Order.raw_quantity_value := None |}.

Definition home : Order.Party :=
  {| Order.first_name := Some "Asha"; Order.last_name := Some "Rao";
     Order.address_1 := Some "12 MG Road"; Order.address_2 := None;
     Order.city := Some "Bengaluru"; Order.postal_code := Some "560001";
     Order.zip := None; Order.province := Some "Karnataka";
     Order.country_code := Some "IN"; Order.phone := Some "98765 43210";
     Order.email := Some "asha@example.com" |}.

Definition order_of (lines : list Order.OrderItem) : Order.HostOrder :=
  {| Order.id := "order_01";
     Order.created_at :=
       {| Order.date := 5; Order.month := 0; Order.fullYear := 2026;
          Order.hours := 9; Order.minutes := 30 |};
     Order.items := Some lines;
     Order.shipping_address := Some home; Order.billing_address := Some home;
     Order.customer := None; Order.order_email := None;
     Order.payment_status := Some "captured" |}.

(** Two items of 200 g and 300 g, quantities 1 and 2. *)
Definition two_lines : list Order.OrderItem :=
  [ line "li_1" (variant_with (Some 200) (Some 10) (Some 8) (Some 2))%float;
    line "li_2" (variant_with (Some 300) (Some 12) (Some 6) (Some 3))%float ].
Definition two_items : list Order.FulfillmentItem :=
  [ fulfil "li_1" "Shirt" 1; fulfil "li_2" "Jeans" 2 ].

Definition metrics (r : Result Order.OrderData)
  : option (float * float * float * float) :=
  match r with
  | Ok d => Some (Order.weight d, Order.length d, Order.breadth d, Order.height d)
  | Throw _ => None
  end.

(** The specification's example: 0.8 kg. *)
Example two_items_payload :
  metrics (build_orderData 1767605400000 None None two_items (order_of two_lines))
  = Some (4 / 5, 12, 8, 8)%float.
Proof. vm_compute. reflexivity. Qed.

(** Three pieces of 100 g: the sum is the double above 0.3. *)
Example three_pieces_payload :
  metrics (build_orderData 1767605400000 None None [fulfil "li_1" "Shirt" 3]
             (order_of [line "li_1"
                          (variant_with (Some 100) (Some 10) (Some 8) (Some 2))%float]))
  = Some (PrimFloat.next_up (3 / 10), 10, 8, 6)%float.
Proof. vm_compute. reflexivity. Qed.

Lemma build_orderData_aggregates_witness :
  ∃ orderData,
    build_orderData 1767605400000 None None two_items (order_of two_lines)
      = Ok orderData ∧
    Order.weight orderData
      = running_sum (map (item_weight (order_of two_lines)) two_items) ∧
    Order.height orderData
      = running_sum (map (item_height (order_of two_lines)) two_items) ∧
    floor_max (Order.length orderData)
      (map (per_item length_of (order_of two_lines)) two_items) ∧
    floor_max (Order.breadth orderData)
      (map (per_item breadth_of (order_of two_lines)) two_items).
Proof.
  destruct (build_orderData 1767605400000 None None two_items (order_of two_lines))
    as [orderData|e] eqn:Hbuild.
  - exists orderData. split; [reflexivity|].
    exact (build_orderData_aggregates _ _ _ _ _ _ Hbuild).
  - exfalso. vm_compute in Hbuild. discriminate Hbuild.
Defined.

(** An order whose only item has a negative length. *)
Definition odd_lines : list Order.OrderItem :=
  [ line "li_1" (variant_with (Some 200) (Some (-5)) (Some 8) (Some 2))%float ].
Definition odd_items : list Order.FulfillmentItem := [ fulfil "li_1" "Shirt" 1 ].

Lemma odd_items_payload :
  metrics (build_orderData 1767605400000 None None odd_items (order_of odd_lines))
  = Some (1 / 5, 0, 8, 2)%float.
Proof. vm_compute. reflexivity. Qed.

Lemma odd_items_lengths :
  map (per_item length_of (order_of odd_lines)) odd_items = [(-5)%float].
Proof. vm_compute. reflexivity. Qed.

(** C6, counterexample: the item passes validation with length -5; the
    payload's length is 0, which is the length of no item. *)
Lemma negative_length_is_floored :
  ¬ (∀ orderData,
       build_orderData 1767605400000 None None odd_items (order_of odd_lines)
         = Ok orderData →
       greatest (Order.length orderData)
         (map (per_item length_of (order_of odd_lines)) odd_items)).
Proof.
  intros H. pose proof odd_items_payload as Hrun.
  destruct (build_orderData 1767605400000 None None odd_items (order_of odd_lines))
    as [orderData|e]; [|discriminate Hrun].
  destruct (H orderData eq_refl) as (_ & Hin).
  rewrite odd_items_lengths in Hin. apply list_elem_of_singleton in Hin.
  assert (Hlen : Order.length orderData = 0%float) by (simpl in Hrun; congruence).
  rewrite Hlen in Hin.
  apply (f_equal (fun x => (x <? 0)%float)) in Hin. discriminate Hin.
Qed.

(** The specification's example: weight, length and width are set, the
    height is not. *)
Definition flat_lines : list Order.OrderItem :=
  [ line "li_1" (variant_with (Some 200) (Some 10) (Some 8) None)%float ].
Definition flat_items : list Order.FulfillmentItem := [ fulfil "li_1" "Poster" 1 ].

Definition silent : Carrier := fun _ _ _ => Replied (OtherBody JNull) 0.

Definition idle : State :=
  {| clock := 1767605400000;
     cachedToken := Some {| token := "token"; token_expiresAt := 1768296600000 |};
     deliveryEstimateCache := []; sent := [] |}.

Lemma create_rejects_insufficient_items_witness :
  ∃ item msg, item ∈ flat_items ∧
    (insufficient (order_of flat_lines) item ∨
     weight_vanishes (order_of flat_lines) item) ∧
    create show_number silent "merchant@example.com" "secret" "FAST" None false
      None flat_items (Some (order_of flat_lines)) idle
      = (Throw (MedusaError INVALID_DATA msg), idle) ∧
    includes msg (Order.title item) = true.
Proof.
  apply create_rejects_insufficient_items.
  exists (fulfil "li_1" "Poster" 1). split; [by left|].
  vm_compute. right; right; right. split; reflexivity.
Defined.

Example poster_is_named :
  fst (create show_number silent "merchant@example.com" "secret" "FAST" None false
         None flat_items (Some (order_of flat_lines)) idle)
  = Throw (MedusaError INVALID_DATA
      ("Missing dimensions/weight for " ++ quote ++ "Poster" ++ quote ++
       ". Please set them on the Variant.")).
Proof. vm_compute. reflexivity. Qed.

(** A weight of the least positive double: the item has a weight, and
    validation rejects it as missing. *)
Example vanishing_weight_is_rejected :
  let tiny := PrimFloat.next_up 0 in
  number_truthy tiny = true ∧
  build_orderData 1767605400000 None None [fulfil "li_1" "Feather" 1]
    (order_of [line "li_1"
                 (variant_with (Some tiny) (Some 10) (Some 8) (Some 2))%float])
  = Throw (MedusaError INVALID_DATA
      ("Missing dimensions/weight for " ++ quote ++ "Feather" ++ quote ++
       ". Please set them on the Variant.")).
Proof. vm_compute. split; reflexivity. Qed.

(** C5, the code at the failing input: [create] is called without an
    order.  The item has no order line; what [create] throws is not a
    validation error but a [TypeError], its message does not name the item,
    and nothing is sent. *)
Theorem create_without_order_names_no_item :
  let item := fulfil "li_1" "Poster" 1 in
  ∃ msg,
    create show_number silent "merchant@example.com" "secret" "FAST" None false
      None [item] None idle
    = (Throw (TypeError msg), idle) ∧
    includes msg (Order.title item) = false.
Proof.
  eexists. split; [apply create_without_order|]. vm_compute. reflexivity.
Qed.

(** *** Cancellation *)

Lemma handleError_typed (error : exn) (operation : string) :
  ∃ ty msg, HandleError.handleError error operation = MedusaError ty msg.
Proof.
  unfold HandleError.handleError.
  repeat match goal with
         | |- context [if ?c then MedusaError _ _ else _] => destruct c
         end; eauto.
Qed.

(** What the body of a rejection says, as [cancel] reads it. *)
Definition mentions (apiError : json) (phrase : string) : bool :=
  includes (toLowerCase (stringify apiError)) phrase.

Section Cancel.
Context (carrier : Carrier) (email password : string) (isDisposed : bool).

(** C7 (as amended).  When the request of [cancel] is rejected with a
    response body, [cancel] returns normally if the body mentions "already
    cancelled" or "already canceled" (under any status) or if the status is
    400 and the body mentions "cannot cancel"; otherwise it throws a
    [MedusaError]. *)
Theorem cancel_outcome (orderId : string) (st st' : State) (error : exn)
    (apiError : json) :
  post carrier email password isDisposed (CancelOrders [orderId]) st
    = (Throw error, st') →
  response_data error = Some apiError →
  if mentions apiError "already cancelled" || mentions apiError "already canceled"
     || (status_is error 400 && mentions apiError "cannot cancel")
  then cancel carrier email password isDisposed orderId st = (Ok tt, st')
  else ∃ ty msg,
         cancel carrier email password isDisposed orderId st
           = (Throw (MedusaError ty msg), st').
Proof.
  intros Hpost Hdata. unfold cancel, try_catch, bind. rewrite Hpost, Hdata.
  unfold mentions.
  destruct (includes (toLowerCase (stringify apiError)) "already cancelled"
            || includes (toLowerCase (stringify apiError)) "already canceled"
            || status_is error 400
               && includes (toLowerCase (stringify apiError)) "cannot cancel").
  - reflexivity.
  - destruct (handleError_typed error "cancel") as (ty & msg & ->).
    by exists ty, msg.
Qed.

Lemma cancel_success (orderId : string) (st st' : State) (body : Body) :
  post carrier email password isDisposed (CancelOrders [orderId]) st
    = (Ok body, st') →
  cancel carrier email password isDisposed orderId st = (Ok tt, st').
Proof. intros H. unfold cancel, try_catch, bind. by rewrite H. Qed.

End Cancel.

(** A carrier that rejects every request with the given status and
    message. *)
Definition rejecting (status : Z) (message : string) : Carrier :=
  fun _ _ _ =>
    Failed (Some (status, JObj [("message", JStr message)])) None
      ("Request failed with status code " ++ pretty status) 0.

Definition asked (r : Request) (st : State) : State :=
  with_sent (sent st ++ [r]) st.

Lemma cancel_outcome_witness :
  cancel (rejecting 400 "Order already cancelled") "merchant@example.com" "secret"
    false "order_01" idle
  = (Ok tt, asked (CancelOrders ["order_01"]) idle).
Proof.
  apply (cancel_outcome (rejecting 400 "Order already cancelled")
           "merchant@example.com" "secret" false "order_01" idle
           (asked (CancelOrders ["order_01"]) idle)
           (AxiosError (Some (400%Z, JObj [("message", JStr "Order already cancelled")]))
              None "Request failed with status code 400")
           (JObj [("message", JStr "Order already cancelled")])).
  - vm_compute. reflexivity.
  - reflexivity.
Defined.

(** C7, counterexample: "cannot cancel" under status 422 is an error. *)
Lemma cannot_cancel_422_throws :
  fst (cancel (rejecting 422 "Cannot cancel order") "merchant@example.com" "secret"
         false "order_01" idle)
  = Throw (MedusaError INVALID_DATA "[cancel] Cannot cancel order").
Proof. vm_compute. reflexivity. Qed.

End ClientFacts.

(** ** Token refresh: one login at a time *)
Module ConcurrentFacts.
Import Manager Concurrent.

(** What every reachable world satisfies. *)
Record invariant (w : World) : Prop := {
  inv_login_slot :
    ∀ p, p ∈ logins w →
      tokenRefreshPromise w = Some p ∧ promises w !! p = Some Pending;
  inv_one_login : (List.length (logins w) <= 1)%nat;
  inv_owner_slot :
    ∀ i p, tasks w !! i = Some (AwaitOwn p) → tokenRefreshPromise w = Some p;
  inv_one_owner :
    ∀ i j p q, tasks w !! i = Some (AwaitOwn p) →
      tasks w !! j = Some (AwaitOwn q) → i = j
}.

Lemma invariant_initial (t : Z) (tok : option CachedToken) :
  invariant (initial t tok).
Proof.
  split; simpl.
  - intros p Hp. by apply elem_of_nil in Hp.
  - lia.
  - intros i p H. by rewrite lookup_nil in H.
  - intros i j p q H. by rewrite lookup_nil in H.
Qed.

Lemma no_login_without_slot (w : World) :
  invariant w → tokenRefreshPromise w = None → logins w = [].
Proof.
  intros Hinv Hnone. destruct (logins w) as [|p l] eqn:Hl; [done|].
  destruct (inv_login_slot w Hinv p) as [Hp _]; [rewrite Hl; by left|].
  congruence.
Qed.

Lemma lookup_set_other (i j : nat) (c c' : pc) (l : list pc) :
  (<[i := c]> l) !! j = Some c' → c' ≠ c → l !! j = Some c' ∧ j ≠ i.
Proof.
  intros H Hne. destruct (decide (i = j)) as [->|Hij].
  - destruct (decide (j < List.length l)%nat) as [Hlt|Hge].
    + rewrite list_lookup_insert_eq in H by done. congruence.
    + rewrite list_insert_ge in H by lia. apply lookup_lt_Some in H. lia.
  - rewrite list_lookup_insert_ne in H by done. split; [done|congruence].
Qed.

Lemma invariant_set_task (i : nat) (c : pc) (w : World) :
  invariant w → (∀ p, c ≠ AwaitOwn p) → invariant (set_task i c w).
Proof.
  intros [H1 H2 H3 H4] Hc. split; simpl; [done|done| |].
  - intros j p Hj. apply lookup_set_other in Hj as [Hj _]; [|apply not_eq_sym, Hc].
    by eapply H3.
  - intros j k p q Hj Hk.
    apply lookup_set_other in Hj as [Hj _]; [|apply not_eq_sym, Hc].
    apply lookup_set_other in Hk as [Hk _]; [|apply not_eq_sym, Hc].
    by eapply H4.
Qed.

Lemma invariant_enter_refreshToken (i : nat) (w : World) :
  invariant w → (i < List.length (tasks w))%nat →
  invariant (enter_refreshToken i w).
Proof.
  intros Hinv Hi. unfold enter_refreshToken.
  destruct (tokenRefreshPromise w) as [p|] eqn:Hslot.
  - by apply invariant_set_task.
  - pose proof (no_login_without_slot w Hinv Hslot) as Hno.
    destruct Hinv as [H1 H2 H3 H4].
    assert (Hnone : ∀ j q, tasks w !! j = Some (AwaitOwn q) → False).
    { intros j q Hj. apply H3 in Hj. congruence. }
    split; simpl.
    + rewrite Hno. intros p ->%list_elem_of_singleton. split; [done|].
      by rewrite lookup_app_r, Nat.sub_diag.
    + rewrite Hno. simpl. lia.
    + intros j q Hj. destruct (decide (j = i)) as [->|Hij].
      * rewrite list_lookup_insert_eq in Hj by done. congruence.
      * rewrite list_lookup_insert_ne in Hj by congruence.
        by destruct (Hnone j q).
    + intros j k p q Hj Hk.
      destruct (decide (j = i)) as [->|Hij]; destruct (decide (k = i)) as [->|Hik];
        try done.
      * rewrite list_lookup_insert_ne in Hk by congruence.
        by destruct (Hnone k q).
      * rewrite list_lookup_insert_ne in Hj by congruence.
        by destruct (Hnone j p).
      * rewrite list_lookup_insert_ne in Hj by congruence.
        by destruct (Hnone j p).
Qed.

Lemma invariant_resume (i : nat) (w w' : World) :
  invariant w → resume i w = Some w' → invariant w'.
Proof.
  intros Hinv. unfold resume.
  destruct (tasks w !! i) as [c|] eqn:Hi; [|done].
  pose proof (lookup_lt_Some _ _ _ Hi) as Hlt.
  destruct c as [| |p|p|ok].
  - intros [= <-]. unfold enter_ensureToken.
    destruct (isTokenValid w); [by apply invariant_set_task|].
    destruct (tokenRefreshPromise w) as [p|] eqn:Hslot.
    + by apply invariant_set_task.
    + by apply invariant_enter_refreshToken.
  - intros [= <-]. by apply invariant_enter_refreshToken.
  - destruct (settled w p) as [ok|]; simpl; [|done].
    intros [= <-]. by apply invariant_set_task.
  - destruct (settled w p) as [ok|] eqn:Hset; simpl; [|done].
    intros [= <-].
    assert (Hslot : tokenRefreshPromise w = Some p) by (by eapply inv_owner_slot).
    assert (Hno : logins w = []).
    { destruct (logins w) as [|q l] eqn:Hl; [done|].
      destruct (inv_login_slot w Hinv q) as [Hq Hpend]; [rewrite Hl; by left|].
      assert (q = p) as -> by congruence.
      unfold settled in Hset. by rewrite Hpend in Hset. }
    destruct Hinv as [H1 H2 H3 H4]. split; simpl.
    + rewrite Hno. intros q Hq. by apply elem_of_nil in Hq.
    + rewrite Hno. simpl. lia.
    + intros j q Hj. apply lookup_set_other in Hj as [Hj Hne]; [|done].
      destruct Hne. symmetry. by eapply H4.
    + intros j k q r Hj Hk.
      apply lookup_set_other in Hj as [Hj _]; [|done].
      apply lookup_set_other in Hk as [Hk _]; [|done].
      by eapply H4.
  - done.
Qed.

Lemma invariant_login_completes (p : nat) (tok : option string) (w w' : World) :
  invariant w → login_completes p tok w = Some w' → invariant w'.
Proof.
  intros Hinv. unfold login_completes.
  destruct (bool_decide (p ∈ logins w)) eqn:Hp; [|done].
  apply bool_decide_eq_true in Hp. intros [= <-].
  destruct (inv_login_slot w Hinv p Hp) as [Hslot _].
  destruct Hinv as [H1 H2 H3 H4]. split; simpl; [| |done|done].
  - intros q Hq. apply list_elem_of_In, filter_In in Hq as [Hq Hne].
    apply list_elem_of_In, H1 in Hq as [Hq _].
    assert (q = p) as -> by congruence.
    by rewrite Nat.eqb_refl in Hne.
  - etrans; [apply List.filter_length_le|done].
Qed.

Lemma invariant_step (e : event) (w w' : World) :
  invariant w → step e w = Some w' → invariant w'.
Proof.
  intros Hinv. destruct e as [via|dt|i|p tok]; simpl.
  - intros [= <-]. destruct Hinv as [H1 H2 H3 H4]. split; simpl; [done|done| |].
    + intros i p Hi. apply lookup_app_Some in Hi as [Hi|[_ Hi]]; [by eapply H3|].
      destruct (i - List.length (tasks w))%nat; [by destruct via|done].
    + intros i j p q Hi Hj.
      apply lookup_app_Some in Hi as [Hi|[_ Hi]];
        [|destruct (i - List.length (tasks w))%nat; [by destruct via|done]].
      apply lookup_app_Some in Hj as [Hj|[_ Hj]];
        [|destruct (j - List.length (tasks w))%nat; [by destruct via|done]].
      by eapply H4.
  - intros [= <-]. by destruct Hinv.
  - by apply invariant_resume.
  - by apply invariant_login_completes.
Qed.

Lemma invariant_run (events : list event) (w w' : World) :
  invariant w → run events w = Some w' → invariant w'.
Proof.
  revert w. induction events as [|e events IH]; intros w Hinv; simpl.
  - by intros [= <-].
  - destruct (step e w) as [w1|] eqn:Hstep; simpl; [|done].
    apply IH. by eapply invariant_step.
Qed.

(** C8.  In every world the event loop can reach from a fresh manager,
    whatever the number of callers and the order in which they run, at most
    one login is in flight; while one is, the slot [tokenRefreshPromise]
    holds its promise; and a caller of [refreshToken] (a forced refresh or
    the interceptor), or a caller of [getAxios] whose token is not valid,
    that finds a promise in the slot waits for that promise and posts no
    login. *)
Theorem at_most_one_login_in_flight (w : World) :
  reachable w →
  (List.length (logins w) <= 1)%nat ∧
  (∀ p, p ∈ logins w → tokenRefreshPromise w = Some p) ∧
  (∀ i p w',
     tokenRefreshPromise w = Some p →
     tasks w !! i = Some AtRefreshToken ∨
       (tasks w !! i = Some AtGetAxios ∧ isTokenValid w = false) →
     resume i w = Some w' →
     tasks w' !! i = Some (AwaitShared p) ∧ logins w' = logins w).
Proof.
  intros (t & tok & events & Hrun).
  pose proof (invariant_run events _ _ (invariant_initial t tok) Hrun) as Hinv.
  split; [by destruct Hinv|]. split.
  - intros p Hp. by destruct (inv_login_slot w Hinv p Hp).
  - intros i p w' Hslot Hat Hres. unfold resume in Hres.
    destruct Hat as [Hat|[Hat Hvalid]]; rewrite Hat in Hres;
      pose proof (lookup_lt_Some _ _ _ Hat) as Hlt; injection Hres as <-.
    + unfold enter_refreshToken. rewrite Hslot. simpl.
      by rewrite list_lookup_insert_eq.
    + unfold enter_ensureToken. rewrite Hvalid, Hslot. simpl.
      by rewrite list_lookup_insert_eq.
Qed.

(** Three callers find the token missing: the first posts the login, the
    other two wait for it. *)
Definition three_callers : list event :=
  [Arrive true; Arrive true; Arrive false; Resume 0; Resume 1; Resume 2].

Definition one_refresh : World :=
  {| now := 0; cachedToken := None; tokenRefreshPromise := Some 0%nat;
     promises := [Pending]; logins := [0%nat];
     tasks := [AwaitOwn 0; AwaitShared 0; AwaitShared 0] |}.

Lemma at_most_one_login_in_flight_witness :
  (List.length (logins one_refresh) <= 1)%nat ∧
  (∀ p, p ∈ logins one_refresh → tokenRefreshPromise one_refresh = Some p) ∧
  (∀ i p w',
     tokenRefreshPromise one_refresh = Some p →
     tasks one_refresh !! i = Some AtRefreshToken ∨
       (tasks one_refresh !! i = Some AtGetAxios ∧ isTokenValid one_refresh = false) →
     resume i one_refresh = Some w' →
     tasks w' !! i = Some (AwaitShared p) ∧ logins w' = logins one_refresh).
Proof.
  apply at_most_one_login_in_flight.
  exists 0%Z, None, three_callers. reflexivity.
Defined.

End ConcurrentFacts.

(** ** The public tracking query: ownership *)
Module StoreTrackingFacts.
Import Tracking Webhook StoreTracking TrackingFacts.

Definition body_of (r : response) : obj := let 'Response _ b := r in b.

(** The ownership check does not confirm the requester: the order has a
    customer other than the requester, or no order came back, or retrieving
    it threw an error with a message that does not contain "not found".
    An error whose message contains "not found" and a thrown value without
    a message are not among these cases. *)
Definition not_confirmed (outcome : retrieval) (actor_id : val) : Prop :=
  match outcome with
  | Resolved (VObj order) =>
      truthy (get order "customer_id") = true ∧
      strict_ne (get order "customer_id") actor_id = true
  | Resolved VUndef | Resolved VNull => True
  | Resolved _ => False
  | Threw (Some message) => includes (toLowerCase message) "not found" = false
  | Threw None => False
  end.

Lemma failure_has_no_tracking (status : Z) (msg : string) :
  body_of (failure status msg) !! "tracking" = None.
Proof.
  unfold failure, body_of. lookup_literal.
  rewrite list_to_map_nil. apply lookup_empty.
Qed.

(** C9 (as amended).  For a record linked to an order, when the order
    has a customer other than the requester, or no order comes back, or the
    verification throws an error with a message that does not contain "not
    found" (in any letter case), the query answers 403 and its body has no
    tracking data.  The statement is silent about an error whose message
    contains "not found" and about a thrown value without a message. *)
Theorem linked_tracking_is_denied (param url : option string) (t : table)
    (retrieveOrder : val -> retrieval) (actor_id : val) (id : string)
    (tracking : obj) :
  awb_of param url ≠ "" →
  findByAwb (VStr (awb_of param url)) t = Some (id, tracking) →
  truthy (get tracking "medusa_order_id") = true →
  not_confirmed (retrieveOrder (get tracking "medusa_order_id")) actor_id →
  status_of (GET param url t retrieveOrder actor_id) = 403%Z ∧
  body_of (GET param url t retrieveOrder actor_id) !! "tracking" = None.
Proof.
  intros Hawb Hfind Hlinked Hnot. unfold GET.
  destruct (String.eqb_spec (awb_of param url) "") as [|_]; [done|].
  rewrite Hfind, Hlinked. unfold check_ownership.
  destruct (retrieveOrder (get tracking "medusa_order_id")) as [order|[message|]];
    simpl in Hnot.
  - destruct order; try done;
      try (split; [reflexivity|apply failure_has_no_tracking]).
    destruct Hnot as [-> ->]. simpl.
    split; [reflexivity|apply (failure_has_no_tracking 403)].
  - rewrite Hnot. simpl. split; [reflexivity|apply (failure_has_no_tracking 403)].
  - done.
Qed.

(** A record linked to an order, and a store that cannot find the order. *)
Definition linked_row : obj :=
  list_to_map
    [ ("awb", VStr "AWB1"); ("medusa_order_id", VStr "order_01");
      ("current_status", VStr "Delivered"); ("scans", VList []) ].

Definition linked_table : table := {[ "trk_1" := linked_row ]}.

Definition order_missing (_ : val) : retrieval :=
  Threw (Some "Order with id: order_01 was not found").

Definition order_of_other (_ : val) : retrieval :=
  Resolved (VObj (list_to_map [("customer_id", VStr "cus_owner")])).

Lemma linked_tracking_is_denied_witness :
  status_of (GET (Some "AWB1") None linked_table order_of_other (VStr "cus_other"))
    = 403%Z ∧
  body_of (GET (Some "AWB1") None linked_table order_of_other (VStr "cus_other"))
    !! "tracking" = None.
Proof.
  apply (linked_tracking_is_denied (Some "AWB1") None linked_table order_of_other
           (VStr "cus_other") "trk_1" linked_row).
  - discriminate.
  - vm_compute. reflexivity.
  - vm_compute. reflexivity.
  - vm_compute. split; reflexivity.
Defined.

(** C9, counterexample: the store cannot find the order; the guard of
    line 69 lets the error through and the tracking data is returned to a
    requester nobody verified. *)
Lemma order_not_found_is_allowed :
  status_of (GET (Some "AWB1") None linked_table order_missing VUndef) = 200%Z ∧
  is_Some (body_of (GET (Some "AWB1") None linked_table order_missing VUndef)
             !! "tracking").
Proof. split; [vm_compute; reflexivity|]. vm_compute. eauto. Qed.

(** A thrown value without a message makes the [catch] of line 62 throw in
    its turn: the query answers 500, and its body has no tracking data. *)
Lemma message_less_error_is_500 (param url : option string) (t : table)
    (retrieveOrder : val -> retrieval) (actor_id : val) (id : string)
    (tracking : obj) :
  awb_of param url ≠ "" →
  findByAwb (VStr (awb_of param url)) t = Some (id, tracking) →
  truthy (get tracking "medusa_order_id") = true →
  retrieveOrder (get tracking "medusa_order_id") = Threw None →
  status_of (GET param url t retrieveOrder actor_id) = 500%Z ∧
  body_of (GET param url t retrieveOrder actor_id) !! "tracking" = None.
Proof.
  intros Hawb Hfind Hlinked Hthrew. unfold GET.
  destruct (String.eqb_spec (awb_of param url) "") as [|_]; [done|].
  rewrite Hfind, Hlinked. unfold check_ownership. rewrite Hthrew.
  split; [reflexivity|apply (failure_has_no_tracking 500)].
Qed.

End StoreTrackingFacts.

(** ** The tracking table under repeated upserts *)
Module UpsertFacts.
Import Tracking Webhook TrackingFacts.

(** No two rows of the table carry the same waybill. *)
Definition unique_awb (t : table) : Prop :=
  ∀ id1 id2 row1 row2 a,
    t !! id1 = Some row1 → t !! id2 = Some row2 →
    row1 !! "awb" = Some (VStr a) → row2 !! "awb" = Some (VStr a) → id1 = id2.

Lemma awb_is_spec (a : string) (row : obj) :
  awb_is (VStr a) row = true ↔ row !! "awb" = Some (VStr a).
Proof.
  unfold awb_is. destruct (row !! "awb") as [[]|]; split; try done.
  - by intros ->%String.eqb_eq.
  - intros [= ->]. apply String.eqb_refl.
Qed.

Lemma awb_is_string (v : val) (row : obj) :
  awb_is v row = true → ∃ a, v = VStr a ∧ row !! "awb" = Some (VStr a).
Proof.
  destruct v; try done. intros H. eexists. split; [done|]. by apply awb_is_spec.
Qed.

Lemma awb_not_mutable : bool_decide ("awb" ∈ mutable_fields) = false.
Proof. vm_compute. reflexivity. Qed.

Lemma update_keeps_awb (data row : obj) :
  (updateData data ∪ row) !! "awb" = row !! "awb".
Proof.
  rewrite lookup_union, lookup_updateData, awb_not_mutable. simpl.
  by destruct (row !! "awb").
Qed.

Lemma created_awb (data : obj) (a : string) :
  drop_undefined data !! "awb" = Some (VStr a) ↔ get data "awb" = VStr a.
Proof.
  rewrite lookup_drop_undefined. unfold get.
  destruct (data !! "awb") as [[]|]; simpl; split; congruence.
Qed.

(** The table [upsertByAwb] leaves. *)
Lemma upsertByAwb_table (new_id : string) (data : obj) (t : table) :
  snd (upsertByAwb new_id data t) =
  match findByAwb (get data "awb") t with
  | Some (id, row) => <[id := updateData data ∪ row]> t
  | None => <[new_id := drop_undefined data]> t
  end.
Proof.
  unfold upsertByAwb, updateShiprocketTrackings, createShiprocketTrackings.
  destruct (findByAwb (get data "awb") t) as [[id row]|] eqn:Hfind; [|done].
  destruct (findByAwb_Some _ _ _ _ Hfind) as [Hrow _]. by rewrite Hrow.
Qed.

Lemma upsertByAwb_row (new_id : string) (data : obj) (t : table) :
  fst (upsertByAwb new_id data t) =
  match findByAwb (get data "awb") t with
  | Some (id, row) => Some (id, updateData data ∪ row)
  | None => Some (new_id, drop_undefined data)
  end.
Proof.
  unfold upsertByAwb, updateShiprocketTrackings, createShiprocketTrackings.
  destruct (findByAwb (get data "awb") t) as [[id row]|] eqn:Hfind.
  - destruct (findByAwb_Some _ _ _ _ Hfind) as [Hrow _]. rewrite Hrow. simpl.
    by rewrite lookup_insert_eq.
  - simpl. by rewrite lookup_insert_eq.
Qed.

Lemma unique_awb_upsert (new_id : string) (data : obj) (t : table) :
  unique_awb t → unique_awb (snd (upsertByAwb new_id data t)).
Proof.
  intros Hu. rewrite upsertByAwb_table.
  destruct (findByAwb (get data "awb") t) as [[id row]|] eqn:Hfind.
  - destruct (findByAwb_Some _ _ _ _ Hfind) as [Hrow _].
    assert (Hold : ∀ j r a, (<[id := updateData data ∪ row]> t) !! j = Some r →
                            r !! "awb" = Some (VStr a) →
                            ∃ r0, t !! j = Some r0 ∧ r0 !! "awb" = Some (VStr a)).
    { intros j r a Hj Ha. apply lookup_insert_Some in Hj as [[<- <-]|[_ Hj]].
      - exists row. split; [done|]. by rewrite update_keeps_awb in Ha.
      - by exists r. }
    intros id1 id2 row1 row2 a H1 H2 Ha1 Ha2.
    destruct (Hold _ _ _ H1 Ha1) as (r1 & Hr1 & Hb1).
    destruct (Hold _ _ _ H2 Ha2) as (r2 & Hr2 & Hb2).
    by apply (Hu id1 id2 r1 r2 a).
  - assert (Hnew : ∀ j r a, t !! j = Some r → r !! "awb" = Some (VStr a) →
                            drop_undefined data !! "awb" = Some (VStr a) → False).
    { intros j r a Hj Ha Hd. apply created_awb in Hd.
      pose proof (findByAwb_None _ _ _ _ Hfind Hj) as Hno.
      rewrite Hd in Hno. apply awb_is_spec in Ha. congruence. }
    intros id1 id2 row1 row2 a H1 H2 Ha1 Ha2.
    apply lookup_insert_Some in H1 as [[<- <-]|[Hn1 H1]];
      apply lookup_insert_Some in H2 as [[<- <-]|[Hn2 H2]].
    + done.
    + destruct (Hnew _ _ _ H2 Ha2 Ha1).
    + destruct (Hnew _ _ _ H1 Ha1 Ha2).
    + by apply (Hu id1 id2 row1 row2 a).
Qed.

(** A sequence of upserts, each with the data it is given and the key
    the store would give a new row. *)
Fixpoint upserts (calls : list (string * obj)) (t : table) : table :=
  match calls with
  | [] => t
  | (new_id, data) :: rest => upserts rest (snd (upsertByAwb new_id data t))
  end.

(** Every row carries a waybill, and it is a string. *)
Definition text_awbs (t : table) : Prop :=
  ∀ id row, t !! id = Some row → ∃ a, row !! "awb" = Some (VStr a).

(** The data of a call carries a waybill that is a string. *)
Definition text_awb (data : obj) : Prop := ∃ a, get data "awb" = VStr a.

Lemma text_awbs_upsert (new_id : string) (data : obj) (t : table) :
  text_awbs t → text_awb data → text_awbs (snd (upsertByAwb new_id data t)).
Proof.
  intros Ht [a Ha]. rewrite upsertByAwb_table.
  destruct (findByAwb (get data "awb") t) as [[id row]|] eqn:Hfind.
  - destruct (findByAwb_Some _ _ _ _ Hfind) as [Hrow _].
    intros j r Hj. apply lookup_insert_Some in Hj as [[<- <-]|[_ Hj]].
    + rewrite update_keeps_awb. by apply (Ht id).
    + by apply (Ht j).
  - intros j r Hj. apply lookup_insert_Some in Hj as [[<- <-]|[_ Hj]].
    + exists a. by apply created_awb.
    + by apply (Ht j).
Qed.

(** One row per waybill.  The table holds rows with text waybills, no two
    of them the same; the calls run one after another, each with data
    that carries a text waybill and with the key the store gives to a new
    row.  Then every row of the resulting table carries a text waybill and
    no two rows carry the same one. *)
Theorem upsert_keeps_one_row_per_waybill (calls : list (string * obj)) (t : table) :
  text_awbs t → unique_awb t → Forall (fun call => text_awb (snd call)) calls →
  text_awbs (upserts calls t) ∧ unique_awb (upserts calls t).
Proof.
  revert t. induction calls as [|[new_id data] calls IH]; intros t Ht Hu Hcalls;
    [done|].
  apply Forall_cons in Hcalls as [Hdata Hcalls]. simpl.
  apply IH; [by apply text_awbs_upsert|by apply unique_awb_upsert|done].
Qed.

Definition first_scan : obj :=
  list_to_map [("awb", VStr "AWB1"); ("current_status", VStr "Shipped")].

Definition second_scan : obj :=
  list_to_map [("awb", VStr "AWB1"); ("current_status", VStr "Delivered")].

Definition one_row : table := {[ "trk_1" := first_scan ]}.

Lemma unique_awb_one_row : unique_awb one_row.
Proof.
  intros id1 id2 row1 row2 a H1 H2 _ _. unfold one_row in *.
  apply lookup_singleton_Some in H1 as [<- _].
  by apply lookup_singleton_Some in H2 as [<- _].
Qed.

Definition other_waybill : obj :=
  list_to_map [("awb", VStr "AWB2"); ("current_status", VStr "Shipped")].

Lemma text_awbs_one_row : text_awbs one_row.
Proof.
  intros id row H. unfold one_row in *.
  apply lookup_singleton_Some in H as [_ <-]. by exists "AWB1".
Qed.

Lemma upsert_keeps_one_row_per_waybill_witness :
  text_awbs
    (upserts [("trk_2", second_scan); ("trk_3", other_waybill);
              ("trk_4", second_scan)] one_row) ∧
  unique_awb
    (upserts [("trk_2", second_scan); ("trk_3", other_waybill);
              ("trk_4", second_scan)] one_row).
Proof.
  apply (upsert_keeps_one_row_per_waybill
           [("trk_2", second_scan); ("trk_3", other_waybill); ("trk_4", second_scan)]
           one_row).
  - apply text_awbs_one_row.
  - apply unique_awb_one_row.
  - repeat constructor; by eexists.
Defined.

Example upserts_example :
  size (upserts [("trk_2", second_scan); ("trk_3", other_waybill);
                 ("trk_4", second_scan)] one_row) = 2%nat.
Proof. vm_compute. reflexivity. Qed.

Lemma found_is_the_row (a : string) (t : table) (id : string) (row : obj) :
  unique_awb t → t !! id = Some row → row !! "awb" = Some (VStr a) →
  findByAwb (VStr a) t = Some (id, row).
Proof.
  intros Hu Hrow Ha.
  destruct (findByAwb (VStr a) t) as [[id' row']|] eqn:Hfind.
  - destruct (findByAwb_Some _ _ _ _ Hfind) as [Hrow' Ha'%awb_is_spec].
    assert (id' = id) as -> by by apply (Hu id' id row' row a).
    congruence.
  - pose proof (findByAwb_None _ _ _ _ Hfind Hrow) as Hno.
    apply awb_is_spec in Ha. congruence.
Qed.

Lemma updateData_twice (data row : obj) :
  updateData data ∪ (updateData data ∪ row) = updateData data ∪ row.
Proof. by rewrite (assoc_L (∪)), (idemp_L (∪)). Qed.

Lemma updateData_created (data : obj) :
  updateData data ∪ drop_undefined data = drop_undefined data.
Proof.
  apply map_eq. intros k.
  rewrite lookup_union, lookup_updateData, lookup_drop_undefined. unfold get.
  destruct (bool_decide (k ∈ mutable_fields)); simpl.
  - destruct (data !! k) as [v|]; simpl; [|done]. by destruct (is_undef v).
  - by destruct (data !! k) as [v|]; simpl; [destruct (is_undef v)|].
Qed.

(** A delivery that arrives twice: the second upsert of the same data
    for a waybill returns the row the first returned and leaves the
    table as the first left it. *)
Theorem upsert_replay (id1 id2 : string) (data : obj) (t : table) (a : string) :
  unique_awb t → get data "awb" = VStr a →
  upsertByAwb id2 data (snd (upsertByAwb id1 data t)) = upsertByAwb id1 data t.
Proof.
  intros Hu Ha.
  pose proof (unique_awb_upsert id1 data t Hu) as Hu1.
  pose proof (upsertByAwb_row id1 data t) as Hrow1.
  pose proof (upsertByAwb_table id1 data t) as Htab1.
  destruct (upsertByAwb id1 data t) as [r1 t1]. simpl in *.
  rewrite (surjective_pairing (upsertByAwb id2 data t1)).
  rewrite upsertByAwb_row, upsertByAwb_table. rewrite Ha in *.
  destruct (findByAwb (VStr a) t) as [[id row]|] eqn:Hfind.
  - destruct (findByAwb_Some _ _ _ _ Hfind) as [Hrow Hawb%awb_is_spec].
    rewrite (found_is_the_row a t1 id (updateData data ∪ row) Hu1).
    + rewrite updateData_twice, Hrow1, Htab1. by rewrite insert_insert_eq.
    + by rewrite Htab1, lookup_insert_eq.
    + by rewrite update_keeps_awb.
  - rewrite (found_is_the_row a t1 id1 (drop_undefined data) Hu1).
    + rewrite updateData_created, Hrow1, Htab1. by rewrite insert_insert_eq.
    + by rewrite Htab1, lookup_insert_eq.
    + by apply created_awb.
Qed.

Lemma upsert_replay_witness :
  upsertByAwb "trk_3" second_scan (snd (upsertByAwb "trk_2" second_scan one_row)) =
  upsertByAwb "trk_2" second_scan one_row.
Proof.
  apply (upsert_replay "trk_2" "trk_3" second_scan one_row "AWB1").
  - apply unique_awb_one_row.
  - vm_compute. reflexivity.
Defined.

End UpsertFacts.

(** ** The webhook: authentication and what it stores *)
Module WebhookFacts.
Import Tracking Webhook TrackingFacts UpsertFacts.

Lemma constantTimeCompare_eq (a b : string) :
  constantTimeCompare a b = Some true ↔ a = b.
Proof.
  unfold constantTimeCompare. split.
  - destruct (js_length a =? js_length b)%nat; simpl; [|done].
    destruct (String.length a =? String.length b)%nat; simpl; [|done].
    intros [= H]. by apply String.eqb_eq.
  - intros ->. by rewrite !Nat.eqb_refl, String.eqb_refl.
Qed.

(** The header and the token have the same length in UTF-16 code units
    and different lengths in bytes: [crypto.timingSafeEqual] throws. *)
Definition unequal_buffers (tok expected : string) : bool :=
  (js_length tok =? js_length expected)%nat &&
  negb (String.length tok =? String.length expected)%nat.

(** A request whose [x-api-key] header is not the configured token writes
    nothing and is answered 401; it is answered 500 when no token is
    configured, and when the header and the token have the same length and
    encode to buffers of different lengths. *)
Theorem webhook_rejects_wrong_token (expectedToken token : option string)
    (body : val) (new_id : string) (t : table) :
  token ≠ expectedToken →
  snd (POST expectedToken token body new_id t) = t ∧
  status_of (fst (POST expectedToken token body new_id t)) =
    match expectedToken with
    | None | Some "" => 500
    | Some expected =>
        match token with
        | None | Some "" => 401
        | Some tok => if unequal_buffers tok expected then 500 else 401
        end
    end.
Proof.
  intros Hne. unfold POST.
  destruct expectedToken as [[|c expected]|]; [by split| |by split].
  destruct token as [[|d tok]|]; [by split| |by split].
  assert (Hne' : String d tok ≠ String c expected) by congruence.
  clear Hne. generalize dependent (String d tok). generalize dependent (String c expected).
  clear. intros expected tok Hne.
  pose proof (constantTimeCompare_eq tok expected) as Heq.
  unfold constantTimeCompare, unequal_buffers in *.
  destruct (js_length tok =? js_length expected)%nat; simpl in *; [|by split].
  destruct (String.length tok =? String.length expected)%nat; simpl in *;
    [|by split].
  destruct (String.eqb tok expected); [|by split].
  destruct Hne. by apply Heq.
Qed.

Definition delivered_payload : obj :=
  list_to_map
    [ ("awb", VStr "AWB1"); ("current_status", VStr "Delivered");
      ("order_id", VStr "order_01-1767608000") ].

Definition delivered : val := VObj delivered_payload.

Lemma webhook_rejects_wrong_token_witness :
  snd (POST (Some "secret") (Some "guess") delivered "trk_2" one_row) = one_row ∧
  status_of (fst (POST (Some "secret") (Some "guess") delivered "trk_2" one_row))
    = 401.
Proof.
  apply (webhook_rejects_wrong_token (Some "secret") (Some "guess")).
  discriminate.
Defined.

(** The header is one character of two bytes, the token one character of
    one byte: the lengths agree, the buffers do not, and the answer is 500. *)
Example webhook_non_ascii_header :
  let header := String (ascii_of_nat 195) (String (ascii_of_nat 169) "") in
  js_length header = js_length "a" ∧
  POST (Some "a") (Some header) delivered "trk_2" one_row
  = (failure 500 "Internal server error", one_row).
Proof. split; reflexivity. Qed.

(** What [POST] does once the token is accepted. *)
Definition process (body : val) (new_id : string) (t : table) : response * table :=
  if negb (truthy (opt_get body "awb"))
  then (failure 400 "Invalid payload - missing AWB", t)
  else
    match body with
    | VObj payload =>
        match webhook_data payload with
        | Some data =>
            (Response 200
               (list_to_map
                  [ ("success", VBool true);
                    ("message", VStr "Webhook processed");
                    ("awb", get payload "awb") ]),
             snd (upsertByAwb new_id data t))
        | None => (failure 500 "Internal server error", t)
        end
    | _ => (failure 500 "Internal server error", t)
    end.

Lemma POST_cases (expectedToken token : option string) (body : val)
    (new_id : string) (t : table) :
  (snd (POST expectedToken token body new_id t) = t ∧
   status_of (fst (POST expectedToken token body new_id t)) ≠ 200) ∨
  POST expectedToken token body new_id t = process body new_id t.
Proof.
  unfold POST, process.
  destruct expectedToken as [[|c expected]|]; [by left|  |by left].
  destruct token as [[|d tok]|]; [by left|  |by left].
  destruct (constantTimeCompare _ _) as [[|]|]; simpl; [|by left|by left].
  right. destruct (truthy (opt_get body "awb")); simpl; [|done].
  destruct body; try done.
  destruct (webhook_data fields) as [data|]; [|done].
  by destruct (upsertByAwb new_id data t).
Qed.

(** Every answer other than 200 leaves the table as it was. *)
Theorem webhook_writes_only_on_200 (expectedToken token : option string)
    (body : val) (new_id : string) (t : table) :
  status_of (fst (POST expectedToken token body new_id t)) = 200 ∨
  snd (POST expectedToken token body new_id t) = t.
Proof.
  destruct (POST_cases expectedToken token body new_id t) as [[H _]|Heq];
    [by right|]. rewrite Heq.
  unfold process. destruct (truthy (opt_get body "awb")); simpl; [|by right].
  destruct body; try by right.
  destruct (webhook_data fields); [by left|by right].
Qed.

Lemma webhook_data_awb (payload data : obj) :
  webhook_data payload = Some data → get data "awb" = get payload "awb".
Proof.
  unfold webhook_data. intros H.
  repeat (apply bind_Some in H as (? & _ & H)).
  injection H as <-. unfold webhook_fields, get at 1.
  by lookup_literal.
Qed.

(** A webhook that is answered 200 is visible to the tracking lookup: the
    row found under its waybill holds the status it carried. *)
Theorem webhook_then_lookup (expectedToken token : option string)
    (payload : obj) (new_id : string) (t : table) (a : string) :
  unique_awb t → get payload "awb" = VStr a →
  get payload "current_status" ≠ VUndef →
  status_of (fst (POST expectedToken token (VObj payload) new_id t)) = 200 →
  ∃ id row,
    findByAwb (VStr a) (snd (POST expectedToken token (VObj payload) new_id t))
      = Some (id, row) ∧
    get row "current_status" = get payload "current_status".
Proof.
  intros Hu Ha Hst H200.
  destruct (POST_cases expectedToken token (VObj payload) new_id t)
    as [[_ Hno]|Heq]; [done|].
  rewrite Heq in *. clear Heq. unfold process in *.
  cbn [opt_get] in *. rewrite Ha in *.
  destruct (truthy (VStr a));
    [|unfold failure, status_of in H200; cbn [fst negb] in H200; discriminate H200].
  cbn [negb] in *.
  destruct (webhook_data payload) as [data|] eqn:Hdata;
    [|unfold failure, status_of in H200; cbn [fst] in H200; discriminate H200].
  cbn [snd].
  pose proof (webhook_data_awb _ _ Hdata) as Hawb. rewrite Ha in Hawb.
  destruct (webhook_data_passes_status _ _ Hdata) as [Hcur _].
  pose proof (unique_awb_upsert new_id data t Hu) as Hu1.
  pose proof (upsertByAwb_table new_id data t) as Htab. rewrite Hawb in Htab.
  assert (Hmut : bool_decide ("current_status" ∈ mutable_fields) = true)
    by (vm_compute; reflexivity).
  assert (Hdef : is_undef (get data "current_status") = false).
  { unfold get at 1. rewrite Hcur. simpl.
    by destruct (get payload "current_status"). }
  destruct (findByAwb (VStr a) t) as [[id row]|] eqn:Hfind.
  - destruct (findByAwb_Some _ _ _ _ Hfind) as [Hrow Hrawb%awb_is_spec].
    exists id, (updateData data ∪ row). split.
    + apply found_is_the_row; [done| |by rewrite update_keeps_awb].
      by rewrite Htab, lookup_insert_eq.
    + unfold get at 1. rewrite lookup_union, lookup_updateData, Hmut, Hdef. simpl.
      unfold get at 1. rewrite Hcur. by destruct (row !! "current_status").
  - exists new_id, (drop_undefined data). split.
    + apply found_is_the_row; [done| |by apply created_awb].
      by rewrite Htab, lookup_insert_eq.
    + unfold get at 1. rewrite lookup_drop_undefined, Hcur.
      unfold get in Hdef. rewrite Hcur in Hdef. simpl in Hdef. by rewrite Hdef.
Qed.

Lemma webhook_then_lookup_witness :
  ∃ id row,
    findByAwb (VStr "AWB1")
      (snd (POST (Some "secret") (Some "secret") (VObj delivered_payload)
              "trk_2" one_row))
      = Some (id, row) ∧
    get row "current_status" = get delivered_payload "current_status".
Proof.
  apply (webhook_then_lookup (Some "secret") (Some "secret") delivered_payload
           "trk_2" one_row "AWB1").
  - apply unique_awb_one_row.
  - vm_compute. reflexivity.
  - vm_compute. discriminate.
  - vm_compute. reflexivity.
Defined.

End WebhookFacts.

(** ** From the order id [create] sends to the order id the webhook
    stores *)
Module OrderIdFacts.
Import Http Manager Validation Client Webhook ClientFacts.

(** *** Decimal numerals *)

Lemma is_digit_pretty_N_char (x : N) : is_digit (pretty_N_char x) = true.
Proof.
  unfold pretty_N_char.
  repeat (match goal with |- context [match ?p with _ => _ end] => destruct p end;
          try reflexivity).
Qed.

Lemma all_digits_pretty_N_go (x : N) (s : string) :
  all_digits s = true → all_digits (pretty_N_go x s) = true.
Proof.
  revert s. induction (N.lt_wf_0 x) as [x _ IH]. intros s Hs.
  destruct (decide (x = 0)%N) as [->|Hx]; [by rewrite pretty_N_go_0|].
  rewrite pretty_N_go_step by lia. apply IH.
  - apply N.div_lt; lia.
  - simpl. by rewrite is_digit_pretty_N_char, Hs.
Qed.

Lemma pretty_N_go_nonempty (x : N) (s : string) :
  s ≠ "" → pretty_N_go x s ≠ "".
Proof.
  revert s. induction (N.lt_wf_0 x) as [x _ IH]. intros s Hs.
  destruct (decide (x = 0)%N) as [->|Hx]; [by rewrite pretty_N_go_0|].
  rewrite pretty_N_go_step by lia. apply IH; [apply N.div_lt; lia|done].
Qed.

(** The decimal rendering of a number that is not negative is a
    non-empty string of digits. *)
Lemma pretty_digits (n : Z) :
  0 <= n → is_numeric_suffix (pretty n) = true.
Proof.
  intros Hn. unfold is_numeric_suffix.
  destruct n as [|p|p]; [done| |lia].
  change (pretty (Z.pos p)) with (pretty_N_go (N.pos p) "").
  rewrite all_digits_pretty_N_go by done.
  rewrite pretty_N_go_step by lia.
  destruct (String.eqb_spec (pretty_N_go (N.pos p `div` 10)
              (String (pretty_N_char (N.pos p `mod` 10)) "")) "") as [He|]; [|done].
  by apply pretty_N_go_nonempty in He.
Qed.

(** *** [split] and [join] *)

Lemma string_app_assoc (a b c : string) : (a ++ b) ++ c = a ++ (b ++ c).
Proof.
  induction a as [|x a IH]; [done|]. by rewrite !string_app_cons, IH.
Qed.

Lemma rev_app_app (s t : string) : String.rev_app s t = String.rev_app s "" ++ t.
Proof.
  revert t. induction s as [|a s IH]; intros t; [done|]. simpl.
  rewrite (IH (String a t)), (IH (String a "")). by rewrite string_app_assoc.
Qed.

Lemma string_rev_cons (c : ascii) (s : string) :
  String.rev (String c s) = String.rev s ++ String c "".
Proof. unfold String.rev. simpl. apply rev_app_app. Qed.

Lemma split_go_nonempty (sep : ascii) (cur s : string) : split_go sep cur s ≠ [].
Proof.
  revert cur. induction s as [|c s IH]; intros cur; simpl; [done|].
  destruct (Ascii.eqb c sep); [done|apply IH].
Qed.

Lemma split_go_app (sep : ascii) (cur a d : string) :
  split_go sep cur (a ++ String sep d) =
  (split_go sep cur a ++ split_go sep "" d)%list.
Proof.
  revert cur. induction a as [|c a IH]; intros cur.
  - rewrite string_app_nil. simpl. by rewrite Ascii.eqb_refl.
  - rewrite string_app_cons. simpl.
    destruct (Ascii.eqb c sep); [|apply IH]. by rewrite IH.
Qed.

(** A piece of text without the separator is its own only part. *)
Lemma split_go_no_sep (sep : ascii) (cur d : string) :
  (∀ c, c ∈ list_ascii_of_string d → c ≠ sep) →
  split_go sep cur d = [String.rev cur ++ d].
Proof.
  revert cur. induction d as [|c d IH]; intros cur Hd.
  - simpl. by rewrite string_app_nil_r.
  - simpl. destruct (Ascii.eqb_spec c sep) as [->|Hne].
    + destruct (Hd sep); [by left|done].
    + rewrite IH.
      * by rewrite string_rev_cons, string_app_assoc.
      * intros x Hx. apply Hd. by right.
Qed.

Lemma join_cons (sep p : string) (rest : list string) :
  rest ≠ [] → join sep (p :: rest) = p ++ sep ++ join sep rest.
Proof. by destruct rest. Qed.

Lemma join_split_go (sep : ascii) (cur s : string) :
  join (String sep "") (split_go sep cur s) = String.rev cur ++ s.
Proof.
  revert cur. induction s as [|c s IH]; intros cur.
  - simpl. by rewrite string_app_nil_r.
  - simpl. destruct (Ascii.eqb_spec c sep) as [->|Hne].
    + rewrite join_cons by apply split_go_nonempty. by rewrite IH.
    + by rewrite IH, string_rev_cons, string_app_assoc.
Qed.

Lemma digits_have_no_dash (d : string) :
  all_digits d = true → ∀ c, c ∈ list_ascii_of_string d → c ≠ "-"%char.
Proof.
  induction d as [|x d IH]; simpl; intros Hd c Hc.
  - by apply elem_of_nil in Hc.
  - apply andb_true_iff in Hd as [Hx Hd].
    apply elem_of_cons in Hc as [->|Hc]; [|by apply IH].
    intros ->. discriminate Hx.
Qed.

(** The webhook takes a trailing [-<digits>] off the carrier's order id. *)
Lemma medusaOrderId_suffix (id d : string) :
  is_numeric_suffix d = true →
  medusaOrderId (VStr (id ++ "-" ++ d)) = Some (VStr id).
Proof.
  intros Hd. unfold medusaOrderId. rewrite includes_app.
  change (id ++ "-" ++ d) with (id ++ String "-" d).
  unfold split. rewrite split_go_app.
  pose proof Hd as [_ Hdig]%andb_true_iff.
  rewrite (split_go_no_sep "-" "" d) by by apply digits_have_no_dash.
  change (String.rev "" ++ d) with d.
  rewrite last_last, Hd, removelast_last.
  change "-" with (String "-"%char "") at 1. by rewrite join_split_go.
Qed.

(** The order id that [create] gives the carrier is mapped back by the
    webhook to the id of the host's order. *)
Theorem order_id_round_trip (now : Z) (pickup_location : option string)
    (fulfillment : option Order.Fulfillment)
    (items : list Order.FulfillmentItem) (order : Order.HostOrder)
    (orderData : Order.OrderData) :
  0 <= now →
  build_orderData now pickup_location fulfillment items order = Ok orderData →
  medusaOrderId (VStr (Order.order_id orderData)) = Some (VStr (Order.id order)).
Proof.
  intros Hnow H. unfold build_orderData in H.
  repeat (apply rbind_Ok in H as (? & _ & H)).
  injection H as <-. cbn [Order.order_id].
  apply medusaOrderId_suffix, pretty_digits. by apply Z.div_pos.
Qed.

Lemma order_id_round_trip_witness :
  ∃ orderData,
    build_orderData 1767605400000 None None two_items (order_of two_lines)
      = Ok orderData ∧
    medusaOrderId (VStr (Order.order_id orderData)) = Some (VStr "order_01").
Proof.
  destruct (build_orderData 1767605400000 None None two_items (order_of two_lines))
    as [orderData|e] eqn:Hbuild.
  - exists orderData. split; [reflexivity|].
    apply (order_id_round_trip 1767605400000 None None two_items
             (order_of two_lines) orderData); [lia|exact Hbuild].
  - exfalso. vm_compute in Hbuild. discriminate Hbuild.
Defined.

End OrderIdFacts.

(** ** The pull path: the status it stores *)
Module SyncFacts.
Import Tracking TrackingFacts.

Lemma pretty_Z_nonempty (n : Z) : pretty n ≠ "".
Proof.
  destruct n as [|p|p]; [done| |done].
  change (pretty (Z.pos p)) with (pretty_N_go (N.pos p) "").
  rewrite pretty_N_go_step by lia. apply OrderIdFacts.pretty_N_go_nonempty. done.
Qed.

(** The pull path never stores a number, [undefined] or the empty
    string as the current status: a known code becomes its label, any
    other number its decimal text, and a missing status "Unknown". *)
Lemma sync_current_status_is_text (trackingData : obj) :
  truthy (sync_current_status trackingData) = true ∧
  is_number (sync_current_status trackingData) = false.
Proof.
  unfold sync_current_status.
  set (status := js_or (get trackingData "current_status")
                   (js_or (get trackingData "track_status") (VStr "Unknown"))).
  assert (Hst : truthy status = true).
  { unfold status, js_or.
    destruct (truthy (get trackingData "current_status")) eqn:E1; [done|].
    by destruct (truthy (get trackingData "track_status")) eqn:E2. }
  unfold statusMap_at.
  destruct (statusMap !! toPropertyKey status) as [label|] eqn:Hl.
  - apply statusMap_label in Hl as (_ & _ & Hl).
    assert (Ht : truthy (VStr label) = true).
    { simpl. by destruct (String.eqb_spec label ""). }
    by rewrite Ht.
  - cbn [truthy]. destruct status as [| |b|n| |s| | |]; try done.
    cbn [is_number String_ toPropertyKey truthy]. split; [|done].
    pose proof (pretty_Z_nonempty n).
    by destruct (String.eqb_spec (pretty n) "").
Qed.

End SyncFacts.

(** ** From the two paths to the public query *)
Module LinkFacts.
Import Tracking Webhook StoreTracking TrackingFacts UpsertFacts WebhookFacts
       OrderIdFacts SyncFacts.

Lemma webhook_data_order (payload data : obj) :
  webhook_data payload = Some data →
  ∃ moid, medusaOrderId (get payload "order_id") = Some moid ∧
          data !! "medusa_order_id" = Some moid.
Proof.
  unfold webhook_data. intros H.
  apply bind_Some in H as (moid & Hmoid & H).
  repeat (apply bind_Some in H as (? & _ & H)).
  injection H as <-. exists moid. split; [done|].
  unfold webhook_fields. by lookup_literal.
Qed.

(** The first notification of a waybill links its tracking record to the
    host's order, and the public query then answers the customer of that
    order and nobody else: 200 for the owner, 403 for every other
    caller. *)
Theorem webhook_links_tracking_to_owner (expectedToken token : option string)
    (payload : obj) (new_id : string) (t : table) (a oid d owner : string)
    (url : option string) (retrieveOrder : val -> retrieval) (order : obj)
    (actor_id : val) :
  findByAwb (VStr a) t = None →
  a ≠ "" → oid ≠ "" → owner ≠ "" →
  get payload "awb" = VStr a →
  get payload "order_id" = VStr (oid ++ "-" ++ d) →
  is_numeric_suffix d = true →
  status_of (fst (POST expectedToken token (VObj payload) new_id t)) = 200 →
  retrieveOrder (VStr oid) = Resolved (VObj order) →
  get order "customer_id" = VStr owner →
  let answer :=
    GET (Some a) url (snd (POST expectedToken token (VObj payload) new_id t))
      retrieveOrder actor_id in
  (actor_id = VStr owner → status_of answer = 200) ∧
  (actor_id ≠ VStr owner → status_of answer = 403).
Proof.
  intros Hnew Ha Hoid Howner Hawb Horder Hd H200 Hretrieve Hcustomer answer.
  subst answer.
  destruct (POST_cases expectedToken token (VObj payload) new_id t)
    as [[_ Hno]|Heq]; [done|].
  rewrite Heq in *. clear Heq. unfold process in *.
  cbn [opt_get] in *. rewrite Hawb in *.
  destruct (truthy (VStr a));
    [|unfold failure, status_of in H200; cbn [fst negb] in H200; discriminate H200].
  cbn [negb] in *.
  destruct (webhook_data payload) as [data|] eqn:Hdata;
    [|unfold failure, status_of in H200; cbn [fst] in H200; discriminate H200].
  cbn [snd]. clear H200.
  pose proof (webhook_data_awb _ _ Hdata) as Hdawb. rewrite Hawb in Hdawb.
  destruct (webhook_data_order _ _ Hdata) as (moid & Hmoid & Hlink).
  rewrite Horder, (medusaOrderId_suffix oid d Hd) in Hmoid. injection Hmoid as <-.
  rewrite upsertByAwb_table, Hdawb, Hnew.
  set (row := drop_undefined data).
  assert (Hfound : findByAwb (VStr a) (<[new_id := row]> t) = Some (new_id, row)).
  { destruct (findByAwb (VStr a) (<[new_id := row]> t)) as [[id' row']|] eqn:Hfind.
    - destruct (findByAwb_Some _ _ _ _ Hfind) as [Hrow' Hawb'].
      apply lookup_insert_Some in Hrow' as [[<- <-]|[_ Hrow']]; [done|].
      pose proof (findByAwb_None _ _ _ _ Hnew Hrow'). congruence.
    - pose proof (findByAwb_None _ _ new_id row Hfind
                    ltac:(by rewrite lookup_insert_eq)) as Hno.
      assert (awb_is (VStr a) row = true); [|congruence].
      apply awb_is_spec. by apply created_awb. }
  assert (Hmo : get row "medusa_order_id" = VStr oid).
  { unfold get, row. rewrite lookup_drop_undefined, Hlink. reflexivity. }
  assert (Hparam : awb_of (Some a) url = a).
  { unfold awb_of. by destruct (String.eqb_spec a ""). }
  unfold GET. rewrite Hparam.
  destruct (String.eqb_spec a "") as [|_]; [done|].
  rewrite Hfound, Hmo. cbn [truthy].
  destruct (String.eqb_spec oid "") as [|_]; [done|]. cbn [negb].
  unfold check_ownership. rewrite Hretrieve, Hcustomer. cbn [truthy].
  destruct (String.eqb_spec owner "") as [|_]; [done|]. cbn [negb andb].
  split.
  - intros ->. cbn [strict_ne]. rewrite String.eqb_refl. reflexivity.
  - intros Hne.
    assert (Hs : strict_ne (VStr owner) actor_id = true).
    { destruct actor_id as [| |b|n| |s| | |]; try done. cbn [strict_ne].
      destruct (String.eqb_spec owner s) as [->|]; [done|done]. }
    rewrite Hs. reflexivity.
Qed.

Definition first_notice : obj :=
  list_to_map
    [ ("awb", VStr "AWB9"); ("current_status", VStr "Shipped");
      ("order_id", VStr "order_01-1767608000") ].

Definition orders (order_id : val) : retrieval :=
  match order_id with
  | VStr "order_01" => Resolved (VObj (list_to_map [("customer_id", VStr "cus_1")]))
  | _ => Threw (Some "Order was not found")
  end.

Lemma webhook_links_tracking_to_owner_witness :
  let answer :=
    GET (Some "AWB9") None
      (snd (POST (Some "secret") (Some "secret") (VObj first_notice)
              "trk_2" one_row))
      orders (VStr "cus_2") in
  (VStr "cus_2" = VStr "cus_1" → status_of answer = 200) ∧
  (VStr "cus_2" ≠ VStr "cus_1" → status_of answer = 403).
Proof.
  apply (webhook_links_tracking_to_owner (Some "secret") (Some "secret")
           first_notice "trk_2" one_row "AWB9" "order_01" "1767608000" "cus_1"
           None orders (list_to_map [("customer_id", VStr "cus_1")]) (VStr "cus_2"));
    try discriminate; try (vm_compute; reflexivity).
Defined.

Lemma sync_data_fields (awb : string) (trackingResponse : obj) (now : Z) :
  get (sync_data awb trackingResponse now) "awb" = VStr awb ∧
  ∃ trackingData,
    sync_data awb trackingResponse now !! "current_status"
      = Some (sync_current_status trackingData).
Proof.
  unfold sync_data, get. split; [by lookup_literal|].
  eexists. by lookup_literal.
Qed.

(** After the pull path has stored an answer, the row found under the
    waybill holds a current status that is a text: never a number, never
    empty, never missing -- whatever the row held before. *)
Theorem pull_stores_text_status (new_id awb : string) (trackingResponse : obj)
    (now : Z) (t t' : table) (r : option (string * obj)) :
  unique_awb t →
  sync_upsert new_id awb trackingResponse now t = Some (r, t') →
  ∃ id row status,
    findByAwb (VStr awb) t' = Some (id, row) ∧
    row !! "current_status" = Some status ∧
    truthy status = true ∧ is_number status = false.
Proof.
  intros Hu. unfold sync_upsert.
  destruct (truthy (get trackingResponse "tracking_data")); [|done].
  intros [= Hup]. set (data := sync_data awb trackingResponse now) in *.
  destruct (sync_data_fields awb trackingResponse now) as (Hawb & td & Hcur).
  fold data in Hawb, Hcur.
  destruct (sync_current_status_is_text td) as [Htruthy Htext].
  pose proof (unique_awb_upsert new_id data t Hu) as Hu1.
  pose proof (upsertByAwb_table new_id data t) as Htab.
  rewrite Hup in Htab, Hu1. simpl in Htab, Hu1. rewrite Hawb in Htab.
  assert (Hmut : bool_decide ("current_status" ∈ mutable_fields) = true)
    by (vm_compute; reflexivity).
  assert (Hget : get data "current_status" = sync_current_status td).
  { unfold get. by rewrite Hcur. }
  assert (Hdef : is_undef (sync_current_status td) = false).
  { by destruct (sync_current_status td). }
  exists (match findByAwb (VStr awb) t with Some (id, _) => id | None => new_id end),
         (match findByAwb (VStr awb) t with
          | Some (_, row) => updateData data ∪ row
          | None => drop_undefined data
          end),
         (sync_current_status td).
  split; [|split; [|done]].
  - destruct (findByAwb (VStr awb) t) as [[id row]|] eqn:Hfind.
    + destruct (findByAwb_Some _ _ _ _ Hfind) as [Hrow Hrawb%awb_is_spec].
      apply found_is_the_row; [done| |by rewrite update_keeps_awb].
      by rewrite Htab, lookup_insert_eq.
    + apply found_is_the_row; [done| |by apply created_awb].
      by rewrite Htab, lookup_insert_eq.
  - destruct (findByAwb (VStr awb) t) as [[id row]|].
    + rewrite lookup_union, lookup_updateData, Hmut, Hget, Hdef. simpl.
      by destruct (row !! "current_status").
    + by rewrite lookup_drop_undefined, Hcur, Hdef.
Qed.

Definition raw_row : table :=
  {[ "trk_1" := list_to_map [("awb", VStr "AWB7"); ("current_status", VNum 7)] ]}.

Definition answer_7 : obj :=
  list_to_map
    [ ("tracking_data",
        VObj (list_to_map [("track_status", VNum 1); ("current_status", VNum 7)])) ].

Lemma unique_awb_raw_row : unique_awb raw_row.
Proof.
  intros id1 id2 row1 row2 a H1 H2 _ _. unfold raw_row in *.
  apply lookup_singleton_Some in H1 as [<- _].
  by apply lookup_singleton_Some in H2 as [<- _].
Qed.

Lemma pull_stores_text_status_witness :
  ∃ id row status,
    findByAwb (VStr "AWB7")
      (snd (upsertByAwb "trk_2" (sync_data "AWB7" answer_7 0) raw_row))
      = Some (id, row) ∧
    row !! "current_status" = Some status ∧
    truthy status = true ∧ is_number status = false.
Proof.
  apply (pull_stores_text_status "trk_2" "AWB7" answer_7 0 raw_row
           (snd (upsertByAwb "trk_2" (sync_data "AWB7" answer_7 0) raw_row))
           (fst (upsertByAwb "trk_2" (sync_data "AWB7" answer_7 0) raw_row))).
  - apply unique_awb_raw_row.
  - vm_compute. reflexivity.
Defined.

Example pull_replaces_raw_code :
  stored_field "current_status" "AWB7"
    (snd (upsertByAwb "trk_2" (sync_data "AWB7" answer_7 0) raw_row))
  = Some (VStr "Delivered").
Proof. vm_compute. reflexivity. Qed.

End LinkFacts.

(** ** The manager: token, retry and cache *)
Module EstimateFacts.
Import Http Selection Manager ManagerFacts.

Lemma map_set_length {V : Type} (k : string) (v : V) (m : list (string * V)) :
  (List.length (map_set k v m) <= S (List.length m))%nat.
Proof.
  induction m as [|[k' v'] m IH]; simpl; [lia|].
  destruct (String.eqb k' k); simpl; lia.
Qed.

Lemma map_set_keys {V : Type} (P : string -> Prop) (k : string) (v : V)
    (m : list (string * V)) :
  P k → Forall (fun p => P (fst p)) m → Forall (fun p => P (fst p)) (map_set k v m).
Proof.
  intros Hk. induction 1 as [|[k' v'] m Hp Hm IH]; simpl.
  - by constructor.
  - destruct (String.eqb k' k); by constructor.
Qed.

Lemma map_get_set {V : Type} (k : string) (v : V) (m : list (string * V)) :
  map_get k (map_set k v m) = Some v.
Proof.
  unfold map_get. induction m as [|[k' v'] m IH]; simpl.
  - by rewrite String.eqb_refl.
  - destruct (String.eqb k' k) eqn:E; simpl.
    + by rewrite String.eqb_refl.
    + by rewrite E.
Qed.

Lemma map_get_set_ne {V : Type} (k k0 : string) (v : V) (m : list (string * V)) :
  k0 ≠ k → map_get k (map_set k0 v m) = map_get k m.
Proof.
  intros Hne. unfold map_get. induction m as [|[k' v'] m IH]; simpl.
  - by destruct (String.eqb_spec k0 k).
  - destruct (String.eqb_spec k' k0) as [->|Hk]; simpl.
    + by destruct (String.eqb_spec k0 k).
    + destruct (String.eqb k' k); [done|apply IH].
Qed.

Lemma map_get_delete_Some {V : Type} (k k0 : string) (v : V) (m : list (string * V)) :
  map_get k (map_delete k0 m) = Some v → map_get k m = Some v.
Proof.
  destruct (String.eqb_spec k0 k) as [->|Hne]; [by rewrite map_get_delete|].
  unfold map_get, map_delete. induction m as [|[k' v'] m IH]; simpl; [done|].
  destruct (String.eqb_spec k' k0) as [->|Hk]; simpl.
  - by destruct (String.eqb_spec k0 k).
  - destruct (String.eqb k' k); [done|apply IH].
Qed.

Lemma evict_oldest_get (k : string) (c : CachedDeliveryEstimate)
    (cache : list (string * CachedDeliveryEstimate)) :
  map_get k (evict_oldest cache) = Some c → map_get k cache = Some c.
Proof.
  unfold evict_oldest. destruct (maxCacheSize <=? List.length cache)%nat; [|done].
  destruct cache as [|[firstKey e] rest]; [done|].
  destruct (String.eqb firstKey ""); [done|]. apply map_get_delete_Some.
Qed.

(** The cache holds at most [maxCacheSize] entries, none under the empty
    key. *)
Definition cache_ok (cache : list (string * CachedDeliveryEstimate)) : Prop :=
  (List.length cache <= maxCacheSize)%nat ∧ Forall (fun p => fst p ≠ "") cache.

Lemma evict_oldest_makes_room (cache : list (string * CachedDeliveryEstimate)) :
  cache_ok cache →
  (List.length (evict_oldest cache) < maxCacheSize)%nat ∧
  Forall (fun p => fst p ≠ "") (evict_oldest cache).
Proof.
  intros [Hlen Hkeys]. unfold evict_oldest.
  destruct (Nat.leb_spec maxCacheSize (List.length cache)) as [Hfull|Hroom];
    [|by split].
  destruct cache as [|[firstKey e] rest]; [simpl in Hfull; unfold maxCacheSize in *; lia|].
  apply Forall_cons in Hkeys as [Hk Hrest]. simpl in Hk.
  destruct (String.eqb_spec firstKey "") as [|_]; [done|].
  unfold map_delete. simpl. rewrite String.eqb_refl. simpl. split.
  - pose proof (filter_length_le (fun p : string * CachedDeliveryEstimate =>
                  negb (String.eqb (fst p) firstKey)) rest) as Hle.
    simpl in Hlen. lia.
  - apply Forall_forall. intros p Hp.
    apply list_elem_of_In, filter_In in Hp as [Hp _].
    by apply (proj1 (Forall_forall _ _) Hrest), list_elem_of_In.
Qed.

Section Estimates.
Context (numToString : float -> string) (carrier : Carrier)
        (email password deliveryPreference : string).

Local Abbreviation getDeliveryEstimate :=
  (getDeliveryEstimate numToString carrier email password deliveryPreference).
Local Abbreviation cacheKey := (Manager.cacheKey numToString).
Local Abbreviation send := (Manager.send carrier).
Local Abbreviation request := (Manager.request carrier email password).
Local Abbreviation doRefreshToken := (Manager.doRefreshToken carrier email password).
Local Abbreviation ensureToken := (Manager.ensureToken carrier email password).
Local Abbreviation fetch_estimate :=
  (Manager.fetch_estimate carrier email password deliveryPreference).

(** *** What an exchange leaves of the state *)

Lemma send_state (r : Request) (st : State) :
  deliveryEstimateCache (snd (send r st)) = deliveryEstimateCache st ∧
  cachedToken (snd (send r st)) = cachedToken st ∧
  clock st <= clock (snd (send r st)).
Proof.
  unfold Manager.send.
  destruct (carrier (sent st) (clock st) r); simpl; repeat split; lia.
Qed.

Lemma doRefreshToken_cases (st : State) :
  deliveryEstimateCache (snd (doRefreshToken st)) = deliveryEstimateCache st ∧
  match fst (doRefreshToken st) with
  | Ok _ => isTokenValid (snd (doRefreshToken st)) = true
  | Throw e =>
      cachedToken (snd (doRefreshToken st)) = cachedToken st ∧
      ∃ msg, e = MedusaError INVALID_DATA msg
  end.
Proof.
  unfold Manager.doRefreshToken, try_catch, bind, Manager.send.
  destruct (carrier (sent st) (clock st) (Login email password))
    as [body latency|resp code m latency]; simpl.
  - destruct body as [[tok|]| | | |]; simpl; eauto.
    destruct (String.eqb tok ""); simpl; [eauto|].
    split; [done|]. unfold isTokenValid, TOKEN_REFRESH_BUFFER_DAYS. simpl.
    apply Z.ltb_lt. lia.
  - eauto.
Qed.

Lemma request_cache (r : Request) (st : State) :
  deliveryEstimateCache (snd (request r st)) = deliveryEstimateCache st.
Proof.
  unfold Manager.request, try_catch.
  destruct (send_state r st) as (Hc & _).
  destruct (send r st) as [[body|e] st1]; simpl in Hc; [done|].
  destruct (status_is e 401 && negb (is_login r)); [|done].
  unfold bind, refreshToken.
  destruct (doRefreshToken_cases st1) as (Hc1 & _).
  destruct (doRefreshToken st1) as [[[]|e'] st2]; simpl in Hc1;
    [|simpl; congruence].
  destruct (send_state r st2) as (Hc2 & _). simpl. congruence.
Qed.

(** *** The token *)


(** A login that fails leaves the cached token as it was, and what it
    throws is an INVALID_DATA error, also when the failure is one of the
    network. *)
Theorem failed_login_keeps_token (st st' : State) (e : exn) :
  doRefreshToken st = (Throw e, st') →
  cachedToken st' = cachedToken st ∧ ∃ msg, e = MedusaError INVALID_DATA msg.
Proof.
  destruct (doRefreshToken_cases st) as (_ & H). intros Heq.
  rewrite Heq in H. done.
Qed.

(** *** The retry of the response interceptor *)


(** *** The estimate cache *)

Lemma fetch_estimate_cases (data : EstimateRequest) (key : string) (w c : float)
    (st : State) :
  match fst (fetch_estimate data key w c st) with
  | Ok r =>
      deliveryEstimateCache (snd (fetch_estimate data key w c st)) =
        map_set key
          {| response := r;
             expiresAt := clock (snd (fetch_estimate data key w c st)) +
                          DELIVERY_ESTIMATE_CACHE_HOURS * 60 * 60 * 1000 |}
          (deliveryEstimateCache st)
  | Throw e =>
      is_MedusaError e = true ∧
      deliveryEstimateCache (snd (fetch_estimate data key w c st)) =
        deliveryEstimateCache st
  end.
Proof.
  unfold Manager.fetch_estimate, try_catch, bind.
  pose proof (request_cache (GetServiceability (pickup_postcode data)
                               (delivery_postcode data) w c) st) as Hc.
  destruct (request _ st) as [[body|e] st1]; simpl in Hc.
  - destruct (match body with CouriersBody l => l | _ => [] end) as [|x l];
      simpl; [by rewrite Hc|].
    destruct (selectCourier deliveryPreference (x :: l)); simpl; by rewrite Hc.
  - by destruct e.
Qed.

(** The request of a call that finds no fresh entry, and the rest of
    [getDeliveryEstimate] once the token is ensured and the oldest entry
    of a full cache is deleted. *)
Definition fetch (data : EstimateRequest) : M Estimate :=
  fetch_estimate data (cacheKey data)
    (number_or (weight data) 0.5%float) (number_or (cod data) 0%float).

Definition lookup_or_fetch (data : EstimateRequest) : M Estimate :=
  fun st =>
    match map_get (cacheKey data) (deliveryEstimateCache st) with
    | Some cached =>
        if (clock st <? expiresAt cached)%Z then (Ok (response cached), st)
        else fetch data st
    | None => fetch data st
    end.

Lemma getDeliveryEstimate_steps (data : EstimateRequest) (st : State) :
  getDeliveryEstimate data st =
  match ensureToken st with
  | (Ok _, st1) =>
      lookup_or_fetch data (with_cache (evict_oldest (deliveryEstimateCache st1)) st1)
  | (Throw e, st1) => (Throw e, st1)
  end.
Proof.
  unfold Manager.getDeliveryEstimate, bind, read, lookup_or_fetch, fetch.
  destruct (ensureToken st) as [[[]|e] st1]; [|done].
  cbn [deliveryEstimateCache with_cache].
  destruct (map_get (cacheKey data) (evict_oldest (deliveryEstimateCache st1)))
    as [cached|]; [|done].
  by destruct (clock _ <? expiresAt cached)%Z.
Qed.

Lemma ensureToken_cases (st : State) :
  deliveryEstimateCache (snd (ensureToken st)) = deliveryEstimateCache st ∧
  match fst (ensureToken st) with
  | Ok _ => isTokenValid (snd (ensureToken st)) = true
  | Throw e => ∃ msg, e = MedusaError INVALID_DATA msg
  end.
Proof.
  unfold Manager.ensureToken, refreshToken.
  destruct (isTokenValid st) eqn:Hv; [done|].
  destruct (doRefreshToken_cases st) as (Hc & H). split; [done|].
  destruct (fst (doRefreshToken st)); [done|]. by destruct H.
Qed.

(** What a call leaves once the token is ensured: an answer is in the
    cache and has not expired; a failure is a [MedusaError] and leaves
    the cache as it was. *)
Definition answered (data : EstimateRequest) (st : State)
    (out : Result Estimate * State) : Prop :=
  match fst out with
  | Ok r =>
      ∃ c, map_get (cacheKey data) (deliveryEstimateCache (snd out)) = Some c ∧
           response c = r ∧ clock (snd out) < expiresAt c ∧
           (deliveryEstimateCache (snd out) = deliveryEstimateCache st ∨
            deliveryEstimateCache (snd out) =
              map_set (cacheKey data) c (deliveryEstimateCache st))
  | Throw e =>
      is_MedusaError e = true ∧
      deliveryEstimateCache (snd out) = deliveryEstimateCache st
  end.

Lemma fetch_answered (data : EstimateRequest) (st : State) :
  answered data st (fetch data st).
Proof.
  unfold answered, fetch.
  pose proof (fetch_estimate_cases data (cacheKey data)
                (number_or (weight data) 0.5%float) (number_or (cod data) 0%float) st)
    as Hf.
  destruct (fst (fetch_estimate _ _ _ _ st)) as [r|e]; [|done].
  eexists. rewrite Hf. split; [apply map_get_set|]. split; [done|].
  split; [|by right]. unfold DELIVERY_ESTIMATE_CACHE_HOURS. simpl. lia.
Qed.

Lemma lookup_or_fetch_answered (data : EstimateRequest) (st : State) :
  answered data st (lookup_or_fetch data st).
Proof.
  unfold lookup_or_fetch.
  destruct (map_get (cacheKey data) (deliveryEstimateCache st)) as [cached|] eqn:Hget;
    [|apply fetch_answered].
  destruct (Z.ltb_spec (clock st) (expiresAt cached)); [|apply fetch_answered].
  exists cached. simpl. split; [done|]. split; [done|]. split; [done|by left].
Qed.

Lemma getDeliveryEstimate_cache_ok (data : EstimateRequest) (st : State) :
  cache_ok (deliveryEstimateCache st) →
  cache_ok (deliveryEstimateCache (snd (getDeliveryEstimate data st))).
Proof.
  intros Hok. rewrite getDeliveryEstimate_steps.
  destruct (ensureToken_cases st) as (Hc & _).
  destruct (ensureToken st) as [[[]|e] st1]; simpl in Hc; [|simpl; by rewrite Hc].
  rewrite Hc. destruct (evict_oldest_makes_room _ Hok) as [Hroom Hkeys].
  set (st2 := with_cache (evict_oldest (deliveryEstimateCache st)) st1).
  pose proof (lookup_or_fetch_answered data st2) as H. unfold answered in H.
  destruct (fst (lookup_or_fetch data st2)) as [r|e'].
  - destruct H as (c & _ & _ & _ & [->| ->]); simpl.
    + split; [lia|done].
    + split.
      * etrans; [apply map_set_length|]. lia.
      * apply (map_set_keys (fun k => k ≠ "")); [apply cacheKey_nonempty|done].
  - destruct H as [_ ->]. simpl. split; [lia|done].
Qed.

(** Calls that run one after another: each is made when the one before
    has returned, after a wait during which the clock advances. *)
Fixpoint calls_in_turn (calls : list (Z * EstimateRequest)) (st : State) : State :=
  match calls with
  | [] => st
  | (wait, data) :: rest =>
      calls_in_turn rest
        (snd (getDeliveryEstimate data (with_clock (clock st + wait) st)))
  end.

(** Calls that run one after another never leave more than
    [maxCacheSize] entries in the cache. *)
Theorem estimate_cache_stays_bounded (calls : list (Z * EstimateRequest))
    (st : State) :
  cache_ok (deliveryEstimateCache st) →
  cache_ok (deliveryEstimateCache (calls_in_turn calls st)).
Proof.
  revert st. induction calls as [|[wait data] calls IH]; intros st Hok; [done|].
  simpl. apply IH. by apply getDeliveryEstimate_cache_ok.
Qed.

(** A call that fails throws a [MedusaError] and adds nothing to the
    cache. *)
Theorem failed_estimate_is_not_cached (data : EstimateRequest) (st st' : State)
    (e : exn) :
  getDeliveryEstimate data st = (Throw e, st') →
  is_MedusaError e = true ∧
  ∀ k c, map_get k (deliveryEstimateCache st') = Some c →
         map_get k (deliveryEstimateCache st) = Some c.
Proof.
  rewrite getDeliveryEstimate_steps.
  destruct (ensureToken_cases st) as (Hc & He).
  destruct (ensureToken st) as [[[]|e0] st1]; simpl in Hc, He.
  - set (st2 := with_cache (evict_oldest (deliveryEstimateCache st1)) st1).
    pose proof (lookup_or_fetch_answered data st2) as H. unfold answered in H. intros Heq.
    rewrite Heq in H. destruct H as [Hm Hcache]. split; [done|].
    simpl in Hcache. rewrite Hcache, Hc. intros k c. apply evict_oldest_get.
  - intros [= <- <-]. destruct He as [msg ->]. split; [done|]. by rewrite Hc.
Qed.



End Estimates.

(** *** Concrete runs *)

(** A carrier that issues a token and serves no route, one that refuses
    every request, and a manager that has not logged in yet. *)
Definition issuing : Carrier :=
  fun _ _ r =>
    match r with
    | Login _ _ => Replied (TokenBody (Some "token-1")) 250
    | _ => Replied (CouriersBody []) 80
    end.

Definition refusing : Carrier :=
  fun _ _ _ =>
    Failed (Some (500, JObj [("message", JStr "Internal error")])) None
      "Request failed with status code 500" 40.

Definition signed_out : State :=
  {| clock := 1767605400000; cachedToken := None;
     deliveryEstimateCache := []; sent := [] |}.

Definition to_mumbai : EstimateRequest :=
  {| pickup_postcode := "110001"; delivery_postcode := "400001";
     weight := None; cod := None |}.


Example login_expires_after_eight_days :
  cachedToken (snd (ensureToken issuing "merchant@example.com" "secret" signed_out))
  = Some {| token := "token-1";
            token_expiresAt := 1767605400000 + 250 + 691200000 |}.
Proof. reflexivity. Qed.

(** A carrier that answers 401 to everything but the login. *)
Definition unauthorized : Carrier :=
  fun _ _ r =>
    match r with
    | Login _ _ => Replied (TokenBody (Some "token-2")) 250
    | _ =>
        Failed (Some (401, JObj [("message", JStr "Unauthenticated")])) None
          "Request failed with status code 401" 40
    end.

Example second_401_is_not_retried :
  let out := request unauthorized "merchant@example.com" "secret"
               (CancelOrders ["SR-77"]) signed_out in
  fst out = Throw (AxiosError (Some (401, JObj [("message", JStr "Unauthenticated")]))
                     None "Request failed with status code 401") ∧
  sent (snd out) =
    [ CancelOrders ["SR-77"]; Login "merchant@example.com" "secret";
      CancelOrders ["SR-77"] ].
Proof. split; reflexivity. Qed.

Lemma failed_login_keeps_token_witness :
  ∃ e st',
    doRefreshToken refusing "merchant@example.com" "secret" signed_out
      = (Throw e, st') ∧
    cachedToken st' = cachedToken signed_out ∧
    ∃ msg, e = MedusaError INVALID_DATA msg.
Proof.
  destruct (doRefreshToken refusing "merchant@example.com" "secret" signed_out)
    as [[[]|e] st'] eqn:Hrun.
  - exfalso. vm_compute in Hrun. discriminate Hrun.
  - exists e, st'. split; [reflexivity|].
    exact (failed_login_keeps_token refusing "merchant@example.com" "secret"
             signed_out st' e Hrun).
Defined.

Lemma estimate_cache_stays_bounded_witness :
  cache_ok
    (deliveryEstimateCache
       (calls_in_turn show_number issuing "merchant@example.com" "secret" "FAST"
          [(0, to_mumbai); (3600000, to_mumbai)] signed_out)).
Proof.
  apply (estimate_cache_stays_bounded show_number issuing
           "merchant@example.com" "secret" "FAST"
           [(0, to_mumbai); (3600000, to_mumbai)] signed_out).
  split; [simpl; unfold maxCacheSize; lia|constructor].
Defined.

Lemma failed_estimate_is_not_cached_witness :
  ∃ e st',
    getDeliveryEstimate (fun _ => "0") refusing "merchant@example.com" "secret"
      "FAST" to_mumbai signed_out = (Throw e, st') ∧
    is_MedusaError e = true ∧
    ∀ k c, map_get k (deliveryEstimateCache st') = Some c →
           map_get k (deliveryEstimateCache signed_out) = Some c.
Proof.
  destruct (getDeliveryEstimate (fun _ => "0") refusing "merchant@example.com"
              "secret" "FAST" to_mumbai signed_out) as [[r|e] st'] eqn:Hrun.
  - exfalso. vm_compute in Hrun. discriminate Hrun.
  - exists e, st'. split; [reflexivity|].
    exact (failed_estimate_is_not_cached (fun _ => "0") refusing
             "merchant@example.com" "secret" "FAST" to_mumbai signed_out st' e Hrun).
Defined.


Example estimate_is_served_again :
  let first := getDeliveryEstimate (fun _ => "0") issuing "merchant@example.com"
                 "secret" "FAST" to_mumbai signed_out in
  let second := getDeliveryEstimate (fun _ => "0") issuing "merchant@example.com"
                  "secret" "FAST" to_mumbai
                  (with_clock 1767609000000 (snd first)) in
  fst second = fst first ∧ sent (snd second) = sent (snd first) ∧
  sent (snd first) =
    [ Login "merchant@example.com" "secret";
      GetServiceability "110001" "400001" 0.5%float 0%float ].
Proof. vm_compute. repeat split; reflexivity. Qed.

End EstimateFacts.

(** ** [create] and [cancel]: what is sent, and what is undone *)
Module CreateFacts.
Import Http Selection Manager Validation Client ManagerFacts ClientFacts EstimateFacts.

(** The requests sent so far are kept, and others may have followed. *)
Definition extends (st st' : State) : Prop :=
  ∃ more, sent st' = (sent st ++ more)%list.

Lemma extends_refl (st : State) : extends st st.
Proof. exists []. by rewrite app_nil_r. Qed.

Lemma extends_trans (st1 st2 st3 : State) :
  extends st1 st2 → extends st2 st3 → extends st1 st3.
Proof.
  intros [m1 H1] [m2 H2]. exists (m1 ++ m2)%list. by rewrite H2, H1, app_assoc.
Qed.

Lemma extends_elem (r : Request) (st st' : State) :
  extends st st' → r ∈ sent st → r ∈ sent st'.
Proof. intros [more ->] H. apply elem_of_app. by left. Qed.

Section Create.
Context (numToString : float -> string) (carrier : Carrier)
        (email password deliveryPreference : string)
        (pickup_location : option string).

Local Abbreviation ensureToken := (Manager.ensureToken carrier email password).
Local Abbreviation request := (Manager.request carrier email password).
Local Abbreviation getDeliveryEstimate :=
  (Manager.getDeliveryEstimate numToString carrier email password deliveryPreference).
Local Abbreviation post := (Client.post carrier email password false).
Local Abbreviation cancel := (Client.cancel carrier email password false).
Local Abbreviation courier_preference :=
  (Client.courier_preference numToString carrier email password deliveryPreference).
Local Abbreviation create :=
  (Client.create numToString carrier email password deliveryPreference
     pickup_location).

Lemma ensureToken_extends (st : State) : extends st (snd (ensureToken st)).
Proof.
  unfold Manager.ensureToken, refreshToken.
  destruct (isTokenValid st); [apply extends_refl|].
  eexists. apply doRefreshToken_sent.
Qed.

Lemma request_extends (r : Request) (st : State) : extends st (snd (request r st)).
Proof. destruct (request_sent carrier email password r st) as [more H]. by eexists. Qed.

Lemma request_sends (r : Request) (st : State) : r ∈ sent (snd (request r st)).
Proof.
  destruct (request_sent carrier email password r st) as [more ->].
  apply elem_of_app. right. by left.
Qed.

Lemma getDeliveryEstimate_extends (data : EstimateRequest) (st : State) :
  extends st (snd (getDeliveryEstimate data st)).
Proof.
  rewrite getDeliveryEstimate_steps.
  pose proof (ensureToken_extends st) as He.
  destruct (Manager.ensureToken carrier email password st) as [[[]|e] st1];
    [|done].
  apply (extends_trans _ st1); [done|].
  unfold lookup_or_fetch, fetch. cbn [deliveryEstimateCache with_cache].
  assert (Hf : extends st1
            (snd (fetch_estimate carrier email password deliveryPreference data
                    (cacheKey numToString data)
                    (number_or (weight data) 0.5%float) (number_or (cod data) 0%float)
                    (with_cache (evict_oldest (deliveryEstimateCache st1)) st1)))).
  { destruct (fetch_estimate_sent carrier email password deliveryPreference data
                (cacheKey numToString data)
                (number_or (weight data) 0.5%float) (number_or (cod data) 0%float)
                (with_cache (evict_oldest (deliveryEstimateCache st1)) st1))
      as [more H].
    by eexists. }
  destruct (map_get _ _) as [cached|]; [|done].
  destruct (_ <? _)%Z; [|done].
  exists []. simpl. by rewrite app_nil_r.
Qed.

(** The courier preference never fails: an error inside it leaves the
    choice to the carrier. *)
Lemma courier_preference_returns (shipping billing : Order.Party)
    (order : Order.HostOrder) (w : float) (st : State) :
  ∃ c, fst (courier_preference shipping billing order w st) = Ok c ∧
       extends st (snd (courier_preference shipping billing order w st)).
Proof.
  unfold Client.courier_preference, try_catch.
  destruct (sor (Order.postal_code shipping) (Order.zip shipping)) as [pickup|];
    [|exists None; split; [done|apply extends_refl]].
  destruct (sor (Order.postal_code billing) (Order.zip billing)) as [delivery|];
    [|exists None; split; [done|apply extends_refl]].
  unfold getPreferredCourier, bind.
  match goal with
  | |- context [Manager.getDeliveryEstimate _ _ _ _ _ ?d st] =>
      pose proof (getDeliveryEstimate_extends d st) as He;
      destruct (Manager.getDeliveryEstimate numToString carrier email password
                  deliveryPreference d st) as [[r|e] st1]
  end; simpl in *; eauto.
Qed.

Lemma post_extends (r : Request) (st : State) : extends st (snd (post r st)).
Proof.
  unfold Client.post, getSharedAxios, getAxios, bind.
  pose proof (ensureToken_extends st) as He.
  destruct (Manager.ensureToken carrier email password st) as [[[]|e] st1];
    [|done].
  apply (extends_trans _ st1); [done|apply request_extends].
Qed.

Lemma cancel_extends (orderId : string) (st : State) :
  extends st (snd (cancel orderId st)).
Proof.
  unfold Client.cancel, try_catch, bind.
  pose proof (post_extends (CancelOrders [orderId]) st) as He.
  destruct (Client.post carrier email password false (CancelOrders [orderId]) st)
    as [[body|e] st1]; [done|].
  destruct (response_data e) as [apiError|]; [|done].
  by destruct (_ || _ || _).
Qed.

(** *** A carrier that creates the order and assigns no waybill *)

Section NoWaybill.
Context (shipment : Z) (remote_id : string) (courier : option string).

(** The carrier issues a token at every login, creates every order as
    shipment [shipment] of its order [remote_id], and answers every
    request for a waybill with a status other than 1. *)
Hypothesis issues_token :
  ∀ h t, ∃ tok latency,
    carrier h t (Login email password) = Replied (TokenBody (Some tok)) latency ∧
    tok ≠ "".
Hypothesis creates_order :
  ∀ h t orderData, ∃ latency,
    carrier h t (CreateAdhocOrder orderData) =
      Replied (OrderBody (Some shipment) remote_id courier) latency.
Hypothesis assigns_no_waybill :
  ∀ h t s c, ∃ status message awb_code company name latency,
    carrier h t (AssignAwb s c) =
      Replied (AwbBody status message awb_code company name) latency ∧
    status ≠ 1.

Lemma ensureToken_succeeds (st : State) :
  fst (ensureToken st) = Ok tt.
Proof.
  unfold Manager.ensureToken, refreshToken.
  destruct (isTokenValid st); [done|].
  unfold Manager.doRefreshToken, try_catch, bind, Manager.send.
  destruct (issues_token (sent st) (clock st)) as (tok & latency & -> & Htok).
  simpl. by destruct (String.eqb_spec tok "").
Qed.

Lemma request_replied (r : Request) (body : Body) (st : State) :
  (∀ h t, ∃ latency, carrier h t r = Replied body latency) →
  fst (request r st) = Ok body.
Proof.
  intros Hr. unfold Manager.request, try_catch, Manager.send.
  by destruct (Hr (sent st) (clock st)) as [latency ->].
Qed.

Lemma post_replied (r : Request) (st : State) :
  (∀ h t, ∃ body latency, carrier h t r = Replied body latency) →
  ∃ body latency h t,
    fst (post r st) = Ok body ∧ carrier h t r = Replied body latency ∧
    r ∈ sent (snd (post r st)).
Proof.
  intros Hr. unfold Client.post, getSharedAxios, getAxios, bind.
  pose proof (ensureToken_succeeds st) as Hok.
  destruct (Manager.ensureToken carrier email password st) as [res st1].
  simpl in Hok. subst res.
  pose proof (request_sends r st1) as Hin.
  unfold Manager.request, try_catch, Manager.send in *.
  destruct (Hr (sent st1) (clock st1)) as (body & latency & Heq).
  exists body, latency, (sent st1), (clock st1).
  rewrite Heq in Hin |- *. simpl in *. split; [done|split; [done|exact Hin]].
Qed.

Lemma cancel_is_sent (orderId : string) (st : State) :
  CancelOrders [orderId] ∈ sent (snd (cancel orderId st)).
Proof.
  unfold Client.cancel, Client.post, getSharedAxios, getAxios, try_catch, bind.
  pose proof (ensureToken_succeeds st) as Hok.
  destruct (Manager.ensureToken carrier email password st) as [res st1].
  simpl in Hok. subst res.
  pose proof (request_sends (CancelOrders [orderId]) st1) as Hin.
  destruct (Manager.request carrier email password (CancelOrders [orderId]) st1)
    as [[body|e] st2]; simpl in *; [done|].
  destruct (response_data e) as [apiError|]; [|done].
  by destruct (_ || _ || _).
Qed.

(** When the carrier has created the order and then assigns no waybill,
    [create] asks the carrier to cancel that order and throws a
    NOT_ALLOWED error. *)
Theorem create_cancels_order_without_waybill
    (fulfillment : option Order.Fulfillment)
    (items : list Order.FulfillmentItem) (order : Order.HostOrder)
    (orderData : Order.OrderData) (st : State) :
  shipment ≠ 0 →
  build_orderData (clock st) pickup_location fulfillment items order
    = Ok orderData →
  ∃ msg st',
    create false fulfillment items (Some order) st
      = (Throw (MedusaError NOT_ALLOWED msg), st') ∧
    CreateAdhocOrder orderData ∈ sent st' ∧
    CancelOrders [remote_id] ∈ sent st'.
Proof.
  intros Hship Hbuild.
  (* the token *)
  pose proof (ensureToken_succeeds st) as Hok.
  destruct (Manager.ensureToken carrier email password st) as [res st1] eqn:H1.
  simpl in Hok. subst res.
  (* the order *)
  pose proof (request_replied (CreateAdhocOrder orderData)
                (OrderBody (Some shipment) remote_id courier) st1
                (fun h t => creates_order h t orderData)) as Hcreated.
  pose proof (request_sends (CreateAdhocOrder orderData) st1) as Hsent.
  destruct (Manager.request carrier email password (CreateAdhocOrder orderData) st1)
    as [res st2] eqn:H2.
  simpl in Hcreated, Hsent. subst res.
  (* the courier *)
  destruct (courier_preference_returns (shipping_of fulfillment order)
              (billing_of order) order (Order.weight orderData) st2)
    as (c & Hc & Hext3).
  destruct (Client.courier_preference numToString carrier email password
              deliveryPreference (shipping_of fulfillment order)
              (billing_of order) order (Order.weight orderData) st2)
    as [res st3] eqn:H3.
  simpl in Hc, Hext3. subst res.
  set (courier_id := match c with
                     | Some c0 => if (c0 =? 0)%Z then None else Some c0
                     | None => None
                     end) in *.
  (* the waybill *)
  destruct (post_replied (AssignAwb shipment courier_id) st3) as
    (body & latency & h & t & Hpost & Hreply & _).
  { intros h t.
    destruct (assigns_no_waybill h t shipment courier_id)
      as (status & message & awb_code & company & name & latency & Heq & _).
    eauto. }
  pose proof (post_extends (AssignAwb shipment courier_id) st3) as Hext4.
  destruct (Client.post carrier email password false
              (AssignAwb shipment courier_id) st3) as [res st4] eqn:H4.
  simpl in Hpost, Hext4. subst res.
  destruct (assigns_no_waybill h t shipment courier_id)
    as (status & message & awb_code & company & name & latency' & Heq & Hstatus).
  rewrite Heq in Hreply. injection Hreply as <- _.
  (* the cancellation *)
  pose proof (cancel_is_sent remote_id st4) as Hcancel.
  pose proof (cancel_extends remote_id st4) as Hext5.
  destruct (Client.cancel carrier email password false remote_id st4)
    as [res st5] eqn:H5.
  simpl in Hcancel, Hext5.
  exists (default "AWB assignment failed - no courier available" (nonempty message)),
         st5.
  split; [|split; [|done]].
  - unfold Client.create, try_catch at 1.
    unfold bind at 1, read. unfold bind at 1, lift. rewrite Hbuild.
    unfold bind at 1, getSharedAxios, getAxios. rewrite H1.
    unfold bind at 1, try_catch at 1. rewrite H2.
    destruct (Z.eqb_spec shipment 0) as [|_]; [done|].
    unfold bind at 1. rewrite H3. fold courier_id.
    unfold bind at 1. rewrite H4.
    destruct (Z.eqb_spec status 1) as [|_]; [done|].
    unfold bind at 1, try_catch at 1. rewrite H5.
    by destruct res.
  - eapply extends_elem; [|exact Hsent].
    eapply extends_trans; [exact Hext3|].
    eapply extends_trans; [exact Hext4|exact Hext5].
Qed.

End NoWaybill.

End Create.

(** *** Concrete runs *)

(** A carrier that creates every order and assigns no waybill. *)
Definition no_waybill : Carrier :=
  fun _ _ r =>
    match r with
    | Login _ _ => Replied (TokenBody (Some "token-1")) 250
    | CreateAdhocOrder _ => Replied (OrderBody (Some 9001) "SR-77" None) 300
    | AssignAwb _ _ =>
        Replied (AwbBody 0 (Some "No courier serviceable") "" 0 None) 200
    | _ => Replied (CouriersBody []) 80
    end.

Lemma create_cancels_order_without_waybill_witness :
  ∃ orderData msg st',
    build_orderData (clock idle) None None two_items (order_of two_lines)
      = Ok orderData ∧
    Client.create (fun _ => "0") no_waybill "merchant@example.com" "secret" "FAST"
      None false None two_items (Some (order_of two_lines)) idle
      = (Throw (MedusaError NOT_ALLOWED msg), st') ∧
    CreateAdhocOrder orderData ∈ sent st' ∧
    CancelOrders ["SR-77"] ∈ sent st'.
Proof.
  destruct (build_orderData (clock idle) None None two_items (order_of two_lines))
    as [orderData|e] eqn:Hbuild.
  - exists orderData.
    destruct (create_cancels_order_without_waybill (fun _ => "0") no_waybill
                "merchant@example.com" "secret" "FAST" None 9001 "SR-77" None
                ltac:(intros; exists "token-1", 250%N; split; [reflexivity|discriminate])
                ltac:(intros; exists 300%N; reflexivity)
                ltac:(intros; exists 0, (Some "No courier serviceable"), "", 0,
                        None, 200%N; split; [reflexivity|discriminate])
                None two_items (order_of two_lines) orderData idle
                ltac:(discriminate) Hbuild)
      as (msg & st' & Hrun & Hcreate & Hcancel).
    exists msg, st'. split; [reflexivity|]. split; [exact Hrun|].
    split; [exact Hcreate|exact Hcancel].
  - exfalso. vm_compute in Hbuild. discriminate Hbuild.
Defined.

Example no_waybill_requests :
  map (fun r => match r with
                | Login _ _ => "login"
                | GetServiceability _ _ _ _ => "serviceability"
                | CreateAdhocOrder _ => "create"
                | AssignAwb _ _ => "assign"
                | CancelOrders _ => "cancel"
                end)
      (sent (snd (Client.create (fun _ => "0") no_waybill "merchant@example.com"
                    "secret" "FAST" None false None two_items
                    (Some (order_of two_lines)) idle)))
  = ["create"; "serviceability"; "assign"; "cancel"].
Proof. vm_compute. reflexivity. Qed.

(** *** A payload that cannot be built *)

Section Payload.
Context (numToString : float -> string) (carrier : Carrier)
        (email password deliveryPreference : string)
        (pickup_location : option string) (isDisposed : bool).

(** When the payload cannot be built -- an item, an address field, a
    pincode or a phone number fails validation -- [create] throws a
    [MedusaError] and the state after is the state before: nothing was
    sent, whether or not the client holds a token. *)
Theorem create_sends_nothing_without_payload
    (fulfillment : option Order.Fulfillment)
    (items : list Order.FulfillmentItem) (order : Order.HostOrder)
    (st : State) (e : exn) :
  build_orderData (clock st) pickup_location fulfillment items order = Throw e →
  ∃ ty msg,
    Client.create numToString carrier email password deliveryPreference
      pickup_location isDisposed fulfillment items (Some order) st
    = (Throw (MedusaError ty msg), st).
Proof.
  intros H. unfold Client.create, try_catch, bind, read, lift. rewrite H.
  destruct e as [ty msg|resp code msg|msg]; simpl; [by eauto| |].
  - destruct (handleError_typed (AxiosError resp code msg) "create")
      as (ty & m & ->). eauto.
  - destruct (handleError_typed (TypeError msg) "create") as (ty & m & ->). eauto.
Qed.

(** A rejection that carries no response body -- the network failed, or
    the error is not one of the carrier -- makes [cancel] throw a
    [TypeError]: the body it inspects is [undefined]. *)
Theorem cancel_without_response_throws_TypeError (orderId : string)
    (st st' : State) (error : exn) :
  Client.post carrier email password isDisposed (CancelOrders [orderId]) st
    = (Throw error, st') →
  response_data error = None →
  ∃ msg, Client.cancel carrier email password isDisposed orderId st
         = (Throw (TypeError msg), st').
Proof.
  intros Hpost Hdata. unfold Client.cancel, try_catch, bind.
  rewrite Hpost, Hdata. eauto.
Qed.

End Payload.

(** An order whose shipping phone carries the country code. *)
Definition with_country_code : Order.HostOrder :=
  {| Order.id := "order_02";
     Order.created_at :=
       {| Order.date := 5; Order.month := 0; Order.fullYear := 2026;
          Order.hours := 9; Order.minutes := 30 |};
     Order.items := Some two_lines;
     Order.shipping_address :=
       Some {| Order.first_name := Some "Asha"; Order.last_name := Some "Rao";
               Order.address_1 := Some "12 MG Road"; Order.address_2 := None;
               Order.city := Some "Bengaluru"; Order.postal_code := Some "560001";
               Order.zip := None; Order.province := Some "Karnataka";
               Order.country_code := Some "IN";
               Order.phone := Some "+91 98765 43210";
               Order.email := Some "asha@example.com" |};
     Order.billing_address := Some home;
     Order.customer := None; Order.order_email := None;
     Order.payment_status := Some "captured" |}.

Lemma create_sends_nothing_without_payload_witness :
  ∃ ty msg,
    Client.create (fun _ => "0") no_waybill "merchant@example.com" "secret" "FAST"
      None false None two_items (Some with_country_code) signed_out
    = (Throw (MedusaError ty msg), signed_out).
Proof.
  apply (create_sends_nothing_without_payload (fun _ => "0") no_waybill
           "merchant@example.com" "secret" "FAST" None false None two_items
           with_country_code signed_out
           (MedusaError INVALID_DATA
              "Billing Phone must be 10 digits, got 12: +91 98765 43210")).
  vm_compute. reflexivity.
Defined.

(** A carrier that cannot be reached. *)
Definition unreachable : Carrier :=
  fun _ _ _ => Failed None (Some "ECONNABORTED") "timeout of 15000ms exceeded" 15000.

Lemma cancel_without_response_throws_TypeError_witness :
  ∃ msg, Client.cancel unreachable "merchant@example.com" "secret" false "SR-77" idle
         = (Throw (TypeError msg),
            with_clock (clock idle + 15000) (asked (CancelOrders ["SR-77"]) idle)).
Proof.
  apply (cancel_without_response_throws_TypeError unreachable
           "merchant@example.com" "secret" false "SR-77" idle _
           (AxiosError None (Some "ECONNABORTED") "timeout of 15000ms exceeded")).
  - vm_compute. reflexivity.
  - reflexivity.
Defined.

Example cancel_on_disposed_client :
  Client.cancel unreachable "merchant@example.com" "secret" true "SR-77" idle
  = (Throw (TypeError "Cannot read properties of undefined (reading 'toLowerCase')"),
     idle).
Proof. vm_compute. reflexivity. Qed.

End CreateFacts.

(** ** Validation: what an accepted number is *)
Module ValidationFacts.
Import Http Manager Validation.

Lemma all_digits_digits_only (s : string) : all_digits (digits_only s) = true.
Proof.
  induction s as [|c s IH]; [done|]. simpl.
  destruct (is_digit c) eqn:E; [|done]. simpl. by rewrite E.
Qed.

Lemma digit_val_range (c : ascii) : is_digit c = true → 0 <= digit_val c <= 9.
Proof.
  unfold is_digit, digit_val. intros [H1 H2]%andb_true_iff.
  apply Nat.leb_le in H1, H2. lia.
Qed.

Lemma digits_value_range (s : string) (acc : Z) :
  all_digits s = true → 0 <= acc →
  acc * 10 ^ Z.of_nat (String.length s) <= digits_value acc s
    < (acc + 1) * 10 ^ Z.of_nat (String.length s).
Proof.
  revert acc. induction s as [|c s IH]; intros acc Hs Hacc.
  - simpl. lia.
  - simpl in Hs. apply andb_true_iff in Hs as [Hc Hs].
    apply digit_val_range in Hc.
    cbn [digits_value String.length]. rewrite Nat2Z.inj_succ, Z.pow_succ_r by lia.
    specialize (IH (10 * acc + digit_val c) Hs ltac:(lia)).
    assert (0 < 10 ^ Z.of_nat (String.length s)) by (apply Z.pow_pos_nonneg; lia).
    nia.
Qed.

(** An accepted pincode has exactly six digit characters, and the number
    returned is below one million: the digits of the input in their
    order, read in base ten. *)
Theorem pincode_in_range (pincode fieldName : string) (n : Z) :
  validateAndSanitizePincode pincode fieldName = Ok n →
  String.length (digits_only pincode) = 6%nat ∧ 0 <= n < 1000000.
Proof.
  unfold validateAndSanitizePincode.
  destruct (String.eqb pincode ""); [done|].
  destruct (Nat.eqb_spec (String.length (digits_only pincode)) 6) as [Hlen|];
    [|done].
  simpl. intros [= <-]. split; [done|].
  pose proof (digits_value_range (digits_only pincode) 0
                (all_digits_digits_only pincode) ltac:(lia)) as H.
  rewrite Hlen in H. simpl in H. lia.
Qed.

(** An accepted phone number has exactly ten digit characters, and the
    number returned is below ten thousand million. *)
Theorem phone_in_range (phone fieldName : string) (n : Z) :
  validateAndSanitizePhone phone fieldName = Ok n →
  String.length (digits_only phone) = 10%nat ∧ 0 <= n < 10000000000.
Proof.
  unfold validateAndSanitizePhone.
  destruct (String.eqb phone ""); [done|].
  destruct (Nat.eqb_spec (String.length (digits_only phone)) 10) as [Hlen|];
    [|done].
  simpl. intros [= <-]. split; [done|].
  pose proof (digits_value_range (digits_only phone) 0
                (all_digits_digits_only phone) ltac:(lia)) as H.
  rewrite Hlen in H. simpl in H. lia.
Qed.

Lemma pincode_in_range_witness :
  String.length (digits_only "560 001") = 6%nat ∧ 0 <= 560001 < 1000000.
Proof.
  apply (pincode_in_range "560 001" "Shipping Pincode" 560001).
  vm_compute. reflexivity.
Defined.

Lemma phone_in_range_witness :
  String.length (digits_only "98765-43210") = 10%nat ∧ 0 <= 9876543210 < 10000000000.
Proof.
  apply (phone_in_range "98765-43210" "Shipping Phone" 9876543210).
  vm_compute. reflexivity.
Defined.

End ValidationFacts.

(** ** The shipping rate: the least allowed rate *)
Module RatesFacts.
Import Http Manager Rates.
Local Open Scope Q_scope.
Local Open Scope string_scope.

(** [c] is a courier of [l] whose rate [q] no courier of [l] is below. *)
Definition least (c : Quote) (q : Q) (l : list Quote) : Prop :=
  c ∈ l ∧ rate c = Some q ∧ ∀ c' q', c' ∈ l → rate c' = Some q' → q <= q'.

Lemma foldl_cheaper (rest : list Quote) (first : Quote) (q0 : Q) :
  rate first = Some q0 →
  (∀ c, c ∈ rest → is_Some (rate c)) →
  ∃ q, least (foldl cheaper first rest) q (first :: rest) ∧ q <= q0.
Proof.
  revert first q0. induction rest as [|x rest IH]; intros first q0 Hf Hall.
  - exists q0. split; [|lra]. split; [by left|]. split; [done|].
    intros c' q' Hc' Hq'. apply list_elem_of_singleton in Hc' as ->.
    rewrite Hf in Hq'. injection Hq' as <-. lra.
  - destruct (Hall x ltac:(by left)) as [qx Hx]. simpl.
    assert (Hrest : ∀ c, c ∈ rest → is_Some (rate c)).
    { intros c Hc. apply Hall. by right. }
    unfold cheaper at 2, less. rewrite Hx, Hf.
    destruct (Qle_bool q0 qx) eqn:Hle; simpl.
    + apply Qle_bool_iff in Hle.
      destruct (IH first q0 Hf Hrest) as (q & (Hin & Hq & Hmin) & Hq0).
      exists q. split; [|done]. split; [|split; [done|]].
      * apply elem_of_cons in Hin as [->|Hin]; [by left|by right; right].
      * intros c' q' Hc' Hq'.
        apply elem_of_cons in Hc' as [->|Hc']; [apply (Hmin first); [by left|done]|].
        apply elem_of_cons in Hc' as [->|Hc'].
        -- rewrite Hx in Hq'. injection Hq' as <-. lra.
        -- apply (Hmin c'); [by right|done].
    + assert (Hlt : qx < q0).
      { apply Qnot_le_lt. intros H%Qle_bool_iff. congruence. }
      destruct (IH x qx Hx Hrest) as (q & (Hin & Hq & Hmin) & Hqx).
      exists q. split; [|lra]. split; [|split; [done|]].
      * right. done.
      * intros c' q' Hc' Hq'.
        apply elem_of_cons in Hc' as [->|Hc'].
        -- rewrite Hf in Hq'. injection Hq' as <-. lra.
        -- by apply (Hmin c').
Qed.

(** The price is the least rate among the allowed couriers, rounded up,
    when every rate is a number; without an allowed courier the call
    throws NOT_FOUND. *)
Theorem calculate_least_allowed_rate (pickup_postcode delivery_postcode : string)
    (allowed_courier_ids : option (list Z)) (couriers : list Quote) :
  (∀ c, c ∈ couriers → is_Some (rate c)) →
  match filtered allowed_courier_ids couriers with
  | [] =>
      ∃ msg, calculate pickup_postcode delivery_postcode allowed_courier_ids
               (Some couriers) = Throw (MedusaError NOT_FOUND msg)
  | _ :: _ =>
      ∃ c q, least c q (filtered allowed_courier_ids couriers) ∧
             calculate pickup_postcode delivery_postcode allowed_courier_ids
               (Some couriers) = Ok (Qceiling q)
  end.
Proof.
  intros Hall.
  assert (Hsub : ∀ c, c ∈ filtered allowed_courier_ids couriers → c ∈ couriers).
  { intros c. unfold filtered. destruct allowed_courier_ids as [[|i ids]|]; try done.
    intros Hc%list_elem_of_In%filter_In. by apply list_elem_of_In, Hc. }
  unfold calculate.
  destruct (filtered allowed_courier_ids couriers) as [|first rest] eqn:Hf.
  - destruct couriers; eauto.
  - destruct (Hall first) as [q0 Hq0]; [apply Hsub; by left|].
    destruct (foldl_cheaper rest first q0 Hq0) as (q & Hleast & _).
    { intros c Hc. apply Hall, Hsub. by right. }
    exists (foldl cheaper first rest), q. split; [done|].
    destruct couriers as [|c0 couriers].
    + destruct allowed_courier_ids as [[|i ids]|]; discriminate Hf.
    + destruct Hleast as (_ & -> & _). done.
Qed.

Definition three_quotes : list Quote :=
  [ {| id := 10; rate := Some (81 # 2) |};
    {| id := 24; rate := Some (397 # 10) |};
    {| id := 51; rate := Some 55 |} ].

Lemma calculate_least_allowed_rate_witness :
  ∃ c q, least c q (filtered (Some [10%Z; 51%Z]) three_quotes) ∧
         calculate "110001" "400001" (Some [10%Z; 51%Z]) (Some three_quotes)
         = Ok (Qceiling q).
Proof.
  apply (calculate_least_allowed_rate "110001" "400001" (Some [10%Z; 51%Z])
           three_quotes).
  intros c Hc. unfold three_quotes in Hc.
  repeat (apply elem_of_cons in Hc as [->|Hc]; [by eexists|]).
  by apply elem_of_nil in Hc.
Defined.

Example calculate_three_quotes :
  calculate "110001" "400001" None (Some three_quotes) = Ok 40%Z ∧
  calculate "110001" "400001" (Some [10%Z; 51%Z]) (Some three_quotes) = Ok 41%Z ∧
  calculate "110001" "400001" (Some [7%Z]) (Some three_quotes)
    = Throw (MedusaError NOT_FOUND "No allowed couriers available for this route").
Proof. repeat split; vm_compute; reflexivity. Qed.

(** A first courier whose rate is not a number is never replaced: the
    price is 0. *)
Example calculate_unreadable_first_rate :
  calculate "110001" "400001" None
    (Some ({| id := 3; rate := None |} :: three_quotes)) = Ok 0%Z.
Proof. vm_compute. reflexivity. Qed.

End RatesFacts.

(** ** The error translator: field errors *)
Module HandleErrorFacts.
Import Http HandleError ClientFacts OrderIdFacts.

(** A part of a joined list occurs in the result. *)
Lemma join_elem (sep x : string) (l : list string) :
  x ∈ l → ∃ a b, join sep l = a ++ x ++ b.
Proof.
  induction l as [|y l IH]; intros Hx; [by apply elem_of_nil in Hx|].
  destruct l as [|z l].
  - apply list_elem_of_singleton in Hx as ->. exists "", "". simpl.
    by rewrite string_app_nil_r.
  - rewrite join_cons by done.
    apply elem_of_cons in Hx as [->|Hx].
    + by exists "", (sep ++ join sep (z :: l)).
    + destruct (IH Hx) as (a & b & ->).
      exists (y ++ sep ++ a), b. by rewrite !string_app_assoc.
Qed.

Lemma includes_app_l (a s p : string) :
  includes s p = true → includes (a ++ s) p = true.
Proof.
  intros H. induction a as [|c a IH]; [done|].
  rewrite string_app_cons. simpl. rewrite IH. apply orb_true_r.
Qed.

Lemma is_prefix_app_r (p s b : string) :
  is_prefix p s = true → is_prefix p (s ++ b) = true.
Proof.
  revert s. induction p as [|c p IH]; intros s H; [done|].
  destruct s as [|d s]; [done|]. rewrite string_app_cons. simpl in *.
  apply andb_true_iff in H as [-> H]. by rewrite IH.
Qed.

Lemma includes_app_r (s b p : string) :
  includes s p = true → includes (s ++ b) p = true.
Proof.
  induction s as [|c s IH]; intros H.
  - simpl in H. rewrite orb_false_r in H. destruct p; [|done].
    by destruct b.
  - rewrite string_app_cons. simpl in *.
    apply orb_true_iff in H as [H|H].
    + pose proof (is_prefix_app_r p (String c s) b H) as Hp.
      rewrite string_app_cons in Hp. by rewrite Hp.
    + rewrite IH by done. apply orb_true_r.
Qed.

(** A 400 or 422 answer with field errors: the message of the error
    thrown names every field that failed. *)
Theorem handleError_names_every_field (status : Z) (data : json)
    (code : option string) (message operation : string)
    (fields : list (string * json)) (k : string) (v : json) :
  status = 400 ∨ status = 422 →
  field "errors" data = Some (JObj fields) →
  (k, v) ∈ fields →
  ∃ msg,
    handleError (AxiosError (Some (status, data)) code message) operation
      = MedusaError INVALID_DATA msg ∧
    includes msg "Validation failed: " = true ∧
    includes msg k = true.
Proof.
  intros Hstatus Herrors Hk. unfold handleError.
  cbv zeta. cbn [response_status response_data default mbind option_bind].
  rewrite Herrors. cbn [validationErrors].
  assert (Hbranch :
    (status =? 401)%Z = false ∧ (status =? 404)%Z = false ∧
    (status =? 429)%Z = false ∧ ((status =? 400)%Z || (status =? 422)%Z) = true).
  { destruct Hstatus as [-> | ->]; done. }
  unfold id. destruct Hbranch as (-> & -> & -> & ->).
  eexists. split; [reflexivity|]. split.
  - apply includes_app_l, includes_app_l, includes_prefix, is_prefix_app.
  - set (render := fun p : string * json => fst p ++ ": " ++ _).
    destruct (join_elem "; " (render (k, v)) (map render fields))
      as (a & b & ->).
    { apply list_elem_of_fmap. by exists (k, v). }
    unfold render at 1. cbn [fst snd].
    do 4 apply includes_app_l.
    apply includes_app_r, includes_prefix, is_prefix_app.
Qed.

Definition field_errors : json :=
  JObj [ ("message", JStr "The given data was invalid.");
         ("errors",
           JObj [ ("billing_phone", JArr [JStr "The billing phone is invalid."]);
                  ("order_items.0.sku", JArr [JStr "The sku field is required."]) ]) ].

Lemma handleError_names_every_field_witness :
  ∃ msg,
    handleError (AxiosError (Some (422, field_errors)) None
                   "Request failed with status code 422") "create"
      = MedusaError INVALID_DATA msg ∧
    includes msg "Validation failed: " = true ∧
    includes msg "order_items.0.sku" = true.
Proof.
  apply (handleError_names_every_field 422 field_errors None
           "Request failed with status code 422" "create"
           [ ("billing_phone", JArr [JStr "The billing phone is invalid."]);
             ("order_items.0.sku", JArr [JStr "The sku field is required."]) ]
           "order_items.0.sku" (JArr [JStr "The sku field is required."])).
  - by right.
  - reflexivity.
  - right. left.
Defined.

Example handleError_field_errors :
  handleError (AxiosError (Some (422, field_errors)) None
                 "Request failed with status code 422") "create"
  = MedusaError INVALID_DATA
      ("[create] Validation failed: " ++
       "billing_phone: The billing phone is invalid.; " ++
       "order_items.0.sku: The sku field is required.").
Proof. vm_compute. reflexivity. Qed.

End HandleErrorFacts.

(** ** Token refresh: the slot is released *)
Module ReleaseFacts.
Import Manager Concurrent ConcurrentFacts.

(** The promise in the slot is awaited by the task that created it. *)
Definition slot_owned (w : World) : Prop :=
  ∀ p, tokenRefreshPromise w = Some p → ∃ i, tasks w !! i = Some (AwaitOwn p).

Lemma slot_owned_set_task (i : nat) (c c0 : pc) (w : World) :
  slot_owned w → tasks w !! i = Some c0 → (∀ p, c0 ≠ AwaitOwn p) →
  slot_owned (set_task i c w).
Proof.
  intros Hown Hi Hc0 p Hp. simpl in Hp. destruct (Hown p Hp) as [j Hj].
  exists j. simpl. rewrite list_lookup_insert_ne; [done|].
  intros ->. rewrite Hi in Hj. injection Hj as ->. by destruct (Hc0 p).
Qed.

Lemma slot_owned_enter_refreshToken (i : nat) (c0 : pc) (w : World) :
  slot_owned w → tasks w !! i = Some c0 → (∀ p, c0 ≠ AwaitOwn p) →
  slot_owned (enter_refreshToken i w).
Proof.
  intros Hown Hi Hc0. unfold enter_refreshToken.
  destruct (tokenRefreshPromise w) as [p|] eqn:Hslot.
  - by eapply slot_owned_set_task.
  - intros p. simpl. intros [= <-]. exists i.
    apply list_lookup_insert_eq. by eapply lookup_lt_Some.
Qed.

Lemma slot_owned_step (e : event) (w w' : World) :
  slot_owned w → step e w = Some w' → slot_owned w'.
Proof.
  intros Hown. destruct e as [via|dt|i|p tok]; simpl.
  - intros [= <-] p Hp. simpl in *. destruct (Hown p Hp) as [j Hj].
    exists j. by apply lookup_app_l_Some.
  - by intros [= <-].
  - unfold resume. destruct (tasks w !! i) as [c|] eqn:Hi; [|done].
    destruct c as [| |p|p|ok].
    + intros [= <-]. unfold enter_ensureToken.
      destruct (isTokenValid w); [by eapply slot_owned_set_task|].
      destruct (tokenRefreshPromise w) as [p|] eqn:Hslot.
      * eapply slot_owned_set_task; [done|exact Hi|done].
      * by eapply slot_owned_enter_refreshToken.
    + intros [= <-]. by eapply slot_owned_enter_refreshToken.
    + destruct (settled w p) as [ok|]; simpl; [|done].
      intros [= <-]. by eapply slot_owned_set_task.
    + destruct (settled w p) as [ok|]; simpl; [|done].
      by intros [= <-] q Hq.
    + done.
  - unfold login_completes. destruct (bool_decide (p ∈ logins w)); [|done].
    by intros [= <-].
Qed.

Lemma slot_owned_run (events : list event) (w w' : World) :
  slot_owned w → run events w = Some w' → slot_owned w'.
Proof.
  revert w. induction events as [|e events IH]; intros w Hown; simpl.
  - by intros [= <-].
  - destruct (step e w) as [w1|] eqn:Hstep; simpl; [|done].
    apply IH. by eapply slot_owned_step.
Qed.

(** The slot is never left occupied: whenever it holds a promise, the
    task that posted the login is waiting for that promise, and as soon
    as the promise is settled that task can resume, which empties the
    slot -- whether the login succeeded or failed. *)
Theorem refresh_slot_is_released (w : World) (p : nat) :
  reachable w → tokenRefreshPromise w = Some p →
  ∃ i, tasks w !! i = Some (AwaitOwn p) ∧
       ∀ ok, settled w p = Some ok →
             ∃ w', resume i w = Some w' ∧ tokenRefreshPromise w' = None ∧
                   tasks w' !! i = Some (Finished ok).
Proof.
  intros (t & tok & events & Hrun) Hslot.
  assert (Hown : slot_owned w).
  { eapply slot_owned_run; [|exact Hrun]. by intros q. }
  destruct (Hown p Hslot) as [i Hi]. exists i. split; [done|].
  intros ok Hok. unfold resume. rewrite Hi, Hok. simpl.
  eexists. split; [done|]. split; [done|]. simpl.
  apply list_lookup_insert_eq. by eapply lookup_lt_Some.
Qed.

(** The login of [one_refresh] has failed. *)
Definition failed_refresh : World :=
  {| now := 0; cachedToken := None; tokenRefreshPromise := Some 0%nat;
     promises := [Rejected]; logins := [];
     tasks := [AwaitOwn 0; AwaitShared 0; AwaitShared 0] |}.

Lemma refresh_slot_is_released_witness :
  ∃ i, tasks failed_refresh !! i = Some (AwaitOwn 0) ∧
       ∀ ok, settled failed_refresh 0 = Some ok →
             ∃ w', resume i failed_refresh = Some w' ∧
                   tokenRefreshPromise w' = None ∧
                   tasks w' !! i = Some (Finished ok).
Proof.
  apply (refresh_slot_is_released failed_refresh 0%nat).
  - exists 0%Z, None, (three_callers ++ [LoginCompletes 0 None])%list. reflexivity.
  - reflexivity.
Defined.

End ReleaseFacts.

(** ** The rate limiter: what a client is allowed *)
Module RateLimiterFacts.
Import RateLimiter.

Lemma cleanup_lookup (swept : Z) (l : Limiter) (id : string) :
  requests (cleanup swept l) !! id =
  match requests l !! id with
  | Some e => if expired l swept e then None else Some e
  | None => None
  end.
Proof.
  unfold cleanup. simpl. rewrite map_lookup_filter.
  destruct (requests l !! id) as [e|]; simpl; [|done].
  destruct (expired l swept e) eqn:E.
  - rewrite option_guard_False; [done|]. simpl. congruence.
  - rewrite option_guard_True; [done|]. done.
Qed.

(** The limiter as [isAllowed] sees it after its forced cleanup. *)
Definition swept_limiter (swept : Z) (l : Limiter) : Limiter :=
  if (maxCacheSize <=? Z.of_nat (size (requests l)))%Z then cleanup swept l else l.

Lemma swept_limiter_lookup (swept : Z) (l : Limiter) (id : string) (e : RateLimitEntry) :
  requests l !! id = Some e → expired l swept e = false →
  requests (swept_limiter swept l) !! id = Some e.
Proof.
  intros He Hx. unfold swept_limiter.
  destruct (maxCacheSize <=? Z.of_nat (size (requests l)))%Z; [|done].
  by rewrite cleanup_lookup, He, Hx.
Qed.

Lemma swept_limiter_params (swept : Z) (l : Limiter) :
  maxRequests (swept_limiter swept l) = maxRequests l ∧
  windowMs (swept_limiter swept l) = windowMs l.
Proof. unfold swept_limiter. by destruct (maxCacheSize <=? Z.of_nat (size (requests l)))%Z. Qed.

Lemma isAllowed_params (id : string) (swept now : Z) (l : Limiter) :
  maxRequests (snd (isAllowed id swept now l)) = maxRequests l ∧
  windowMs (snd (isAllowed id swept now l)) = windowMs l.
Proof.
  unfold isAllowed. fold (swept_limiter swept l).
  destruct (swept_limiter_params swept l) as [Hm Hw].
  destruct (requests (swept_limiter swept l) !! id) as [e|]; simpl; [|done].
  destruct (expired _ now e); simpl; [done|].
  by destruct (maxRequests (swept_limiter swept l) <=? count e)%Z.
Qed.

(** A call by another client leaves a window that has not expired as it
    is. *)
Lemma isAllowed_other (id id' : string) (swept now : Z) (l : Limiter)
    (e : RateLimitEntry) :
  id' ≠ id → requests l !! id = Some e → expired l swept e = false →
  requests (snd (isAllowed id' swept now l)) !! id = Some e.
Proof.
  intros Hne He Hx. unfold isAllowed. fold (swept_limiter swept l).
  pose proof (swept_limiter_lookup swept l id e He Hx) as Hs.
  destruct (requests (swept_limiter swept l) !! id') as [e'|]; simpl.
  - destruct (expired _ now e'); simpl; [by rewrite lookup_insert_ne|].
    destruct (maxRequests (swept_limiter swept l) <=? count e')%Z; simpl; [done|].
    by rewrite lookup_insert_ne.
  - by rewrite lookup_insert_ne.
Qed.

(** A call by the client inside its window: the answer and the count
    after. *)
Lemma isAllowed_same (id : string) (swept now : Z) (l : Limiter)
    (e : RateLimitEntry) :
  requests l !! id = Some e → expired l swept e = false →
  expired l now e = false →
  if (maxRequests l <=? count e)%Z then
    fst (isAllowed id swept now l) = false ∧
    requests (snd (isAllowed id swept now l)) !! id = Some e
  else
    fst (isAllowed id swept now l) = true ∧
    requests (snd (isAllowed id swept now l)) !! id =
      Some {| count := count e + 1; windowStart := windowStart e |}.
Proof.
  intros He Hx Hn. unfold isAllowed. fold (swept_limiter swept l).
  pose proof (swept_limiter_lookup swept l id e He Hx) as Hs.
  destruct (swept_limiter_params swept l) as [Hm Hw].
  rewrite Hs. unfold expired in *. rewrite Hw, Hn, Hm.
  destruct (maxRequests l <=? count e)%Z; simpl; [done|].
  by rewrite lookup_insert_eq.
Qed.

Lemma cleanup_keeps (now : Z) (l : Limiter) (id : string) (e : RateLimitEntry) :
  requests l !! id = Some e → expired l now e = false →
  requests (cleanup now l) !! id = Some e.
Proof. intros He Hx. by rewrite cleanup_lookup, He, Hx. Qed.

(** The number of calls of a trace made by [id], and the number of those
    that were allowed. *)
Definition asks (id : string) (ev : event) : bool :=
  match ev with
  | Asks c => String.eqb (identifier c) id
  | Sweeps _ => false
  end.

Definition calls_by (id : string) (events : list event) : Z :=
  Z.of_nat (List.length (List.filter (asks id) events)).

Definition allowed_to (id : string) (answers : list (string * bool)) : Z :=
  Z.of_nat (List.length
              (List.filter (fun a => String.eqb (fst a) id && snd a) answers)).

(** The event reads the clock no later than [windowMs] after [start]. *)
Definition within (l : Limiter) (start : Z) (ev : event) : Prop :=
  match ev with
  | Asks c => swept_at c - start <= windowMs l ∧ asked_at c - start <= windowMs l
  | Sweeps now => now - start <= windowMs l
  end.

Lemma within_params (l l1 : Limiter) (start : Z) (events : list event) :
  windowMs l1 = windowMs l →
  Forall (within l start) events → Forall (within l1 start) events.
Proof.
  intros Hw Hall. eapply Forall_impl; [exact Hall|].
  intros [c|now]; unfold within; by rewrite Hw.
Qed.

Lemma serve_in_window (events : list event) (l : Limiter) (id : string)
    (e : RateLimitEntry) :
  requests l !! id = Some e →
  Forall (within l (windowStart e)) events →
  allowed_to id (fst (serve events l)) =
    Z.min (calls_by id events) (Z.max 0 (maxRequests l - count e)).
Proof.
  revert l e. induction events as [|[c|now] events IH]; intros l e He Hall.
  - unfold allowed_to, calls_by. simpl. lia.
  - apply Forall_cons in Hall as [[Hs Hn] Hall]. simpl.
    destruct (isAllowed_params (identifier c) (swept_at c) (asked_at c) l)
      as [Hm Hw].
    assert (Hxs : expired l (swept_at c) e = false).
    { unfold expired. apply Z.ltb_ge. lia. }
    assert (Hxn : expired l (asked_at c) e = false).
    { unfold expired. apply Z.ltb_ge. lia. }
    destruct (String.eqb_spec (identifier c) id) as [Hid|Hid].
    + pose proof (isAllowed_same id (swept_at c) (asked_at c) l e He Hxs Hxn) as Hsame.
      rewrite Hid in *.
      destruct (isAllowed id (swept_at c) (asked_at c) l) as [answer l1].
      simpl in *.
      destruct (Z.leb_spec (maxRequests l) (count e)) as [Hfull|Hroom];
        destruct Hsame as [-> He1].
      * specialize (IH l1 e He1 (within_params l l1 _ _ Hw Hall)).
        destruct (serve events l1) as [answers l2]. simpl in *.
        unfold allowed_to, calls_by in *. simpl.
        rewrite String.eqb_refl. simpl.
        rewrite Hid, String.eqb_refl. cbn [List.length].
        rewrite !Nat2Z.inj_succ, IH, Hm. lia.
      * specialize (IH l1 _ He1 (within_params l l1 _ _ Hw Hall)).
        destruct (serve events l1) as [answers l2]. simpl in *.
        unfold allowed_to, calls_by in *. simpl.
        rewrite String.eqb_refl. simpl.
        rewrite Hid, String.eqb_refl. cbn [List.length].
        rewrite !Nat2Z.inj_succ, IH, Hm. lia.
    + pose proof (isAllowed_other id (identifier c) (swept_at c) (asked_at c) l e
                    Hid He Hxs) as He1.
      destruct (isAllowed (identifier c) (swept_at c) (asked_at c) l) as [answer l1].
      simpl in *. specialize (IH l1 e He1 (within_params l l1 _ _ Hw Hall)).
      destruct (serve events l1) as [answers l2]. simpl in *.
      unfold allowed_to, calls_by in *. simpl.
      destruct (String.eqb_spec (identifier c) id) as [|_]; [done|]. simpl.
      by rewrite IH, Hm.
  - apply Forall_cons in Hall as [Hn Hall]. simpl in Hn.
    assert (Hx : expired l now e = false).
    { unfold expired. apply Z.ltb_ge. lia. }
    cbn [serve].
    rewrite (IH (cleanup now l) e (cleanup_keeps now l id e He Hx)
               (within_params l _ _ _ eq_refl Hall)).
    unfold calls_by. simpl. done.
Qed.

(** A client without a window (or with an expired one) makes a call, and
    every call and every timed cleanup that follows falls within the
    window that this first call opens: the client is allowed
    [maxRequests] calls in all (one, if the limit is below one), whatever
    the other clients do. *)
Theorem window_allows_maxRequests (l : Limiter) (first : call) (rest : list event) :
  (∀ e, requests l !! identifier first = Some e →
        expired l (asked_at first) e = true) →
  Forall (within l (asked_at first)) rest →
  allowed_to (identifier first) (fst (serve (Asks first :: rest) l)) =
    Z.min (calls_by (identifier first) (Asks first :: rest))
          (Z.max 1 (maxRequests l)).
Proof.
  intros Hold Hrest. set (id := identifier first) in *.
  assert (Hfirst :
    fst (isAllowed id (swept_at first) (asked_at first) l) = true ∧
    requests (snd (isAllowed id (swept_at first) (asked_at first) l)) !! id =
      Some {| count := 1; windowStart := asked_at first |}).
  { unfold isAllowed. fold (swept_limiter (swept_at first) l).
    destruct (swept_limiter_params (swept_at first) l) as [Hm Hw].
    assert (Hs : ∀ e, requests (swept_limiter (swept_at first) l) !! id = Some e →
                      expired l (asked_at first) e = true).
    { intros e. unfold swept_limiter.
      destruct (maxCacheSize <=? Z.of_nat (size (requests l)))%Z; [|apply Hold].
      rewrite cleanup_lookup. destruct (requests l !! id) as [e'|] eqn:He'; [|done].
      destruct (expired l (swept_at first) e'); [done|].
      intros [= <-]. by apply Hold. }
    destruct (requests (swept_limiter (swept_at first) l) !! id) as [e|]; simpl.
    - specialize (Hs e eq_refl). unfold expired in *. rewrite Hw, Hs. simpl.
      by rewrite lookup_insert_eq.
    - by rewrite lookup_insert_eq. }
  destruct Hfirst as [Hyes He1].
  destruct (isAllowed_params id (swept_at first) (asked_at first) l) as [Hm Hw].
  simpl. fold id.
  destruct (isAllowed id (swept_at first) (asked_at first) l) as [answer l1].
  simpl in *. subst answer.
  pose proof (serve_in_window rest l1 id _ He1 (within_params l l1 _ _ Hw Hrest))
    as Hwin. simpl in Hwin.
  destruct (serve rest l1) as [answers l2]. simpl in *.
  unfold allowed_to, calls_by in *. simpl. fold id.
  rewrite String.eqb_refl. simpl. rewrite !Nat2Z.inj_succ, Hwin, Hm. lia.
Qed.

(** Thirty-five calls of one client within a minute, and a timed cleanup
    among them. *)
Definition burst : list event :=
  Sweeps 500 ::
  map (fun i => Asks {| identifier := "203.0.113.7"; swept_at := Z.of_nat i * 1000;
                        asked_at := Z.of_nat i * 1000 |}) (seq 1 34).

Definition opening : call :=
  {| identifier := "203.0.113.7"; swept_at := 0; asked_at := 0 |}.

Lemma window_allows_maxRequests_witness :
  allowed_to "203.0.113.7" (fst (serve (Asks opening :: burst) rateLimiter)) =
    Z.min (calls_by "203.0.113.7" (Asks opening :: burst)) (Z.max 1 30).
Proof.
  apply (window_allows_maxRequests rateLimiter opening burst).
  - intros e He. vm_compute in He. discriminate He.
  - unfold burst. apply Forall_cons. split; [simpl; lia|].
    apply Forall_map, Forall_forall. intros i Hi.
    apply elem_of_seq in Hi. unfold within. simpl. lia.
Defined.

Example thirty_first_is_rejected :
  nth 30 (map snd (fst (serve (Asks opening :: burst) rateLimiter))) true = false ∧
  nth 29 (map snd (fst (serve (Asks opening :: burst) rateLimiter))) false = true.
Proof. split; vm_compute; reflexivity. Qed.

Lemma swept_limiter_lookup_later (swept now : Z) (l : Limiter) (id : string) :
  swept <= now →
  match requests (swept_limiter swept l) !! id with
  | Some e => requests l !! id = Some e
  | None =>
      match requests l !! id with
      | Some e => expired l now e = true
      | None => True
      end
  end.
Proof.
  intros Hle. unfold swept_limiter.
  destruct (maxCacheSize <=? Z.of_nat (size (requests l)))%Z.
  - rewrite cleanup_lookup. destruct (requests l !! id) as [e|]; [|done].
    destruct (expired l swept e) eqn:Hx; [|done].
    unfold expired in *. apply Z.ltb_lt in Hx. apply Z.ltb_lt. lia.
  - by destruct (requests l !! id).
Qed.

(** The decision agrees with the remaining quota: a call is refused
    exactly when [getRemaining] is 0 at that instant. *)
Theorem refused_iff_nothing_remains (id : string) (swept now : Z) (l : Limiter) :
  swept <= now → 1 <= maxRequests l →
  fst (isAllowed id swept now l) = false ↔ getRemaining id now l = 0.
Proof.
  intros Hle Hmax. unfold isAllowed, getRemaining. fold (swept_limiter swept l).
  pose proof (swept_limiter_lookup_later swept now l id Hle) as Hs.
  destruct (swept_limiter_params swept l) as [Hm Hw].
  destruct (requests (swept_limiter swept l) !! id) as [e|].
  - rewrite Hs. unfold expired. rewrite Hw, Hm.
    destruct (windowMs l <? now - windowStart e)%Z; simpl; [split; [done|lia]|].
    destruct (Z.leb_spec (maxRequests l) (count e)); simpl; split; try done; lia.
  - simpl. destruct (requests l !! id) as [e|]; [rewrite Hs|]; split; try done; lia.
Qed.

Lemma refused_iff_nothing_remains_witness :
  fst (isAllowed "203.0.113.7" 40000 40000 (snd (serve (Asks opening :: burst) rateLimiter)))
    = false ↔
  getRemaining "203.0.113.7" 40000 (snd (serve (Asks opening :: burst) rateLimiter)) = 0.
Proof.
  apply refused_iff_nothing_remains; [lia|].
  vm_compute. discriminate.
Defined.

Lemma ceil_div_1000_ge (x : Z) : x <= 1000 * ceil_div_1000 x.
Proof.
  unfold ceil_div_1000.
  pose proof (Z.mul_div_le (- x) 1000 ltac:(lia)). lia.
Qed.

(** A client that was refused and waits longer than the [Retry-After]
    seconds it was told is allowed again. *)
Theorem allowed_after_reset_time (id : string) (swept now swept' later : Z)
    (l : Limiter) :
  swept <= now → swept' <= later →
  fst (isAllowed id swept now l) = false →
  now + 1000 * getResetTime id now l < later →
  0 <= getResetTime id now l ∧
  fst (isAllowed id swept' later (snd (isAllowed id swept now l))) = true.
Proof.
  intros Hle Hle' Hno Hlater. split.
  { unfold getResetTime. destruct (requests l !! id); lia. }
  revert Hno. unfold isAllowed at 1 3. fold (swept_limiter swept l).
  pose proof (swept_limiter_lookup_later swept now l id Hle) as Hs.
  destruct (swept_limiter_params swept l) as [Hm Hw].
  destruct (requests (swept_limiter swept l) !! id) as [e|] eqn:He; [|done].
  destruct (expired (swept_limiter swept l) now e); [done|].
  destruct (maxRequests (swept_limiter swept l) <=? count e)%Z; [|done].
  intros _. simpl.
  unfold getResetTime in Hlater. rewrite Hs in Hlater.
  pose proof (ceil_div_1000_ge (windowStart e + windowMs l - now)) as Hceil.
  assert (Hx : expired (swept_limiter swept l) later e = true).
  { unfold expired. rewrite Hw. apply Z.ltb_lt. lia. }
  unfold isAllowed. fold (swept_limiter swept' (swept_limiter swept l)).
  destruct (swept_limiter_params swept' (swept_limiter swept l)) as [Hm' Hw'].
  assert (Hs' : ∀ e', requests (swept_limiter swept' (swept_limiter swept l)) !! id
                      = Some e' → e' = e).
  { intros e'. unfold swept_limiter at 1.
    destruct (maxCacheSize <=? Z.of_nat (size (requests (swept_limiter swept l))))%Z.
    - rewrite cleanup_lookup, He. by destruct (expired _ swept' e); intros [= <-].
    - rewrite He. by intros [= <-]. }
  destruct (requests (swept_limiter swept' (swept_limiter swept l)) !! id)
    as [e'|]; [|done].
  rewrite (Hs' e' eq_refl). unfold expired in *. by rewrite Hw', Hx.
Qed.

Lemma allowed_after_reset_time_witness :
  0 <= getResetTime "203.0.113.7" 40000 (snd (serve (Asks opening :: burst) rateLimiter)) ∧
  fst (isAllowed "203.0.113.7" 60001 60001
         (snd (isAllowed "203.0.113.7" 40000 40000
                 (snd (serve (Asks opening :: burst) rateLimiter))))) = true.
Proof.
  apply (allowed_after_reset_time "203.0.113.7" 40000 40000 60001 60001);
    [lia|lia|vm_compute; reflexivity|vm_compute; reflexivity].
Defined.

(** No counter is below 1 or above the limit. *)
Definition bounded (l : Limiter) : Prop :=
  map_Forall (fun _ e => 1 <= count e <= Z.max 1 (maxRequests l)) (requests l).

Lemma bounded_swept (swept : Z) (l : Limiter) :
  bounded l → bounded (swept_limiter swept l).
Proof.
  intros Hb. unfold swept_limiter.
  destruct (maxCacheSize <=? Z.of_nat (size (requests l)))%Z; [|done].
  intros id e He. rewrite cleanup_lookup in He.
  destruct (requests l !! id) as [e'|] eqn:He'; [|done].
  destruct (expired l swept e'); [done|]. injection He as <-.
  by apply (Hb id).
Qed.

Lemma bounded_isAllowed (id : string) (swept now : Z) (l : Limiter) :
  bounded l → bounded (snd (isAllowed id swept now l)).
Proof.
  intros Hb%(bounded_swept swept). unfold isAllowed. fold (swept_limiter swept l).
  assert (Hnew : ∀ c w,
    1 <= c <= Z.max 1 (maxRequests (swept_limiter swept l)) →
    bounded (with_requests
               (<[id := {| count := c; windowStart := w |}]>
                  (requests (swept_limiter swept l))) (swept_limiter swept l))).
  { intros c w Hc id' e'. simpl. intros He'.
    apply lookup_insert_Some in He' as [[_ <-]|[_ He']]; [done|by apply (Hb id')]. }
  destruct (requests (swept_limiter swept l) !! id) as [e|] eqn:He; simpl.
  - destruct (expired _ now e); simpl; [apply Hnew; lia|].
    destruct (Z.leb_spec (maxRequests (swept_limiter swept l)) (count e)); simpl;
      [done|].
    apply Hnew. pose proof (Hb id e He) as Hc. simpl in Hc. lia.
  - apply Hnew. lia.
Qed.

Lemma bounded_cleanup (now : Z) (l : Limiter) : bounded l → bounded (cleanup now l).
Proof.
  intros Hb id e He. rewrite cleanup_lookup in He.
  destruct (requests l !! id) as [e'|] eqn:He'; [|done].
  destruct (expired l now e'); [done|]. injection He as <-.
  by apply (Hb id).
Qed.

(** Whatever calls and cleanups the limiter of the route has seen, every
    counter it holds is between 1 and 30. *)
Theorem counters_stay_within_limit (events : list event) :
  map_Forall (fun _ e => 1 <= count e <= 30)
    (requests (snd (serve events rateLimiter))).
Proof.
  assert (Hgen : ∀ l, bounded l → bounded (snd (serve events l))).
  { induction events as [|[c|now] events IH]; intros l Hb; [done| |].
    - simpl.
      pose proof (bounded_isAllowed (identifier c) (swept_at c) (asked_at c) l Hb)
        as H1.
      destruct (isAllowed (identifier c) (swept_at c) (asked_at c) l) as [a l1].
      specialize (IH l1 H1). by destruct (serve events l1).
    - cbn [serve]. by apply IH, bounded_cleanup. }
  assert (Hm : maxRequests (snd (serve events rateLimiter)) = 30).
  { clear Hgen. generalize rateLimiter (eq_refl : maxRequests rateLimiter = 30).
    induction events as [|[c|now] events IH]; intros l Hl; [done| |].
    - simpl.
      destruct (isAllowed_params (identifier c) (swept_at c) (asked_at c) l)
        as [H1 _].
      destruct (isAllowed (identifier c) (swept_at c) (asked_at c) l) as [a l1].
      simpl in H1. specialize (IH l1 ltac:(congruence)).
      by destruct (serve events l1).
    - cbn [serve]. by apply IH. }
  specialize (Hgen rateLimiter). unfold bounded in Hgen. rewrite Hm in Hgen.
  apply Hgen. intros id e He. simpl in He. by rewrite lookup_empty in He.
Qed.

End RateLimiterFacts.
